(** * Duck Duck Diameter: the simulation notebook, embedded and verified

    The notebook estimates the probability that [n] uniformly random points
    on a circle fit in one semicircle.  Its executable core is five Python
    functions: [generate_ducks], [calculate_distance], [test_distance],
    [test] and [expected_result].

    Python floats are IEEE 754 binary64 numbers.  They are modelled with the
    Standard Library's executable specification [SpecFloat] (precision 53,
    maximal exponent 1024, rounding to nearest, ties to even), so that every
    rounding of the program is part of the model.  The operators of Python 3
    that the notebook applies to them ([%] on floats, [/] and [**] on
    integers, the mixed [*]) follow CPython.  Python exceptions are the
    [Raise] results of an error type, and the random generator is a stream
    of floats read through an explicit cursor. *)

From Stdlib Require Import ZArith List Bool Lia QArith Qpower Permutation Sorted.
From Stdlib Require Import SpecFloat.
Import ListNotations.

Local Open Scope Z_scope.

(** ** Binary64 arithmetic *)

Module F64.

Definition prec : Z := 53.
Definition emax : Z := 1024.

Definition float : Type := spec_float.

Definition fadd : float -> float -> float := SFadd prec emax.
Definition fsub : float -> float -> float := SFsub prec emax.
Definition fmul : float -> float -> float := SFmul prec emax.
Definition fdiv : float -> float -> float := SFdiv prec emax.
Definition flt : float -> float -> bool := SFltb.
Definition fle : float -> float -> bool := SFleb.
Definition feq : float -> float -> bool := SFeqb.

(** The double nearest to [m * 2^e]. *)
Definition round (m e : Z) : float := binary_normalize prec emax m e false.

(** The literals of the program. *)
Definition zero : float := S754_zero false.
Definition half : float := S754_finite false 4503599627370496 (-53).
Definition one : float := S754_finite false 4503599627370496 (-52).

(** [grid k] is the double nearest to [k / 2^53]; it is exactly [k / 2^53]
    when [|k| <= 2^53]. *)
Definition grid (k : Z) : float := round k (-53).

(** An integer as an unrounded binary number, the operand form of the
    integer true division. *)
Definition Z2SF (z : Z) : float :=
  match z with
  | Z0 => S754_zero false
  | Zpos p => S754_finite false p 0
  | Zneg p => S754_finite true p 0
  end.

(** C's [fmod]: the remainder of the truncated quotient, computed exactly;
    it carries the sign of [x]. *)
Definition fmod (x y : float) : float :=
  match x, y with
  | S754_nan, _ | _, S754_nan => S754_nan
  | S754_infinity _, _ => S754_nan
  | _, S754_zero _ => S754_nan
  | _, S754_infinity _ => x
  | S754_zero _, _ => x
  | S754_finite sx mx ex, S754_finite sy my ey =>
      let e := Z.min ex ey in
      let X := Zpos mx * 2 ^ (ex - e) in
      let Y := Zpos my * 2 ^ (ey - e) in
      binary_normalize prec emax (cond_Zopp sx (Z.rem X Y)) e sx
  end.

Definition sign_bit (x : float) : bool :=
  match x with
  | S754_zero s | S754_infinity s | S754_finite s _ _ => s
  | S754_nan => false
  end.

(** The rational value of a finite double. *)
Definition F2Q (x : float) : Q :=
  match x with
  | S754_finite s m e => inject_Z (cond_Zopp s (Zpos m)) * Qpower 2 e
  | _ => 0%Q
  end.

Definition is_finite (x : float) : bool :=
  match x with S754_zero _ | S754_finite _ _ _ => true | _ => false end.

End F64.

Import F64.

(** ** The fragment of Python the notebook uses *)

Module Py.

Inductive exn : Type := IndexError | ZeroDivisionError | OverflowError.

Inductive result (A : Type) : Type :=
| Ok (a : A)
| Raise (e : exn).
Arguments Ok {A} a.
Arguments Raise {A} e.

(** Values that reach a [return] or a [print] of the notebook. *)
Inductive pyval : Type :=
| PInt (z : Z)
| PFloat (f : float)
| PList (l : list float).

(** Computations that read the random stream: the cursor is the number of
    values [random.random()] has handed out so far. *)
Definition M (A : Type) : Type := nat -> result (A * nat).

Definition ret {A} (a : A) : M A := fun pos => Ok (a, pos).

Definition bind {A B} (m : M A) (k : A -> M B) : M B :=
  fun pos =>
    match m pos with
    | Ok (a, pos') => k a pos'
    | Raise e => Raise e
    end.

Definition lift {A} (r : result A) : M A :=
  fun pos =>
    match r with
    | Ok a => Ok (a, pos)
    | Raise e => Raise e
    end.

Definition rbind {A B} (r : result A) (k : A -> result B) : result B :=
  match r with
  | Ok a => k a
  | Raise e => Raise e
  end.

(** [l[i]], negative indices counting from the end. *)
Definition py_index {A} (l : list A) (i : Z) : result A :=
  let n := Z.of_nat (length l) in
  let j := if i <? 0 then i + n else i in
  if (0 <=? j) && (j <? n) then
    match nth_error l (Z.to_nat j) with
    | Some x => Ok x
    | None => Raise IndexError
    end
  else Raise IndexError.

(** [a / b] on integers: the correctly rounded quotient. *)
Definition int_truediv (a b : Z) : result float :=
  if b =? 0 then Raise ZeroDivisionError
  else
    match fdiv (Z2SF a) (Z2SF b) with
    | S754_infinity _ => Raise OverflowError
    | q => Ok q
    end.

(** [float(n)] for an integer [n], as the mixed operators apply it. *)
Definition int_to_float (n : Z) : result float :=
  match round n 0 with
  | S754_infinity _ => Raise OverflowError
  | x => Ok x
  end.

(** [f * n] for a float and an integer: the integer is converted first. *)
Definition float_mul_int (f : float) (n : Z) : result float :=
  rbind (int_to_float n) (fun c => Ok (fmul f c)).

(** [v * n] for a value of the notebook and an integer: the product of the
    numbers, the repetition of a list. *)
Definition py_mul_int (v : pyval) (n : Z) : result pyval :=
  match v with
  | PInt z => Ok (PInt (z * n))
  | PFloat f => rbind (float_mul_int f n) (fun x => Ok (PFloat x))
  | PList l => Ok (PList (concat (repeat l (Z.to_nat n))))
  end.

(** [v % w] on floats, after CPython's [float_rem]: [fmod], then the
    remainder is moved to the sign of the divisor. *)
Definition float_rem (v w : float) : result float :=
  if feq w zero then Raise ZeroDivisionError
  else
    let m := fmod v w in
    if negb (feq m zero) then
      if xorb (flt w zero) (flt m zero) then Ok (fadd m w) else Ok m
    else Ok (S754_zero (sign_bit w)).

(** [x / y] on floats. *)
Definition float_truediv (x y : float) : result float :=
  if feq y zero then Raise ZeroDivisionError else Ok (fdiv x y).

(** [2 ** e]: the integer [2^e] for [e >= 0].  For a negative exponent
    Python converts the base and the exponent to floats, which raises
    [OverflowError] when the exponent is too large for a double, and
    computes the float power, here the double nearest to [2^e]; from
    [-2^53] down, where the conversion of the exponent can round, the power
    is [0.0] for the exponent and for its double alike. *)
Definition pow2 (e : Z) : result (Z + float) :=
  if 0 <=? e then Ok (inl (2 ^ e))
  else rbind (int_to_float e) (fun _ => Ok (inr (round 1 e))).

(** [l.sort()] on floats: a stable sort that compares with [<] only. *)
Fixpoint insert (x : float) (l : list float) : list float :=
  match l with
  | [] => [x]
  | y :: l' => if flt y x then y :: insert x l' else x :: y :: l'
  end.

Fixpoint list_sort (l : list float) : list float :=
  match l with
  | [] => []
  | x :: l' => insert x (list_sort l')
  end.

Fixpoint mapM {A B} (f : A -> result B) (l : list A) : result (list B) :=
  match l with
  | [] => Ok []
  | x :: l' =>
      rbind (f x) (fun y => rbind (mapM f l') (fun ys => Ok (y :: ys)))
  end.

End Py.

Import Py.

Notation "x <- m ;; k" := (bind m (fun x => k))
  (at level 61, m at next level, right associativity).

(** ** The notebook *)

Module Duck.

(** The values the seeded generator yields, in order. *)
Definition rng : Type := nat -> float.

Section Notebook.

Variable g : rng.

(** [random.random()] *)
Definition random : M float := fun pos => Ok (g pos, S pos).

(** [[random.random() for _ in range(count)]] *)
Fixpoint draw (count : nat) : M (list float) :=
  match count with
  | O => ret []
  | S count' =>
      x <- random ;;
      xs <- draw count' ;;
      ret (x :: xs)
  end.

(** The pure part of [generate_ducks]: rotation, wrap and sort of the
    values drawn. *)
Definition rotate_and_sort (random_ducks : list float) : result (list float) :=
  rbind (py_index random_ducks 0) (fun first =>
  let rotation_delta := fsub half first in
  let rotated_ducks := map (fun duck => fadd duck rotation_delta) random_ducks in
  rbind (mapM (fun duck => float_rem duck one) rotated_ducks) (fun ducks =>
  Ok (list_sort ducks))).

Definition generate_ducks (duck_count : Z) : M (list float) :=
  random_ducks <- draw (Z.to_nat duck_count) ;;
  lift (rotate_and_sort random_ducks).

Definition calculate_distance (ducks : list float) : result float :=
  rbind (py_index ducks (-1)) (fun last =>
  rbind (py_index ducks 0) (fun first =>
  Ok (fsub last first))).

Definition test_distance (distance : float) : bool := fle distance half.

(** The body of the [for] loop of [test], run [iters] times. *)
Fixpoint test_loop (duck_count : Z) (iters : nat) (hits : Z) : M Z :=
  match iters with
  | O => ret hits
  | S iters' =>
      ducks <- generate_ducks duck_count ;;
      distance <- lift (calculate_distance ducks) ;;
      let on_one_half := test_distance distance in
      test_loop duck_count iters' (if on_one_half then hits + 1 else hits)
  end.

(** [test]; [iterations] is the module-level variable the function reads.
    The tuple returned is a triple of Python values. *)
Definition test (iterations duck_count : Z) : M (pyval * pyval * pyval) :=
  let distances := [] in
  hits <- test_loop duck_count (Z.to_nat iterations) 0 ;;
  ratio <- lift (int_truediv hits iterations) ;;
  ret (PList distances, PInt hits, PFloat ratio).

End Notebook.

(** [expected_result]: [duck_count * (1 / 2 ** (duck_count-1))] *)
Definition expected_result (duck_count : Z) : result float :=
  rbind (pow2 (duck_count - 1)) (fun power =>
  rbind (match power with
         | inl d => int_truediv 1 d
         | inr d => float_truediv one d
         end) (fun r =>
  rbind (int_to_float duck_count) (fun n =>
  Ok (fmul n r)))).

(** One line of the table the last cell prints: the values [print] is given
    between the words, that is [duck_count], [hits], [propability * 100] and
    [expectation * 100]. *)
Record line : Type := Line {
  line_ducks : Z;
  line_hits : pyval;
  line_observed : pyval;
  line_expected : float }.

(** The loop of the last cell, [for duck_count in [2,3,4,5,6,8,10,15,20]]:
    a run of [test], the closed form, and one line printed.  The result is
    the list of the lines printed, with the cursor reached or the exception
    that stopped the loop. *)
Fixpoint report_loop (g : rng) (iterations : Z) (counts : list Z) (pos : nat)
  : list line * result nat :=
  match counts with
  | [] => ([], Ok pos)
  | duck_count :: counts' =>
      match test g iterations duck_count pos with
      | Raise e => ([], Raise e)
      | Ok ((distances, hits, propability), pos') =>
          match expected_result duck_count with
          | Raise e => ([], Raise e)
          | Ok expectation =>
              match py_mul_int propability 100 with
              | Raise e => ([], Raise e)
              | Ok observed =>
                  match float_mul_int expectation 100 with
                  | Raise e => ([], Raise e)
                  | Ok expected =>
                      let (out, r) := report_loop g iterations counts' pos' in
                      (Line duck_count hits observed expected :: out, r)
                  end
              end
          end
      end
  end.

Definition duck_counts : list Z := [2; 3; 4; 5; 6; 8; 10; 15; 20].

Definition report (g : rng) (iterations : Z) (pos : nat) : list line * result nat :=
  report_loop g iterations duck_counts pos.

(** The cell that runs the experiment on four ducks: the loop over
    [iterations = 100000] trials, then the two lines printed, which show
    [hits], [iterations] and [hits / iterations * 100]. *)
Fixpoint experiment_loop (g : rng) (iters : nat) (hits : Z) : M Z :=
  match iters with
  | O => ret hits
  | S iters' =>
      ducks <- generate_ducks g 4 ;;
      distance <- lift (calculate_distance ducks) ;;
      let on_one_half := test_distance distance in
      experiment_loop g iters' (if on_one_half then hits + 1 else hits)
  end.

Definition experiment (g : rng) : M (Z * Z * float) :=
  let iterations := 100000 in
  hits <- experiment_loop g (Z.to_nat iterations) 0 ;;
  ratio <- lift (int_truediv hits iterations) ;;
  percent <- lift (float_mul_int ratio 100) ;;
  ret (hits, iterations, percent).

End Duck.

Import Duck.

(** ** Vocabulary of the properties *)

(** [0.0 <= x < 1.0], with the comparisons of the floats. *)
Definition in_unit (x : float) : Prop :=
  fle zero x = true /\ flt x one = true.

(** What [random.random()] returns: a multiple of [2^-53] in [[0, 1)] (the
    documentation of Python's [random] module: the default [random()]
    returns multiples of 2^-53 in the range 0.0 <= x < 1.0). *)
Definition is_draw (x : float) : Prop :=
  exists k, 0 <= k < 2 ^ 53 /\ x = grid k.

(** A double of [[0, 1)]: a well-formed binary64 datum [x] with
    [0.0 <= x < 1.0]. *)
Definition unit_float (x : float) : Prop :=
  valid_binary prec emax x = true /\ in_unit x.

(** Draws that are even multiples of [2^-53], that is multiples of [2^-52]. *)
Definition on_even_grid (x : float) : Prop :=
  exists k, 0 <= k < 2 ^ 53 /\ Z.even k = true /\ x = grid k.

Definition in_range (k : Z) : Prop := 0 <= k < 2 ^ 53.

(** Sorted ascending: every element is [<=] every later one. *)
Definition ascending (l : list float) : Prop :=
  StronglySorted (fun x y => fle x y = true) l.

(** The [count] values the stream hands out from cursor [pos] on. *)
Definition window (g : rng) (pos count : nat) : list float :=
  map g (seq pos count).

(** The span of the sample built from the values drawn, and the verdict on
    it: one trial of the loop of [test]. *)
Definition span_of (draws : list float) : result float :=
  rbind (rotate_and_sort draws) calculate_distance.

Definition outcome (draws : list float) : result bool :=
  rbind (span_of draws) (fun distance => Ok (test_distance distance)).

(** Trial [i] of a run that starts at cursor [pos] reads the [count] values
    from [pos + i * count] on; it is a hit when its span is [<= 0.5]. *)
Definition trial_hit (g : rng) (pos count : nat) (i : nat) : bool :=
  match span_of (window g (pos + i * count) count) with
  | Ok distance => fle distance half
  | Raise _ => false
  end.

(** The number of hits among the first [iters] trials. *)
Definition hit_count (g : rng) (pos count iters : nat) : Z :=
  Z.of_nat (length (filter (trial_hit g pos count) (seq 0 iters))).

(** The value of a float compared with one half, on the extended rationals. *)
Definition at_most_half (d : float) : Prop :=
  match d with
  | S754_nan => False
  | S754_infinity s => s = true
  | S754_zero _ => True
  | S754_finite _ _ _ => (F2Q d <= 1 # 2)%Q
  end.

(** [expected_result n] returns a finite float whose value is the rational
    [n / 2^(n-1)]. *)
Definition expected_exact (n : Z) : Prop :=
  exists x, expected_result n = Ok x /\ is_finite x = true /\
            (F2Q x == inject_Z n / inject_Z (2 ^ (n - 1)))%Q.

Definition expected_exactb (n : Z) : bool :=
  match expected_result n with
  | Ok x => is_finite x && Qeq_bool (F2Q x) (inject_Z n / inject_Z (2 ^ (n - 1)))
  | Raise _ => false
  end.

(** The closed form on a negative count returns a number below zero. *)
Definition expected_negativeb (n : Z) : bool :=
  match expected_result n with
  | Ok x => flt x zero
  | Raise _ => false
  end.

(** The closed form on [n] and on [n + 1]: two floats between [0.0] and
    [1.0], the second not above the first. *)
Definition expected_stepb (n : Z) : bool :=
  match expected_result n, expected_result (n + 1) with
  | Ok x, Ok y => fle zero y && fle y x && fle x one
  | _, _ => false
  end.

(** The draws [ks], multiples of [2^-53] read as points of a circle of
    circumference [2^53], lie on the arc of length [len] that starts at
    [s] and runs in the direction of growing values. *)
Definition on_arc (s len : Z) (ks : list Z) : Prop :=
  Forall (fun a => (a - s) mod 2 ^ 53 <= len) ks.

(** The length of the arc that starts at the draw [a] and holds all the draws
    [ks], and the shortest of these arcs over the draws of the list: the
    smallest arc of the circle that holds them all. *)
Definition arc_from (a : Z) (ks : list Z) : Z :=
  fold_right (fun b m => Z.max ((b - a) mod 2 ^ 53) m) 0 ks.

Definition covering_arc (ks : list Z) : Z :=
  fold_right (fun a m => Z.min (arc_from a ks) m) (2 ^ 53) ks.

(** The values the generator wraps and sorts: [(v + (0.5 - v0)) % 1] for
    every value [v] drawn, [v0] being the first. *)
Definition wrapped_draws (draws : list float) : result (list float) :=
  rbind (py_index draws 0) (fun first =>
  mapM (fun v => float_rem (fadd v (fsub half first)) one) draws).

(** The rotation of the inputs by a constant offset, [(v + c) % 1] on every
    value, with the operators of the floats. *)
Definition rotate_inputs (c : float) (draws : list float) : result (list float) :=
  mapM (fun v => float_rem (fadd v c) one) draws.

(** Two streams to run the notebook on: every draw at [0.5], and the three
    draws [0], [2^-53], [0.5] in turn. *)
Definition anchored : rng := fun _ => half.

Definition spread : rng :=
  fun i => nth (i mod 3)%nat [grid 0; grid 1; grid (2 ^ 52)] zero.

(** The run the notebook records in its output cells: the four values drawn,
    [[0.2493388064674913, 0.6385848666924715, 0.10423233467861481,
    0.7819027016078891]], as multiples of [2^-53]. *)
Definition recorded_ducks : list float :=
  map grid [2245844311791996; 5751861135361305; 938841407237133; 7042753431202547].

(** ** Integer images of the float operations *)

(** A shift record with no bit shifted out yet. *)
Definition rec0 (m : Z) : shr_record := Build_shr_record m false false.

(** Half of [k], rounded to nearest, ties to even. *)
Definition rne2 (k : Z) : Z :=
  let q := k / 2 in
  if Z.even k then q else if Z.even q then q else q + 1.

(** The shift record of [M] after [n >= 1] bits have been shifted out: the
    quotient, the last bit shifted out, and whether a lower one was set. *)
Definition shifted (M n : Z) : shr_record :=
  let R := M mod 2 ^ n in
  Build_shr_record (M / 2 ^ n) (2 ^ (n - 1) <=? R)
    (negb ((R =? 0) || (R =? 2 ^ (n - 1)))).

(** [M / 2^n], rounded to nearest, ties to even. *)
Definition rne (M n : Z) : Z :=
  let q := M / 2 ^ n in
  let R := M mod 2 ^ n in
  if R <? 2 ^ (n - 1) then q
  else if R =? 2 ^ (n - 1) then (if Z.even q then q else q + 1)
  else q + 1.

(** The normalised double of value [k * 2^e0], for [0 < |k| < 2^53]. *)
Definition canon (e0 k : Z) : float :=
  match k with
  | Z0 => S754_zero false
  | _ => S754_finite (k <? 0) (Z.to_pos (Z.abs k * 2 ^ (53 - Zdigits2 k)))
           (e0 - (53 - Zdigits2 k))
  end.

(** On multiples of [2^-53], written as integers: what [% 1] makes of the
    double nearest to [s / 2^53], and the rotation of the draw [a] in a
    sample whose first draw is [a0]. *)
Definition wrap (s : Z) : Z :=
  if s <? 2 ^ 53 then s mod 2 ^ 53 else 2 * rne2 s - 2 ^ 53.

Definition rotate (a0 a : Z) : Z := wrap (a + (2 ^ 52 - a0)).

(** The rotation of one input by the offset [kc], on the integers. *)
Definition shift (kc a : Z) : Z := wrap (a + kc).


(** * Facts about the binary64 operations

    The program only meets multiples of [2^-53] of magnitude below 2; on
    them every operation is exact but the sums in [(1, 2)], which are
    rounded to a multiple of [2^-52].  The lemmas of this part compute
    [round], [fadd], [fsub], [fmod] and the comparisons on such values. *)

Ltac pow2_facts :=
  assert (P52 : 2 ^ 52 = 4503599627370496) by reflexivity;
  assert (P53 : 2 ^ 53 = 9007199254740992) by reflexivity;
  assert (P54 : 2 ^ 54 = 18014398509481984) by reflexivity.

(** ** Digits and shifts *)

Lemma digits2_size p : digits2_pos p = Pos.size p.
Proof. induction p; simpl; congruence. Qed.

(** The number of binary digits brackets the number between two powers of 2. *)
Lemma digits2_bounds p :
  2 ^ (Zpos (digits2_pos p) - 1) <= Zpos p < 2 ^ Zpos (digits2_pos p).
Proof.
  rewrite digits2_size. split.
  - pose proof (Pos.size_le p) as H.
    assert (Hp : (2 ^ Pos.size p <= p~0)%positive) by exact H.
    apply Pos2Z.pos_le_pos in Hp. rewrite Pos2Z.inj_pow in Hp.
    replace (Zpos (Pos.size p)) with (Z.succ (Zpos (Pos.size p) - 1)) in Hp by lia.
    rewrite Z.pow_succ_r in Hp by lia. lia.
  - pose proof (Pos.size_gt p) as H.
    apply Pos2Z.pos_lt_pos in H. now rewrite Pos2Z.inj_pow in H.
Qed.

Lemma pow2_lt_mono a b : 0 <= a -> 2 ^ a < 2 ^ b -> a < b.
Proof.
  intros Ha H. destruct (Z_lt_le_dec a b) as [|Hle]; [assumption|].
  destruct (Z_lt_le_dec b 0) as [Hb|Hb].
  - rewrite (Z.pow_neg_r 2 b) in H by lia. pose proof (Z.pow_pos_nonneg 2 a). lia.
  - pose proof (Z.pow_le_mono_r 2 b a). lia.
Qed.

Lemma digits2_unique p d :
  2 ^ (d - 1) <= Zpos p < 2 ^ d -> Zpos (digits2_pos p) = d.
Proof.
  intros [Hl Hu]. pose proof (digits2_bounds p) as [Hl' Hu'].
  assert (0 < d).
  { destruct (Z_lt_le_dec 0 d); [assumption|].
    assert (2 ^ d <= 2 ^ 0) by (destruct (Z.eq_dec d 0); [subst; lia|rewrite Z.pow_neg_r; simpl; lia]).
    simpl in *. lia. }
  assert (d - 1 < Zpos (digits2_pos p)) by (apply pow2_lt_mono; lia).
  assert (Zpos (digits2_pos p) - 1 < d) by (apply pow2_lt_mono; lia).
  lia.
Qed.

Lemma Zdigits2_mul_pow2 m j :
  0 < m -> 0 <= j -> Zdigits2 (m * 2 ^ j) = Zdigits2 m + j.
Proof.
  intros Hm Hj. destruct m as [|p|p]; try lia.
  assert (Hpos : 0 < Zpos p * 2 ^ j) by (pose proof (Z.pow_pos_nonneg 2 j); nia).
  destruct (Zpos p * 2 ^ j) as [|q|q] eqn:E; try lia.
  cbn [Zdigits2]. apply digits2_unique. rewrite <- E.
  pose proof (digits2_bounds p) as [Hl Hu].
  replace (Zpos (digits2_pos p) + j - 1) with ((Zpos (digits2_pos p) - 1) + j) by lia.
  rewrite !Z.pow_add_r by lia.
  pose proof (Z.pow_pos_nonneg 2 j). nia.
Qed.

(** The iteration of [SpecFloat] is the iteration of [Pos]. *)
Lemma iter_pos_eq {A} (f : A -> A) p x : iter_pos f p x = Pos.iter f x p.
Proof.
  revert x. induction p; intros x; simpl.
  - rewrite !IHp. now rewrite !Pos.iter_swap.
  - now rewrite !IHp.
  - reflexivity.
Qed.

Lemma shr_1_double m : shr_1 (rec0 (2 * m)) = rec0 m.
Proof. now destruct m. Qed.

Lemma iter_shr_1_pow2 p m : Pos.iter shr_1 (rec0 (m * 2 ^ Zpos p)) p = rec0 m.
Proof.
  revert m. induction p using Pos.peano_ind; intros m.
  - change (shr_1 (rec0 (m * 2 ^ 1)) = rec0 m).
    replace (m * 2 ^ 1) with (2 * m) by lia. apply shr_1_double.
  - rewrite Pos.iter_succ. rewrite Pos2Z.inj_succ, Z.pow_succ_r by lia.
    replace (m * (2 * 2 ^ Zpos p)) with ((2 * m) * 2 ^ Zpos p) by lia.
    rewrite IHp. apply shr_1_double.
Qed.

(** Shifting out [n] zero bits is exact; one bit more leaves its trace in
    the record. *)
Lemma shr_pow2 m e n :
  0 <= n -> shr (rec0 (m * 2 ^ n)) e n = (rec0 m, e + n).
Proof.
  intros Hn. destruct n as [|p|p]; try lia.
  - cbn [shr]. now rewrite Z.pow_0_r, Z.mul_1_r, Z.add_0_r.
  - unfold shr. now rewrite iter_pos_eq, iter_shr_1_pow2.
Qed.

Lemma shr_succ m e n :
  0 <= n -> shr (rec0 (m * 2 ^ n)) e (n + 1) = (shr_1 (rec0 m), e + (n + 1)).
Proof.
  intros Hn. destruct n as [|p|p]; try lia.
  - rewrite Z.pow_0_r, Z.mul_1_r. reflexivity.
  - replace (Zpos p + 1) with (Zpos (Pos.succ p)) by lia.
    unfold shr. now rewrite iter_pos_eq, Pos.iter_succ, iter_shr_1_pow2.
Qed.


(** ** Rounding a shifted mantissa *)

Lemma fexp_normal x : -1021 <= x -> fexp prec emax x = x - 53.
Proof. intros H. unfold fexp, emin, prec, emax. lia. Qed.

(** A 53-bit mantissa in the normal range is kept as it is. *)
Lemma bra_tail s M e :
  Zpos (digits2_pos M) = 53 -> -1074 <= e <= 971 ->
  (let '(mrs'', e'') := shr_fexp prec emax (Zpos M) e loc_Exact in
   match shr_m mrs'' with
   | Z0 => S754_zero s
   | Zpos m => if Z.leb e'' (emax - prec) then S754_finite s m e'' else S754_infinity s
   | Zneg _ => S754_nan
   end) = S754_finite s M e.
Proof.
  intros Hd He. unfold shr_fexp. cbn [Zdigits2]. rewrite Hd.
  rewrite fexp_normal by lia.
  replace (53 + e - 53 - e) with 0 by lia.
  cbn [shr shr_record_of_loc shr_m].
  replace (e <=? emax - prec) with true; [reflexivity|].
  symmetry. apply Z.leb_le. unfold emax, prec. lia.
Qed.

Lemma bra_pow2 s M n e :
  Zpos (digits2_pos M) = 53 -> 0 <= n -> -1074 <= e + n <= 971 ->
  binary_round_aux prec emax s (Zpos M * 2 ^ n) e loc_Exact = S754_finite s M (e + n).
Proof.
  intros Hd Hn He. unfold binary_round_aux.
  unfold shr_fexp at 1.
  rewrite Zdigits2_mul_pow2 by lia. cbn [Zdigits2]. rewrite Hd.
  rewrite fexp_normal by lia.
  replace (53 + n + e - 53 - e) with n by lia.
  change (shr_record_of_loc (Zpos M * 2 ^ n) loc_Exact) with (rec0 (Zpos M * 2 ^ n)).
  rewrite shr_pow2 by lia.
  cbn [rec0 shr_m loc_of_shr_record round_nearest_even].
  now apply bra_tail.
Qed.

Lemma rne2_bounds k : 2 ^ 53 <= k < 2 ^ 54 - 1 -> 2 ^ 52 <= rne2 k < 2 ^ 53.
Proof.
  intros H. unfold rne2.
  assert (2 ^ 52 <= k / 2 < 2 ^ 53 - 1 \/ (k / 2 = 2 ^ 53 - 1 /\ Z.even k = true)).
  { pose proof (Z.div_mod k 2 ltac:(lia)). pose proof (Z.mod_pos_bound k 2 ltac:(lia)).
    change (2 ^ 53) with 9007199254740992 in *. change (2 ^ 54) with 18014398509481984 in *.
    change (2 ^ 52) with 4503599627370496 in *.
    destruct (Z.even k) eqn:E.
    - destruct (Z.eq_dec (k / 2) (9007199254740992 - 1)); [right; auto | left; lia].
    - left. rewrite Zeven_mod in E. apply Z.eqb_neq in E. lia. }
  change (2 ^ 53) with 9007199254740992 in *.
  change (2 ^ 52) with 4503599627370496 in *.
  destruct H0 as [H0|[H0 E]].
  - destruct (Z.even k); [lia|]. destruct (Z.even (k / 2)); lia.
  - rewrite E. lia.
Qed.

Lemma shr_1_rec0 k :
  0 < k ->
  shr_1 (rec0 k) = Build_shr_record (k / 2) (Z.odd k) false.
Proof.
  intros Hk. destruct k as [|p|p]; try lia.
  destruct p as [p|p|]; cbn [shr_1 rec0 orb].
  - rewrite Pos2Z.inj_xI. f_equal. apply Z.div_unique with 1; lia.
  - rewrite Pos2Z.inj_xO. f_equal. apply Z.div_unique with 0; lia.
  - reflexivity.
Qed.

(** A 54-bit mantissa loses its last bit, to nearest, ties to even. *)
Lemma bra_big s k n e :
  2 ^ 53 <= k < 2 ^ 54 - 1 -> 0 <= n -> -1074 <= e + n + 1 <= 971 ->
  binary_round_aux prec emax s (k * 2 ^ n) e loc_Exact
  = S754_finite s (Z.to_pos (rne2 k)) (e + n + 1).
Proof.
  intros Hk Hn He. unfold binary_round_aux.
  unfold shr_fexp at 1.
  assert (Hk0 : 0 < k) by (change (2 ^ 53) with 9007199254740992 in Hk; lia).
  rewrite Zdigits2_mul_pow2 by lia.
  assert (Hd : Zdigits2 k = 54).
  { destruct k as [|p|p]; try lia. cbn [Zdigits2]. apply digits2_unique.
    change (2 ^ (54 - 1)) with (2 ^ 53). lia. }
  rewrite Hd. rewrite fexp_normal by lia.
  replace (54 + n + e - 53 - e) with (n + 1) by lia.
  change (shr_record_of_loc (k * 2 ^ n) loc_Exact) with (rec0 (k * 2 ^ n)).
  rewrite shr_succ by lia. rewrite shr_1_rec0 by lia.
  pose proof (rne2_bounds k Hk) as Hr.
  assert (Hrne : round_nearest_even (shr_m {| shr_m := k / 2; shr_r := Z.odd k; shr_s := false |})
            (loc_of_shr_record {| shr_m := k / 2; shr_r := Z.odd k; shr_s := false |}) = rne2 k).
  { unfold rne2. cbn [shr_m]. rewrite <- Z.negb_odd.
    destruct (Z.odd k); cbn [loc_of_shr_record round_nearest_even negb]; reflexivity. }
  rewrite Hrne.
  destruct (rne2 k) as [|r|r] eqn:Er; try (change (2 ^ 52) with 4503599627370496 in Hr; lia).
  replace (e + (n + 1)) with (e + n + 1) by lia.
  cbn [Z.to_pos]. apply bra_tail; [|lia].
  apply digits2_unique. change (2 ^ (53 - 1)) with (2 ^ 52). lia.
Qed.

Lemma iter_xO q d : Zpos (Pos.iter xO q d) = Zpos q * 2 ^ Zpos d.
Proof.
  induction d using Pos.peano_ind.
  - cbn [Pos.iter]. lia.
  - rewrite Pos.iter_succ, Pos2Z.inj_xO, IHd, Pos2Z.inj_succ, Z.pow_succ_r; lia.
Qed.

Lemma digits2_le_53 m : Zpos m < 2 ^ 53 -> 1 <= Zpos (digits2_pos m) <= 53.
Proof.
  intros H. pose proof (digits2_bounds m) as [Hl _].
  assert (Zpos (digits2_pos m) - 1 < 53).
  { apply pow2_lt_mono; [lia|]. eapply Z.le_lt_trans; eassumption. }
  lia.
Qed.

Lemma normalized_mantissa m :
  Zpos m < 2 ^ 53 ->
  let M := Z.to_pos (Zpos m * 2 ^ (53 - Zpos (digits2_pos m))) in
  Zpos M = Zpos m * 2 ^ (53 - Zpos (digits2_pos m)) /\ Zpos (digits2_pos M) = 53.
Proof.
  intros H M. pose proof (digits2_le_53 m H) as Hd.
  assert (HM : Zpos M = Zpos m * 2 ^ (53 - Zpos (digits2_pos m))).
  { unfold M. rewrite Z2Pos.id; [reflexivity|].
    pose proof (Z.pow_pos_nonneg 2 (53 - Zpos (digits2_pos m))). nia. }
  split; [assumption|].
  change (Zdigits2 (Zpos M) = 53). rewrite HM, Zdigits2_mul_pow2 by lia.
  cbn [Zdigits2]. lia.
Qed.

Lemma binary_round_small s m q j e0 :
  Zpos m < 2 ^ 53 -> 0 <= j -> -1022 <= e0 <= 971 ->
  Zpos q = Zpos m * 2 ^ j ->
  binary_round prec emax s q (e0 - j)
  = S754_finite s (Z.to_pos (Zpos m * 2 ^ (53 - Zpos (digits2_pos m))))
      (e0 - (53 - Zpos (digits2_pos m))).
Proof.
  intros Hm Hj He Hq.
  pose proof (digits2_le_53 m Hm) as Hd.
  destruct (normalized_mantissa m Hm) as [HM HdM].
  set (M := Z.to_pos (Zpos m * 2 ^ (53 - Zpos (digits2_pos m)))) in *.
  set (d := Zpos (digits2_pos m)) in *.
  assert (Hdq : Zpos (digits2_pos q) = d + j).
  { change (Zdigits2 (Zpos q) = d + j). rewrite Hq, Zdigits2_mul_pow2 by lia. reflexivity. }
  unfold binary_round. rewrite Hdq, fexp_normal by lia.
  unfold shl_align.
  destruct (d + j + (e0 - j) - 53 - (e0 - j)) as [|n|n] eqn:En.
  - replace (Zpos q) with (Zpos M * 2 ^ 0).
    + rewrite bra_pow2 by lia. f_equal. lia.
    + rewrite Hq, HM, Z.pow_0_r, Z.mul_1_r. f_equal. f_equal. lia.
  - replace (Zpos q) with (Zpos M * 2 ^ Zpos n).
    + rewrite bra_pow2 by lia. f_equal. lia.
    + rewrite Hq, HM, <- Z.mul_assoc, <- Z.pow_add_r by lia. f_equal. f_equal. lia.
  - rewrite iter_xO.
    replace (Zpos q * 2 ^ Zpos n) with (Zpos M * 2 ^ 0).
    + rewrite bra_pow2 by lia. f_equal. lia.
    + rewrite Hq, HM, Z.pow_0_r, Z.mul_1_r, <- Z.mul_assoc, <- Z.pow_add_r by lia.
      f_equal. f_equal. lia.
Qed.

(** [round] on a value that fits in 53 bits: the result is the normalised
    double of that value, whatever the scaling of the mantissa given. *)
Lemma round_small e0 k j :
  0 < Z.abs k < 2 ^ 53 -> 0 <= j -> -1022 <= e0 <= 971 ->
  round (k * 2 ^ j) (e0 - j) = canon e0 k.
Proof.
  intros Hk Hj He. unfold round, binary_normalize.
  pose proof (Z.pow_pos_nonneg 2 j ltac:(lia) Hj) as Hp.
  destruct k as [|p|p]; [cbn in Hk; lia| |].
  - destruct (Zpos p * 2 ^ j) as [|q|q] eqn:E; try nia.
    unfold canon. cbn [Z.abs Zdigits2]. apply binary_round_small; auto. lia.
  - destruct (Zneg p * 2 ^ j) as [|q|q] eqn:E; try nia.
    unfold canon. cbn [Z.abs Zdigits2]. apply binary_round_small; auto; lia.
Qed.

(** [round] on a 54-bit value: the last bit is rounded away. *)
Lemma round_big e0 k j :
  2 ^ 53 <= k < 2 ^ 54 - 1 -> 0 <= j -> -1074 <= e0 + 1 <= 971 ->
  round (k * 2 ^ j) (e0 - j) = S754_finite false (Z.to_pos (rne2 k)) (e0 + 1).
Proof.
  intros Hk Hj He. unfold round, binary_normalize.
  pose proof (Z.pow_pos_nonneg 2 j ltac:(lia) Hj) as Hp.
  assert (0 < k) by (change (2 ^ 53) with 9007199254740992 in Hk; lia).
  destruct (k * 2 ^ j) as [|q|q] eqn:E; try nia.
  unfold binary_round.
  assert (Hdq : Zpos (digits2_pos q) = 54 + j).
  { change (Zdigits2 (Zpos q) = 54 + j). rewrite <- E, Zdigits2_mul_pow2 by lia.
    f_equal. destruct k as [|p|p]; try lia. cbn [Zdigits2]. apply digits2_unique.
    change (2 ^ (54 - 1)) with (2 ^ 53). lia. }
  rewrite Hdq, fexp_normal by lia. unfold shl_align.
  destruct (54 + j + (e0 - j) - 53 - (e0 - j)) as [|n|n] eqn:En; try lia.
  rewrite <- E, bra_big by lia. f_equal. lia.
Qed.


(** ** Rounding away several bits *)

Lemma shr_1_spec m r s :
  0 <= m ->
  shr_1 (Build_shr_record m r s) = Build_shr_record (m / 2) (Z.odd m) (r || s).
Proof.
  intros H. destruct m as [|[p|p|]|p]; try lia; cbn [shr_1].
  - reflexivity.
  - rewrite Pos2Z.inj_xI. f_equal. apply Z.div_unique with 1; lia.
  - rewrite Pos2Z.inj_xO. f_equal. apply Z.div_unique with 0; lia.
  - reflexivity.
Qed.

Lemma odd_as_mod m : Z.odd m = (m mod 2 =? 1).
Proof.
  rewrite Zodd_mod. reflexivity.
Qed.

Lemma shifted_succ M n :
  0 <= M -> 1 <= n -> shr_1 (shifted M n) = shifted M (n + 1).
Proof.
  intros HM Hn. unfold shifted.
  pose proof (Z.pow_pos_nonneg 2 n ltac:(lia) ltac:(lia)) as Hp.
  pose proof (Z.pow_pos_nonneg 2 (n - 1) ltac:(lia) ltac:(lia)) as Hp1.
  assert (E2 : 2 ^ n = 2 * 2 ^ (n - 1)).
  { replace n with (Z.succ (n - 1)) at 1 by lia. rewrite Z.pow_succ_r by lia. reflexivity. }
  assert (E3 : 2 ^ (n + 1) = 2 * 2 ^ n)
    by (rewrite Z.pow_add_r by lia; change (2 ^ 1) with 2; lia).
  replace (n + 1 - 1) with n by lia.
  set (q := M / 2 ^ n). set (R := M mod 2 ^ n).
  assert (HR : 0 <= R < 2 ^ n) by (apply Z.mod_pos_bound; lia).
  assert (HMq : M = 2 ^ n * q + R) by (apply Z.div_mod; lia).
  assert (Hq : 0 <= q) by (apply Z.div_pos; lia).
  set (b := q mod 2).
  assert (Hb : 0 <= b < 2) by (apply Z.mod_pos_bound; lia).
  assert (Hqb : q = 2 * (q / 2) + b) by (apply Z.div_mod; lia).
  assert (Hq' : M / 2 ^ (n + 1) = q / 2).
  { symmetry. apply Z.div_unique with (b * 2 ^ n + R); [nia|]. rewrite E3. nia. }
  assert (HR' : M mod 2 ^ (n + 1) = b * 2 ^ n + R).
  { symmetry. apply Z.mod_unique with (q / 2); [nia|]. rewrite E3. nia. }
  rewrite shr_1_spec by assumption. rewrite Hq', HR', odd_as_mod. fold b.
  clear HMq Hqb Hq' HR'.
  assert (Hb01 : b = 0 \/ b = 1) by lia.
  destruct Hb01 as [-> | ->]; rewrite ?Z.mul_0_l, ?Z.mul_1_l, ?Z.add_0_l; f_equal.
  - destruct (Z.leb_spec (2 ^ n) R); cbn; try reflexivity; lia.
  - destruct (Z.leb_spec (2 ^ (n - 1)) R), (Z.eqb_spec R 0), (Z.eqb_spec R (2 ^ (n - 1))),
      (Z.eqb_spec R (2 ^ n)); cbn; try reflexivity; lia.
  - destruct (Z.leb_spec (2 ^ n) (2 ^ n + R)); cbn; try reflexivity; lia.
  - destruct (Z.leb_spec (2 ^ (n - 1)) R), (Z.eqb_spec R 0), (Z.eqb_spec R (2 ^ (n - 1))),
      (Z.eqb_spec (2 ^ n + R) 0), (Z.eqb_spec (2 ^ n + R) (2 ^ n)); cbn; try reflexivity; lia.
Qed.

Lemma shifted_1 M : 0 <= M -> shr_1 (rec0 M) = shifted M 1.
Proof.
  intros HM. unfold rec0, shifted. rewrite shr_1_spec by assumption.
  change (2 ^ 1) with 2. change (2 ^ (1 - 1)) with 1.
  pose proof (Z.mod_pos_bound M 2 ltac:(lia)) as Hb.
  rewrite odd_as_mod. f_equal.
  - destruct (Z.eqb_spec (M mod 2) 1), (Z.leb_spec 1 (M mod 2)); try reflexivity; lia.
  - destruct (Z.eqb_spec (M mod 2) 0), (Z.eqb_spec (M mod 2) 1); cbn; try reflexivity; lia.
Qed.

Lemma iter_shr_1_shifted p M :
  0 <= M -> Pos.iter shr_1 (rec0 M) p = shifted M (Zpos p).
Proof.
  intros HM. induction p using Pos.peano_ind.
  - cbn [Pos.iter]. now apply shifted_1.
  - rewrite Pos.iter_succ, IHp, shifted_succ by lia. f_equal. lia.
Qed.

Lemma shr_shifted M e n :
  0 <= M -> 1 <= n -> shr (rec0 M) e n = (shifted M n, e + n).
Proof.
  intros HM Hn. destruct n as [|p|p]; try lia.
  unfold shr. now rewrite iter_pos_eq, iter_shr_1_shifted.
Qed.

Lemma rne_shifted M n :
  1 <= n ->
  round_nearest_even (shr_m (shifted M n)) (loc_of_shr_record (shifted M n)) = rne M n.
Proof.
  intros Hn. unfold shifted, rne. cbn [shr_m loc_of_shr_record].
  pose proof (Z.pow_pos_nonneg 2 n ltac:(lia) ltac:(lia)) as Hp.
  pose proof (Z.mod_pos_bound M (2 ^ n) Hp) as HR.
  set (R := M mod 2 ^ n) in *. set (q := M / 2 ^ n).
  pose proof (Z.pow_pos_nonneg 2 (n - 1) ltac:(lia) ltac:(lia)) as Hp1.
  destruct (Z.leb_spec (2 ^ (n - 1)) R), (Z.eqb_spec R 0), (Z.eqb_spec R (2 ^ (n - 1))),
    (Z.ltb_spec R (2 ^ (n - 1))); cbn [negb orb round_nearest_even]; try reflexivity; lia.
Qed.

Lemma rne_error M n :
  0 <= M -> 1 <= n -> Z.abs (rne M n * 2 ^ n - M) <= 2 ^ (n - 1).
Proof.
  intros HM Hn. unfold rne.
  pose proof (Z.pow_pos_nonneg 2 n ltac:(lia) ltac:(lia)) as Hp.
  pose proof (Z.pow_pos_nonneg 2 (n - 1) ltac:(lia) ltac:(lia)) as Hp1.
  assert (E2 : 2 ^ n = 2 * 2 ^ (n - 1)).
  { replace n with (Z.succ (n - 1)) at 1 by lia. rewrite Z.pow_succ_r by lia. reflexivity. }
  pose proof (Z.mod_pos_bound M (2 ^ n) Hp) as HR.
  pose proof (Z.div_mod M (2 ^ n) ltac:(lia)) as HMq.
  set (R := M mod 2 ^ n) in *. set (q := M / 2 ^ n) in *.
  destruct (Z.ltb_spec R (2 ^ (n - 1))); [nia|].
  destruct (Z.eqb_spec R (2 ^ (n - 1))); [destruct (Z.even q)|]; nia.
Qed.

Lemma rne_range M n :
  1 <= n -> 2 ^ (52 + n) <= M < 2 ^ (53 + n) -> 2 ^ 52 <= rne M n <= 2 ^ 53.
Proof.
  intros Hn HM. unfold rne.
  pose proof (Z.pow_pos_nonneg 2 n ltac:(lia) ltac:(lia)) as Hp.
  pose proof (Z.mod_pos_bound M (2 ^ n) Hp) as HR.
  pose proof (Z.div_mod M (2 ^ n) ltac:(lia)) as HMq.
  rewrite !Z.pow_add_r in HM by lia.
  set (R := M mod 2 ^ n) in *. set (q := M / 2 ^ n) in *.
  assert (2 ^ 52 <= q < 2 ^ 53) by nia.
  destruct (Z.ltb_spec R (2 ^ (n - 1))); [lia|].
  destruct (Z.eqb_spec R (2 ^ (n - 1))); [destruct (Z.even q)|]; lia.
Qed.

Lemma Zdigits2_eq M d :
  2 ^ (d - 1) <= M < 2 ^ d -> 1 <= d -> Zdigits2 M = d.
Proof.
  intros H Hd. assert (0 < 2 ^ (d - 1)) by (apply Z.pow_pos_nonneg; lia).
  destruct M as [|p|p]; try lia. cbn [Zdigits2]. now apply digits2_unique.
Qed.

(** A mantissa of [53 + n] bits is rounded to nearest, ties to even, on its
    upper 53 bits. *)
Lemma bra_round s M n e :
  1 <= n -> 2 ^ (52 + n) <= M < 2 ^ (53 + n) -> -1074 <= e + n <= 970 ->
  binary_round_aux prec emax s M e loc_Exact
  = if rne M n <? 2 ^ 53 then S754_finite s (Z.to_pos (rne M n)) (e + n)
    else S754_finite s 4503599627370496 (e + n + 1).
Proof.
  intros Hn HM He. unfold binary_round_aux. unfold shr_fexp at 1.
  assert (H0 : 0 < 2 ^ (52 + n)) by (apply Z.pow_pos_nonneg; lia).
  rewrite (Zdigits2_eq M (53 + n)) by (replace (53 + n - 1) with (52 + n) by lia; lia).
  rewrite fexp_normal by lia.
  replace (53 + n + e - 53 - e) with n by lia.
  change (shr_record_of_loc M loc_Exact) with (rec0 M).
  rewrite shr_shifted, rne_shifted by lia.
  pose proof (rne_range M n Hn HM) as Hr.
  destruct (Z.ltb_spec (rne M n) (2 ^ 53)) as [Hlt|Hge].
  - destruct (rne M n) as [|r|r] eqn:Er;
      try (change (2 ^ 52) with 4503599627370496 in Hr; lia).
    cbn [Z.to_pos]. apply bra_tail; [|lia].
    apply digits2_unique. change (2 ^ (53 - 1)) with (2 ^ 52). lia.
  - replace (rne M n) with (2 ^ 53) by lia.
    unfold shr_fexp. change (Zdigits2 (2 ^ 53)) with 54.
    rewrite fexp_normal by lia.
    replace (54 + (e + n) - 53 - (e + n)) with 1 by lia.
    cbn [shr shr_record_of_loc iter_pos]. change (2 ^ 53) with 9007199254740992.
    cbn [shr_1 orb shr_m].
    replace (e + n + 1 <=? emax - prec) with true; [reflexivity|].
    symmetry. apply Z.leb_le. unfold emax, prec. lia.
Qed.

Lemma round_wide M n e :
  1 <= n -> 2 ^ (52 + n) <= M < 2 ^ (53 + n) -> -1074 <= e + n <= 970 ->
  round M e
  = if rne M n <? 2 ^ 53 then S754_finite false (Z.to_pos (rne M n)) (e + n)
    else S754_finite false 4503599627370496 (e + n + 1).
Proof.
  intros Hn HM He. unfold round, binary_normalize.
  assert (H0 : 0 < 2 ^ (52 + n)) by (apply Z.pow_pos_nonneg; lia).
  destruct M as [|p|p] eqn:EM; try lia.
  unfold binary_round.
  assert (Hd : Zpos (digits2_pos p) = 53 + n).
  { apply digits2_unique. replace (53 + n - 1) with (52 + n) by lia. lia. }
  rewrite Hd, fexp_normal by lia. unfold shl_align.
  destruct (53 + n + e - 53 - e) as [|x|x] eqn:Ex; try lia.
  now apply bra_round.
Qed.

(** Within half a unit in the last place of one half, [round] gives one half. *)
Lemma round_near_half M j :
  1 <= j <= 1020 -> Z.abs (M - 2 ^ (53 + j)) <= 2 ^ (j - 1) ->
  round M (-54 - j) = half.
Proof.
  intros Hj HM.
  pose proof (Z.pow_pos_nonneg 2 j ltac:(lia) ltac:(lia)) as Hp.
  pose proof (Z.pow_pos_nonneg 2 (j - 1) ltac:(lia) ltac:(lia)) as Hp1.
  assert (E2 : 2 ^ j = 2 * 2 ^ (j - 1)).
  { replace j with (Z.succ (j - 1)) at 1 by lia. rewrite Z.pow_succ_r by lia. reflexivity. }
  assert (E53 : 2 ^ (53 + j) = 2 ^ 53 * 2 ^ j) by (rewrite Z.pow_add_r by lia; reflexivity).
  pow2_facts.
  destruct (Z_le_gt_dec (2 ^ (53 + j)) M) as [Hhi|Hlo].
  - rewrite (round_wide M (j + 1)); try lia.
    + assert (Hr : rne M (j + 1) = 2 ^ 52).
      { unfold rne. replace (j + 1 - 1) with j by lia.
        assert (E1 : 2 ^ (j + 1) = 2 * 2 ^ j)
          by (rewrite Z.pow_add_r by lia; change (2 ^ 1) with 2; lia).
        assert (Hq : M / 2 ^ (j + 1) = 2 ^ 52).
        { symmetry. apply Z.div_unique with (M - 2 ^ (53 + j)); [lia|]. rewrite E1, E53, P53, P52. lia. }
        assert (HR : M mod 2 ^ (j + 1) = M - 2 ^ (53 + j)).
        { symmetry. apply Z.mod_unique with (2 ^ 52); [lia|]. rewrite E1, E53, P53, P52. lia. }
        rewrite Hq, HR.
        destruct (Z.ltb_spec (M - 2 ^ (53 + j)) (2 ^ j)); [reflexivity|lia]. }
      rewrite Hr. replace (2 ^ 52 <? 2 ^ 53) with true by reflexivity.
      replace (-54 - j + (j + 1)) with (-53) by lia. reflexivity.
    + replace (52 + (j + 1)) with (53 + j) by lia.
      replace (53 + (j + 1)) with (1 + (53 + j)) by lia.
      rewrite (Z.pow_add_r 2 1) by lia. change (2 ^ 1) with 2. lia.
  - rewrite (round_wide M j); try lia.
    + assert (Hr : rne M j = 2 ^ 53).
      { unfold rne.
        assert (Hq : M / 2 ^ j = 2 ^ 53 - 1).
        { symmetry. apply Z.div_unique with (M - (2 ^ 53 - 1) * 2 ^ j); [nia|]. lia. }
        assert (HR : M mod 2 ^ j = M - (2 ^ 53 - 1) * 2 ^ j).
        { symmetry. apply Z.mod_unique with (2 ^ 53 - 1); [nia|]. lia. }
        rewrite Hq, HR.
        destruct (Z.ltb_spec (M - (2 ^ 53 - 1) * 2 ^ j) (2 ^ (j - 1))); [nia|].
        replace (Z.even (2 ^ 53 - 1)) with false by reflexivity.
        destruct (Z.eqb_spec (M - (2 ^ 53 - 1) * 2 ^ j) (2 ^ (j - 1))); lia. }
      rewrite Hr. replace (2 ^ 53 <? 2 ^ 53) with false by reflexivity.
      replace (-54 - j + j + 1) with (-53) by lia. reflexivity.
    + replace (52 + j) with ((53 + j) - 1) by lia.
      assert (2 ^ (53 + j) = 2 * 2 ^ (53 + j - 1)).
      { replace (53 + j) with (Z.succ (53 + j - 1)) at 1 by lia.
        rewrite Z.pow_succ_r by lia. reflexivity. }
      nia.
Qed.

(** ** Addition and subtraction on the grid *)

Lemma shl_align_val M e ez :
  ez <= e -> Zpos (fst (shl_align M e ez)) = Zpos M * 2 ^ (e - ez).
Proof.
  intros H. unfold shl_align.
  destruct (ez - e) as [|d|d] eqn:E; try lia; cbn [fst].
  - replace (e - ez) with 0 by lia. lia.
  - rewrite iter_xO. f_equal. f_equal. lia.
Qed.

Lemma Zdigits2_abs k : Zdigits2 (Z.abs k) = Zdigits2 k.
Proof. now destruct k. Qed.

Lemma Zdigits2_le_53 k : 0 < Z.abs k < 2 ^ 53 -> 1 <= Zdigits2 k <= 53.
Proof.
  intros H. destruct k as [|p|p]; cbn [Z.abs] in H; try lia;
    cbn [Zdigits2]; apply digits2_le_53; lia.
Qed.

Lemma canon_finite e0 k :
  0 < Z.abs k < 2 ^ 53 ->
  exists M, canon e0 k = S754_finite (k <? 0) M (e0 - (53 - Zdigits2 k))
            /\ Zpos M = Z.abs k * 2 ^ (53 - Zdigits2 k)
            /\ Zpos (digits2_pos M) = 53.
Proof.
  intros H. exists (Z.to_pos (Z.abs k * 2 ^ (53 - Zdigits2 k))).
  destruct k as [|p|p]; cbn [Z.abs] in H; try lia; cbn [canon Z.abs Zdigits2];
    (split; [reflexivity|]); apply normalized_mantissa; lia.
Qed.

Lemma cond_Zopp_abs k : cond_Zopp (k <? 0) (Z.abs k) = k.
Proof. unfold cond_Zopp. destruct (Z.ltb_spec k 0); lia. Qed.

Lemma cond_Zopp_mul b x y : cond_Zopp b (x * y) = cond_Zopp b x * y.
Proof. destruct b; cbn [cond_Zopp]; lia. Qed.

Lemma canon_aligned e0 k M e ez :
  0 < Z.abs k < 2 ^ 53 ->
  e = e0 - (53 - Zdigits2 k) ->
  Zpos M = Z.abs k * 2 ^ (53 - Zdigits2 k) ->
  ez <= e ->
  cond_Zopp (k <? 0) (Zpos (fst (shl_align M e ez))) = k * 2 ^ (e0 - ez).
Proof.
  intros Hk He HM Hez. pose proof (Zdigits2_le_53 k Hk) as Hd.
  rewrite shl_align_val, HM by assumption.
  rewrite <- Z.mul_assoc, <- Z.pow_add_r by lia.
  rewrite cond_Zopp_mul, cond_Zopp_abs. f_equal. f_equal. lia.
Qed.

(** Addition and subtraction align the two mantissas on the smaller
    exponent, add them as integers and round the sum. *)
Lemma fadd_canon ea a eb b :
  0 < Z.abs a < 2 ^ 53 -> 0 < Z.abs b < 2 ^ 53 ->
  let ez := Z.min (ea - (53 - Zdigits2 a)) (eb - (53 - Zdigits2 b)) in
  fadd (canon ea a) (canon eb b) = round (a * 2 ^ (ea - ez) + b * 2 ^ (eb - ez)) ez.
Proof.
  intros Ha Hb ez.
  destruct (canon_finite ea a Ha) as (Ma & -> & HMa & _).
  destruct (canon_finite eb b Hb) as (Mb & -> & HMb & _).
  unfold fadd, SFadd, round. fold ez.
  rewrite (canon_aligned ea a Ma _ ez Ha eq_refl HMa) by (unfold ez; lia).
  rewrite (canon_aligned eb b Mb _ ez Hb eq_refl HMb) by (unfold ez; lia).
  reflexivity.
Qed.

Lemma fsub_canon ea a eb b :
  0 < Z.abs a < 2 ^ 53 -> 0 < Z.abs b < 2 ^ 53 ->
  let ez := Z.min (ea - (53 - Zdigits2 a)) (eb - (53 - Zdigits2 b)) in
  fsub (canon ea a) (canon eb b) = round (a * 2 ^ (ea - ez) - b * 2 ^ (eb - ez)) ez.
Proof.
  intros Ha Hb ez.
  destruct (canon_finite ea a Ha) as (Ma & -> & HMa & _).
  destruct (canon_finite eb b Hb) as (Mb & -> & HMb & _).
  unfold fsub, SFsub, round. fold ez.
  rewrite (canon_aligned ea a Ma _ ez Ha eq_refl HMa) by (unfold ez; lia).
  rewrite (canon_aligned eb b Mb _ ez Hb eq_refl HMb) by (unfold ez; lia).
  reflexivity.
Qed.

Lemma grid_0 : grid 0 = zero.
Proof. reflexivity. Qed.

Lemma grid_small k : 0 < Z.abs k < 2 ^ 53 -> grid k = canon (-53) k.
Proof.
  intros H. unfold grid.
  pose proof (round_small (-53) k 0 H ltac:(lia) ltac:(lia)) as E.
  rewrite Z.pow_0_r, Z.mul_1_r, Z.sub_0_r in E. exact E.
Qed.

Lemma grid_big k :
  2 ^ 53 <= k < 2 ^ 54 - 1 -> grid k = S754_finite false (Z.to_pos (rne2 k)) (-52).
Proof.
  intros H. unfold grid.
  pose proof (round_big (-53) k 0 H ltac:(lia) ltac:(lia)) as E.
  rewrite Z.pow_0_r, Z.mul_1_r, Z.sub_0_r in E. exact E.
Qed.

Lemma round_shift k j :
  - 2 ^ 53 < k < 2 ^ 54 - 1 -> 0 <= j -> round (k * 2 ^ j) (-53 - j) = grid k.
Proof.
  intros Hk Hj.
  destruct (Z.eq_dec k 0) as [->|Hk0]; [reflexivity|].
  destruct (Z_lt_le_dec k (2 ^ 53)) as [Hs|Hb].
  - rewrite grid_small by lia. apply round_small; lia.
  - rewrite grid_big by lia. apply round_big; lia.
Qed.

(** On the grid, the sum and the difference of two floats are the floats
    nearest to the sum and the difference of the integers. *)
Lemma fadd_grid a b :
  Z.abs a < 2 ^ 53 -> Z.abs b < 2 ^ 53 -> - 2 ^ 53 < a + b < 2 ^ 54 - 1 ->
  fadd (grid a) (grid b) = grid (a + b).
Proof.
  intros Ha Hb Hab.
  destruct (Z.eq_dec a 0) as [->|Ha0]; [|destruct (Z.eq_dec b 0) as [->|Hb0]].
  - rewrite grid_0, Z.add_0_l.
    destruct (Z.eq_dec b 0) as [->|Hb0]; [reflexivity|].
    rewrite grid_small by lia.
    destruct (canon_finite (-53) b ltac:(lia)) as (M & -> & _). reflexivity.
  - rewrite grid_0, Z.add_0_r, grid_small by lia.
    destruct (canon_finite (-53) a ltac:(lia)) as (M & -> & _). reflexivity.
  - rewrite (grid_small a), (grid_small b), fadd_canon by lia.
    pose proof (Zdigits2_le_53 a ltac:(lia)). pose proof (Zdigits2_le_53 b ltac:(lia)).
    set (ez := Z.min _ _).
    rewrite <- Z.mul_add_distr_r.
    replace ez with (-53 - (-53 - ez)) at 2 by lia.
    apply round_shift; [lia | unfold ez; lia].
Qed.

Lemma fsub_grid a b :
  Z.abs a < 2 ^ 53 -> Z.abs b < 2 ^ 53 -> - 2 ^ 53 < a - b < 2 ^ 54 - 1 ->
  fsub (grid a) (grid b) = grid (a - b).
Proof.
  intros Ha Hb Hab.
  destruct (Z.eq_dec a 0) as [->|Ha0]; [|destruct (Z.eq_dec b 0) as [->|Hb0]].
  - rewrite grid_0, Z.sub_0_l.
    destruct (Z.eq_dec b 0) as [->|Hb0]; [reflexivity|].
    rewrite !grid_small by lia.
    destruct (canon_finite (-53) b ltac:(lia)) as (M & -> & HM & _).
    destruct (canon_finite (-53) (- b) ltac:(lia)) as (M' & -> & HM' & _).
    cbn [fsub SFsub zero].
    assert (Zdigits2 (- b) = Zdigits2 b) by now destruct b.
    f_equal.
    + destruct (Z.ltb_spec b 0), (Z.ltb_spec (- b) 0); try reflexivity; lia.
    + apply Pos2Z.inj. rewrite HM, HM', Z.abs_opp. congruence.
    + lia.
  - rewrite grid_0, Z.sub_0_r, grid_small by lia.
    destruct (canon_finite (-53) a ltac:(lia)) as (M & -> & _). reflexivity.
  - rewrite (grid_small a), (grid_small b), fsub_canon by lia.
    pose proof (Zdigits2_le_53 a ltac:(lia)). pose proof (Zdigits2_le_53 b ltac:(lia)).
    set (ez := Z.min _ _).
    rewrite <- Z.mul_sub_distr_r.
    replace ez with (-53 - (-53 - ez)) at 2 by lia.
    apply round_shift; [lia | unfold ez; lia].
Qed.


(** ** The remainder modulo one *)

Lemma one_canon : one = canon (-52) (2 ^ 52).
Proof. reflexivity. Qed.

Lemma half_grid : half = grid (2 ^ 52).
Proof. reflexivity. Qed.

Lemma fadd_grid_one m :
  - 2 ^ 53 < m < 0 -> fadd (grid m) one = grid (m + 2 ^ 53).
Proof.
  intros Hm. rewrite grid_small, one_canon, fadd_canon by (change (2 ^ 52) with 4503599627370496; lia).
  pose proof (Zdigits2_le_53 m ltac:(lia)).
  change (Zdigits2 (2 ^ 52)) with 53.
  set (ez := Z.min _ _).
  assert (Hez : ez = -53 - (53 - Zdigits2 m)) by (unfold ez; lia).
  replace (2 ^ 52 * 2 ^ (-52 - ez)) with (2 ^ 53 * 2 ^ (-53 - ez)).
  - rewrite <- Z.mul_add_distr_r.
    replace ez with (-53 - (-53 - ez)) at 2 by lia.
    apply round_shift; lia.
  - replace (-52 - ez) with (1 + (-53 - ez)) by lia.
    rewrite Z.pow_add_r by lia. change (2 ^ 53) with (2 ^ 52 * 2 ^ 1). lia.
Qed.

Lemma binary_round_canonical s M e :
  Zpos (digits2_pos M) = 53 -> -1074 <= e <= 971 ->
  binary_round prec emax s M e = S754_finite s M e.
Proof.
  intros Hd He. unfold binary_round. rewrite Hd, fexp_normal by lia.
  unfold shl_align. replace (53 + e - 53 - e) with 0 by lia.
  replace (Zpos M) with (Zpos M * 2 ^ 0) by lia.
  rewrite bra_pow2 by lia. f_equal. lia.
Qed.

Lemma binary_normalize_canonical s M e :
  Zpos (digits2_pos M) = 53 -> -1074 <= e <= 971 ->
  binary_normalize prec emax (cond_Zopp s (Zpos M)) e s = S754_finite s M e.
Proof.
  intros Hd He. destruct s; cbn [cond_Zopp Z.opp binary_normalize];
    now apply binary_round_canonical.
Qed.

(** Below 1 in magnitude [fmod x 1.0] is [x]; on [[1, 2)] it removes 1. *)
Lemma fmod_grid_one a :
  Z.abs a < 2 ^ 53 -> fmod (grid a) one = grid a.
Proof.
  intros Ha. destruct (Z.eq_dec a 0) as [->|Ha0]; [reflexivity|].
  rewrite grid_small by lia.
  pose proof (Zdigits2_le_53 a ltac:(lia)) as Hd.
  destruct (canon_finite (-53) a ltac:(lia)) as (M & -> & HM & HdM).
  unfold fmod, one.
  set (e := -53 - (53 - Zdigits2 a)).
  replace (Z.min e (-52)) with e by (unfold e; lia).
  rewrite Z.sub_diag, Z.pow_0_r, Z.mul_1_r.
  rewrite Z.rem_small.
  - apply binary_normalize_canonical; [assumption | unfold e; lia].
  - split; [lia|].
    pose proof (digits2_bounds M) as [_ Hu]. rewrite HdM in Hu.
    assert (2 ^ 1 <= 2 ^ (-52 - e)) by (apply Z.pow_le_mono_r; unfold e; lia).
    change (2 ^ 1) with 2 in *. change (2 ^ 53) with 9007199254740992 in *. lia.
Qed.

Lemma round_52 k : 0 <= k < 2 ^ 52 -> round k (-52) = grid (2 * k).
Proof.
  intros Hk. destruct (Z.eq_dec k 0) as [->|Hk0]; [reflexivity|].
  unfold grid.
  pose proof (round_small (-52) k 0 ltac:(lia) ltac:(lia) ltac:(lia)) as E0.
  pose proof (round_small (-52) k 1 ltac:(lia) ltac:(lia) ltac:(lia)) as E1.
  rewrite Z.pow_0_r, Z.mul_1_r, Z.sub_0_r in E0.
  change (2 ^ 1) with 2 in E1. change (-52 - 1) with (-53) in E1.
  rewrite (Z.mul_comm 2 k). congruence.
Qed.

Lemma fmod_big_one q :
  2 ^ 52 <= Zpos q < 2 ^ 53 ->
  fmod (S754_finite false q (-52)) one = grid (2 * (Zpos q - 2 ^ 52)).
Proof.
  intros Hq. unfold fmod, one.
  change (Z.min (-52) (-52)) with (-52).
  rewrite Z.sub_diag, Z.pow_0_r, !Z.mul_1_r.
  assert (Hrem : Z.rem (Zpos q) 4503599627370496 = Zpos q - 2 ^ 52).
  { symmetry. apply Z.rem_unique with 1;
      change (2 ^ 52) with 4503599627370496 in *;
      change (2 ^ 53) with 9007199254740992 in *; lia. }
  rewrite Hrem. cbn [cond_Zopp].
  apply round_52. change (2 ^ 53) with (2 * 2 ^ 52) in Hq. lia.
Qed.

(** [x % 1] on the grid is the remainder of the integer modulo [2^53]: a
    negative [x] is moved up by 1, exactly. *)
Lemma float_rem_grid a :
  Z.abs a < 2 ^ 53 -> float_rem (grid a) one = Ok (grid (a mod 2 ^ 53)).
Proof.
  intros Ha. unfold float_rem. change (feq one zero) with false. cbv iota.
  rewrite fmod_grid_one by assumption.
  destruct (Z.eq_dec a 0) as [->|Ha0]; [reflexivity|].
  destruct (Z_lt_le_dec a 0) as [Hn|Hp].
  - replace (a mod 2 ^ 53) with (a + 2 ^ 53).
    + rewrite <- fadd_grid_one by lia.
      rewrite grid_small by lia.
      destruct (canon_finite (-53) a ltac:(lia)) as (M & -> & _).
      replace (a <? 0) with true by (symmetry; apply Z.ltb_lt; lia). reflexivity.
    + apply Z.mod_unique with (-1); lia.
  - rewrite Z.mod_small by lia.
    rewrite grid_small by lia.
    destruct (canon_finite (-53) a ltac:(lia)) as (M & -> & _).
    replace (a <? 0) with false by (symmetry; apply Z.ltb_ge; lia). reflexivity.
Qed.

Lemma float_rem_big q :
  2 ^ 52 <= Zpos q < 2 ^ 53 ->
  float_rem (S754_finite false q (-52)) one = Ok (grid (2 * (Zpos q - 2 ^ 52))).
Proof.
  intros Hq. unfold float_rem. change (feq one zero) with false. cbv iota.
  rewrite fmod_big_one by assumption.
  set (r := 2 * (Zpos q - 2 ^ 52)).
  assert (Hr : 0 <= r < 2 ^ 53) by (unfold r; change (2 ^ 53) with (2 * 2 ^ 52) in *; lia).
  destruct (Z.eq_dec r 0) as [->|Hr0]; [reflexivity|].
  rewrite grid_small by lia.
  destruct (canon_finite (-53) r ltac:(lia)) as (M & -> & _).
  replace (r <? 0) with false by (symmetry; apply Z.ltb_ge; lia). reflexivity.
Qed.


(** ** Comparisons *)

Lemma compare_cont_Z a b : Pos.compare_cont Eq a b = (Zpos a ?= Zpos b).
Proof. reflexivity. Qed.

Lemma Zdigits2_bounds k :
  k <> 0 -> 2 ^ (Zdigits2 k - 1) <= Z.abs k < 2 ^ Zdigits2 k.
Proof.
  intros H. destruct k as [|p|p]; try congruence; cbn [Zdigits2 Z.abs];
    apply digits2_bounds.
Qed.

Lemma compare_canon_pos a b Ma Mb :
  0 < a < 2 ^ 53 -> 0 < b < 2 ^ 53 ->
  Zpos Ma = a * 2 ^ (53 - Zdigits2 a) ->
  Zpos Mb = b * 2 ^ (53 - Zdigits2 b) ->
  match (-53 - (53 - Zdigits2 a)) ?= (-53 - (53 - Zdigits2 b)) with
  | Lt => Lt
  | Gt => Gt
  | Eq => Pos.compare_cont Eq Ma Mb
  end = (a ?= b).
Proof.
  intros Ha Hb HMa HMb.
  pose proof (Zdigits2_le_53 a ltac:(lia)) as Hda.
  pose proof (Zdigits2_le_53 b ltac:(lia)) as Hdb.
  pose proof (Zdigits2_bounds a ltac:(lia)) as Ba.
  pose proof (Zdigits2_bounds b ltac:(lia)) as Bb.
  rewrite Z.abs_eq in * by lia.
  destruct (Z.compare_spec (-53 - (53 - Zdigits2 a)) (-53 - (53 - Zdigits2 b))) as [E|E|E].
  - assert (Ed : Zdigits2 a = Zdigits2 b) by lia.
    change (Pos.compare_cont Eq Ma Mb) with (Zpos Ma ?= Zpos Mb).
    rewrite HMa, HMb, Ed.
    symmetry. apply Zmult_compare_compat_r.
    pose proof (Z.pow_pos_nonneg 2 (53 - Zdigits2 b)). lia.
  - symmetry. apply Z.compare_lt_iff.
    assert (2 ^ Zdigits2 a <= 2 ^ (Zdigits2 b - 1)) by (apply Z.pow_le_mono_r; lia).
    lia.
  - symmetry. apply Z.compare_gt_iff.
    assert (2 ^ Zdigits2 b <= 2 ^ (Zdigits2 a - 1)) by (apply Z.pow_le_mono_r; lia).
    lia.
Qed.

(** On the grid the floats compare as the integers do. *)
Lemma SFcompare_grid a b :
  Z.abs a < 2 ^ 53 -> Z.abs b < 2 ^ 53 ->
  SFcompare (grid a) (grid b) = Some (a ?= b).
Proof.
  intros Ha Hb.
  destruct (Z.eq_dec a 0) as [->|Ha0]; [|destruct (Z.eq_dec b 0) as [->|Hb0]].
  - destruct (Z.eq_dec b 0) as [->|Hb0]; [reflexivity|].
    rewrite grid_0, grid_small by lia.
    destruct (canon_finite (-53) b ltac:(lia)) as (M & -> & _).
    cbn [SFcompare zero]. f_equal.
    destruct (Z.ltb_spec b 0); symmetry;
      [apply Z.compare_gt_iff | apply Z.compare_lt_iff]; lia.
  - rewrite grid_0, grid_small by lia.
    destruct (canon_finite (-53) a ltac:(lia)) as (M & -> & _).
    cbn [SFcompare zero]. f_equal.
    destruct (Z.ltb_spec a 0); symmetry;
      [apply Z.compare_lt_iff | apply Z.compare_gt_iff]; lia.
  - rewrite (grid_small a), (grid_small b) by lia.
    destruct (canon_finite (-53) a ltac:(lia)) as (Ma & -> & HMa & _).
    destruct (canon_finite (-53) b ltac:(lia)) as (Mb & -> & HMb & _).
    cbn [SFcompare]. f_equal.
    destruct (Z.ltb_spec a 0) as [Na|Pa], (Z.ltb_spec b 0) as [Nb|Pb].
    + pose proof (compare_canon_pos (Z.abs a) (Z.abs b) Ma Mb
                    ltac:(lia) ltac:(lia)) as E.
      rewrite !Zdigits2_abs in E. specialize (E HMa HMb).
      transitivity (CompOpp (Z.abs a ?= Z.abs b)).
      * rewrite <- E. destruct (_ ?= _); reflexivity.
      * rewrite <- Z.compare_antisym, !Z.abs_neq by lia.
        apply Z.compare_opp.
    + symmetry. apply Z.compare_lt_iff. lia.
    + symmetry. apply Z.compare_gt_iff. lia.
    + rewrite Z.abs_eq in HMa, HMb by lia.
      apply compare_canon_pos; auto; lia.
Qed.


(** ** The values of the grid *)

(** [grid k] is the double of value [k / 2^53]. *)
Lemma grid_value k :
  Z.abs k < 2 ^ 53 -> (F2Q (grid k) == inject_Z k / inject_Z (2 ^ 53))%Q.
Proof.
  intros Hk. destruct (Z.eq_dec k 0) as [->|Hk0]; [reflexivity|].
  rewrite grid_small by lia.
  pose proof (Zdigits2_le_53 k ltac:(lia)) as Hd.
  destruct (canon_finite (-53) k ltac:(lia)) as (M & -> & HM & _).
  unfold F2Q.
  assert (E : cond_Zopp (k <? 0) (Zpos M) = k * 2 ^ (53 - Zdigits2 k)).
  { rewrite HM, cond_Zopp_mul, cond_Zopp_abs. reflexivity. }
  rewrite E, inject_Z_mult, (Zpower_Qpower 2 (53 - Zdigits2 k)) by lia.
  rewrite <- Qmult_assoc, <- Qpower_plus by discriminate.
  replace (53 - Zdigits2 k + (-53 - (53 - Zdigits2 k))) with (- (53)) by lia.
  rewrite Qpower_opp, <- (Zpower_Qpower 2 53) by lia. reflexivity.
Qed.

Lemma draw_value x :
  is_draw x ->
  exists k, 0 <= k < 2 ^ 53 /\ (F2Q x == inject_Z k / inject_Z (2 ^ 53))%Q.
Proof.
  intros (k & Hk & ->). exists k. split; [assumption|]. apply grid_value. lia.
Qed.

(** ** The integer true division does not overflow below one *)

Lemma Zdigits2_nonneg a : 0 <= Zdigits2 a.
Proof. destruct a; cbn; lia. Qed.

Lemma Zdigits2_lt a : 0 <= a -> a < 2 ^ Zdigits2 a.
Proof.
  intros H. destruct a as [|p|p]; try lia; [reflexivity|].
  cbn [Zdigits2]. apply digits2_bounds.
Qed.

Lemma Zdigits2_le a d : 0 <= a < 2 ^ d -> 0 <= d -> Zdigits2 a <= d.
Proof.
  intros [H0 H1] Hd. destruct a as [|p|p]; try lia; [cbn; lia|].
  cbn [Zdigits2]. pose proof (digits2_bounds p) as [Hl _].
  assert (Zpos (digits2_pos p) - 1 < d) by (apply pow2_lt_mono; lia).
  lia.
Qed.

Lemma shr_m_shr_1 mrs : 0 <= shr_m mrs -> shr_m (shr_1 mrs) = shr_m mrs / 2.
Proof.
  destruct mrs as [m r s]. cbn [shr_m]. intros H.
  destruct m as [|[p|p|]|p]; try lia; cbn [shr_1 shr_m].
  - reflexivity.
  - rewrite Pos2Z.inj_xI. apply Z.div_unique with 1; lia.
  - rewrite Pos2Z.inj_xO. apply Z.div_unique with 0; lia.
  - reflexivity.
Qed.

Lemma shr_m_iter p mrs :
  0 <= shr_m mrs -> shr_m (Pos.iter shr_1 mrs p) = shr_m mrs / 2 ^ Zpos p.
Proof.
  intros H. induction p using Pos.peano_ind.
  - cbn [Pos.iter]. now rewrite shr_m_shr_1.
  - rewrite Pos.iter_succ, shr_m_shr_1, IHp.
    + rewrite Z.div_div, Pos2Z.inj_succ, Z.pow_succ_r by lia.
      f_equal. lia.
    + rewrite IHp. apply Z.div_pos; lia.
Qed.

Lemma shr_m_record_of_loc m l : shr_m (shr_record_of_loc m l) = m.
Proof. destruct l as [|[]]; reflexivity. Qed.

Lemma shr_fexp_bounds q e l mrs e1 :
  0 <= q -> Zdigits2 q + e <= 1 -> e <= -52 ->
  shr_fexp prec emax q e l = (mrs, e1) ->
  0 <= shr_m mrs /\ Zdigits2 (shr_m mrs) + e1 <= 1 /\ e1 <= -52.
Proof.
  intros Hq Hd He. unfold shr_fexp, shr.
  pose proof (Zdigits2_nonneg q) as Hdq.
  assert (Hf : fexp prec emax (Zdigits2 q + e) <= -52)
    by (unfold fexp, emin, prec, emax; lia).
  destruct (fexp prec emax (Zdigits2 q + e) - e) as [|n|n] eqn:En;
    intros E; inversion E; subst; clear E; rewrite ?shr_m_record_of_loc; try lia.
  rewrite iter_pos_eq, shr_m_iter, shr_m_record_of_loc by (rewrite shr_m_record_of_loc; lia).
  split; [apply Z.div_pos; lia|]. split; [|lia].
  pose proof (Zdigits2_lt q Hq) as Hlt.
  destruct (Z_le_gt_dec (Zpos n) (Zdigits2 q)) as [Hn|Hn].
  - assert (Zdigits2 (q / 2 ^ Zpos n) <= Zdigits2 q - Zpos n); [|lia].
    apply Zdigits2_le; [|lia]. split; [apply Z.div_pos; lia|].
    apply Z.div_lt_upper_bound; [lia|].
    rewrite <- Z.pow_add_r by lia. now replace (Zpos n + (Zdigits2 q - Zpos n)) with (Zdigits2 q) by lia.
  - rewrite Z.div_small; [cbn; lia|]. split; [lia|].
    eapply Z.lt_le_trans; [exact Hlt|]. apply Z.pow_le_mono_r; lia.
Qed.

Lemma round_nearest_even_bounds m l :
  0 <= m -> m <= round_nearest_even m l <= m + 1.
Proof.
  intros H. destruct l as [|[]]; cbn [round_nearest_even]; try lia.
  destruct (Z.even m); lia.
Qed.

(** A quotient of magnitude at most 1 is rounded to a finite float. *)
Lemma bra_finite s q e l :
  0 <= q -> Zdigits2 q + e <= 1 -> e <= -52 ->
  is_finite (binary_round_aux prec emax s q e l) = true.
Proof.
  intros Hq Hd He. unfold binary_round_aux.
  destruct (shr_fexp prec emax q e l) as [mrs' e1] eqn:E1.
  destruct (shr_fexp_bounds _ _ _ _ _ Hq Hd He E1) as (Hm1 & Hd1 & He1).
  pose proof (round_nearest_even_bounds (shr_m mrs') (loc_of_shr_record mrs') Hm1) as Hr.
  set (m2 := round_nearest_even _ _) in *.
  destruct (shr_fexp prec emax m2 e1 loc_Exact) as [mrs'' e2] eqn:E2.
  assert (Hm2 : 0 <= shr_m mrs'' /\ e2 <= -51).
  { pose proof (Zdigits2_nonneg m2) as Hd2n.
    assert (Hd2 : Zdigits2 m2 <= Zdigits2 (shr_m mrs') + 1).
    { apply Zdigits2_le; [|pose proof (Zdigits2_nonneg (shr_m mrs')); lia].
      pose proof (Zdigits2_lt _ Hm1) as Hlt.
      rewrite Z.pow_add_r by (pose proof (Zdigits2_nonneg (shr_m mrs')); lia).
      change (2 ^ 1) with 2. lia. }
    revert E2. unfold shr_fexp, shr.
    assert (Hf : fexp prec emax (Zdigits2 m2 + e1) <= -51)
      by (unfold fexp, emin, prec, emax; lia).
    destruct (fexp prec emax (Zdigits2 m2 + e1) - e1) as [|n|n] eqn:En;
      intros E; inversion E; subst; clear E; cbn [shr_record_of_loc shr_m]; try lia.
    split; [|lia].
    rewrite iter_pos_eq, shr_m_iter by (cbn; lia). cbn [shr_m]. apply Z.div_pos; lia. }
  destruct Hm2 as [Hm2 He2].
  destruct (shr_m mrs'') as [|m|m]; try lia; [reflexivity|].
  replace (e2 <=? emax - prec) with true; [reflexivity|].
  symmetry. apply Z.leb_le. unfold emax, prec. lia.
Qed.

(** [a / b] with [0 <= a <= b] raises nothing. *)
Lemma int_truediv_le a b :
  0 <= a <= b -> 1 <= b -> int_truediv a b = Ok (fdiv (Z2SF a) (Z2SF b)).
Proof.
  intros Ha Hb. unfold int_truediv.
  replace (b =? 0) with false by (symmetry; apply Z.eqb_neq; lia).
  assert (Hfin : is_finite (fdiv (Z2SF a) (Z2SF b)) = true).
  { destruct b as [|pb|pb]; try lia. destruct a as [|pa|pa]; try lia; [reflexivity|].
    unfold fdiv, SFdiv, Z2SF, SFdiv_core_binary.
    cbn [Zdigits2]. rewrite !Z.add_0_r, Z.sub_diag.
    set (d1 := Zpos (digits2_pos pa)). set (d2 := Zpos (digits2_pos pb)).
    assert (Hd : d1 <= d2).
    { apply (Zdigits2_le (Zpos pa)); [|unfold d2; lia].
      pose proof (Zdigits2_lt (Zpos pb) ltac:(lia)). cbn [Zdigits2] in *. fold d2 in H. lia. }
    assert (d1 >= 1) by (unfold d1; lia).
    assert (Hf : -1074 <= fexp prec emax (d1 - d2) <= -53)
      by (unfold fexp, emin, prec, emax; lia).
    set (e' := Z.min (fexp prec emax (d1 - d2)) 0).
    assert (He' : -1074 <= e' <= -53) by (unfold e'; lia).
    destruct (0 - e') as [|sh|sh] eqn:Esh; try lia.
    rewrite Z.shiftl_mul_pow2 by lia.
    pose proof (Z.pow_pos_nonneg 2 (Zpos sh) ltac:(lia) ltac:(lia)) as Hp.
    pose proof (Z_div_mod (Zpos pa * 2 ^ Zpos sh) (Zpos pb) ltac:(lia)) as Hdm.
    destruct (Z.div_eucl (Zpos pa * 2 ^ Zpos sh) (Zpos pb)) as [q r].
    destruct Hdm as [Hq Hr].
    apply bra_finite; [nia| |lia].
    assert (Zdigits2 q <= Zpos sh + 1); [|lia].
    apply Zdigits2_le; [|lia]. split; [nia|].
    rewrite Z.pow_add_r by lia. change (2 ^ 1) with 2. nia. }
  destruct (fdiv (Z2SF a) (Z2SF b)); try discriminate; reflexivity.
Qed.


(** * Facts about the notebook *)

(** ** Drawing, indexing and sorting *)

(** Drawing [count] values reads a window of the stream and moves the cursor. *)
Lemma draw_window g count pos :
  draw g count pos = Ok (window g pos count, (pos + count)%nat).
Proof.
  revert pos. induction count as [|c IH]; intros pos.
  - unfold window. cbn. now rewrite Nat.add_0_r.
  - cbn [draw]. unfold bind at 1. unfold random at 1. unfold bind at 1.
    rewrite IH. unfold ret. unfold window. cbn [seq map].
    now rewrite Nat.add_succ_r.
Qed.

Lemma generate_ducks_unfold g n pos :
  generate_ducks g n pos =
  match rotate_and_sort (window g pos (Z.to_nat n)) with
  | Ok ducks => Ok (ducks, (pos + Z.to_nat n)%nat)
  | Raise e => Raise e
  end.
Proof.
  unfold generate_ducks, bind. rewrite draw_window. unfold lift.
  reflexivity.
Qed.

Lemma float_rem_one_total v : exists r, float_rem v one = Ok r.
Proof.
  unfold float_rem. change (feq one zero) with false. cbv iota.
  destruct (negb _); [destruct (xorb _ _)|]; eexists; reflexivity.
Qed.

Lemma mapM_total {A B} (f : A -> result B) l :
  (forall x, In x l -> exists y, f x = Ok y) ->
  exists ys, mapM f l = Ok ys /\ length ys = length l.
Proof.
  induction l as [|x l IH]; intros H.
  - exists []. split; reflexivity.
  - destruct (H x (or_introl eq_refl)) as [y Hy].
    destruct IH as (ys & Hys & Hl); [intros; apply H; now right|].
    exists (y :: ys). cbn [mapM]. rewrite Hy. cbn [rbind]. rewrite Hys. cbn.
    split; [reflexivity | now rewrite Hl].
Qed.

Lemma mapM_map {A B C} (f : B -> result C) (g : A -> B) (h : A -> C) l :
  (forall x, In x l -> f (g x) = Ok (h x)) -> mapM f (map g l) = Ok (map h l).
Proof.
  induction l as [|x l IH]; intros H; [reflexivity|].
  cbn [mapM map]. rewrite (H x (or_introl eq_refl)). cbn [rbind].
  rewrite IH by (intros; apply H; now right). reflexivity.
Qed.

Lemma insert_perm x l : Permutation (insert x l) (x :: l).
Proof.
  induction l as [|y l IH]; cbn [insert]; [reflexivity|].
  destruct (flt y x); [|reflexivity].
  rewrite IH. apply perm_swap.
Qed.

Lemma list_sort_perm l : Permutation (list_sort l) l.
Proof.
  induction l as [|x l IH]; cbn [list_sort]; [reflexivity|].
  rewrite insert_perm. now constructor.
Qed.

Lemma list_sort_length l : length (list_sort l) = length l.
Proof. apply Permutation_length, list_sort_perm. Qed.

Lemma py_index_0 {A} (x : A) l : py_index (x :: l) 0 = Ok x.
Proof.
  unfold py_index. cbn [length]. rewrite Nat2Z.inj_succ.
  change (0 <? 0) with false. cbv iota.
  replace (0 <? Z.succ (Z.of_nat (length l))) with true by (symmetry; apply Z.ltb_lt; lia).
  reflexivity.
Qed.

Lemma py_index_last {A} (l : list A) x :
  py_index (l ++ [x]) (-1) = Ok x.
Proof.
  unfold py_index. rewrite length_app. cbn [length].
  rewrite Nat2Z.inj_add. change (Z.of_nat 1) with 1.
  change (-1 <? 0) with true. cbv iota.
  replace (-1 + (Z.of_nat (length l) + 1)) with (Z.of_nat (length l)) by lia.
  replace (0 <=? Z.of_nat (length l)) with true by (symmetry; apply Z.leb_le; lia).
  replace (Z.of_nat (length l) <? Z.of_nat (length l) + 1) with true
    by (symmetry; apply Z.ltb_lt; lia).
  rewrite Nat2Z.id, nth_error_app2, Nat.sub_diag by lia. reflexivity.
Qed.

Lemma py_index_last_total {A} (l : list A) :
  l <> [] -> exists x, py_index l (-1) = Ok x /\ l = removelast l ++ [x].
Proof.
  intros H. destruct (exists_last H) as (l' & x & ->).
  exists x. split; [apply py_index_last|]. now rewrite removelast_last.
Qed.

(** On a list that is not empty the generator raises nothing, whatever the
    floats drawn. *)
Lemma rotate_and_sort_total x l :
  exists ducks, rotate_and_sort (x :: l) = Ok ducks
    /\ length ducks = S (length l).
Proof.
  unfold rotate_and_sort. rewrite py_index_0. cbn [rbind].
  destruct (mapM_total (fun duck => float_rem duck one)
              (map (fun duck => fadd duck (fsub half x)) (x :: l)))
    as (ys & -> & Hl).
  - intros v _. apply float_rem_one_total.
  - exists (list_sort ys). cbn [rbind]. split; [reflexivity|].
    rewrite list_sort_length, Hl. now rewrite length_map.
Qed.

Lemma calculate_distance_total ducks :
  ducks <> [] -> exists d, calculate_distance ducks = Ok d.
Proof.
  intros H. unfold calculate_distance.
  destruct (py_index_last_total ducks H) as (x & -> & _). cbn [rbind].
  destruct ducks as [|y l]; [congruence|]. rewrite py_index_0. cbn [rbind].
  eexists; reflexivity.
Qed.

Lemma span_of_total x l : exists d, span_of (x :: l) = Ok d.
Proof.
  unfold span_of. destruct (rotate_and_sort_total x l) as (ducks & -> & Hl).
  cbn [rbind]. apply calculate_distance_total. destruct ducks; [discriminate|congruence].
Qed.

Lemma window_nonempty g pos n : (0 < n)%nat ->
  window g pos n = g pos :: window g (S pos) (n - 1).
Proof.
  intros H. destruct n; [lia|]. replace (S n - 1)%nat with n by lia.
  reflexivity.
Qed.


(** ** The generator on the values drawn *)

Lemma wrap_range s : - 2 ^ 53 < s < 2 ^ 54 - 1 -> 0 <= wrap s < 2 ^ 53.
Proof.
  intros H. unfold wrap. destruct (Z.ltb_spec s (2 ^ 53)) as [Hs|Hs].
  - apply Z.mod_pos_bound. reflexivity.
  - pose proof (rne2_bounds s ltac:(lia)) as Hr.
    change (2 ^ 53) with (2 * 2 ^ 52) in *. lia.
Qed.

Lemma grid_wrap s :
  - 2 ^ 53 < s < 2 ^ 54 - 1 -> float_rem (grid s) one = Ok (grid (wrap s)).
Proof.
  intros H. unfold wrap. destruct (Z.ltb_spec s (2 ^ 53)) as [Hs|Hs].
  - apply float_rem_grid. lia.
  - pose proof (rne2_bounds s ltac:(lia)) as Hr.
    rewrite grid_big by lia.
    destruct (rne2 s) as [|q|q] eqn:Eq; try (change (2 ^ 52) with 4503599627370496 in Hr; lia).
    cbn [Z.to_pos]. rewrite float_rem_big by assumption.
    do 2 f_equal; change (2 ^ 53) with (2 * 2 ^ 52); lia.
Qed.

Lemma rotation_delta_grid a0 :
  0 <= a0 < 2 ^ 53 -> fsub half (grid a0) = grid (2 ^ 52 - a0).
Proof.
  intros H. rewrite half_grid. apply fsub_grid;
    change (2 ^ 52) with 4503599627370496; change (2 ^ 53) with 9007199254740992 in *;
    change (2 ^ 54) with 18014398509481984; lia.
Qed.

(** One rotated and wrapped draw, computed on the integers. *)
Lemma rotate_float a0 a :
  0 <= a0 < 2 ^ 53 -> 0 <= a < 2 ^ 53 ->
  float_rem (fadd (grid a) (fsub half (grid a0))) one = Ok (grid (rotate a0 a)).
Proof.
  intros H0 Ha. rewrite rotation_delta_grid by assumption.
  pow2_facts.
  rewrite fadd_grid by lia. unfold rotate. apply grid_wrap. lia.
Qed.

Lemma rotate_range a0 a :
  0 <= a0 < 2 ^ 53 -> 0 <= a < 2 ^ 53 -> 0 <= rotate a0 a < 2 ^ 53.
Proof.
  intros H0 Ha. unfold rotate. apply wrap_range.
  pow2_facts.
  lia.
Qed.

(** The generator on values drawn: the sorted list of the rotated draws. *)
Lemma rotate_and_sort_grid a0 rest :
  Forall in_range (a0 :: rest) ->
  rotate_and_sort (map grid (a0 :: rest))
  = Ok (list_sort (map grid (map (rotate a0) (a0 :: rest)))).
Proof.
  intros H. unfold rotate_and_sort. change (map grid (a0 :: rest)) with (grid a0 :: map grid rest) at 1.
  rewrite py_index_0. cbn [rbind].
  rewrite map_map.
  rewrite (mapM_map _ _ (fun v => grid (rotate a0 v))).
  - cbn [rbind]. now rewrite map_map.
  - intros a Hin. rewrite Forall_forall in H. apply rotate_float.
    + apply H. now left.
    + apply H, Hin.
Qed.

Lemma flt_grid a b :
  Z.abs a < 2 ^ 53 -> Z.abs b < 2 ^ 53 -> flt (grid a) (grid b) = (a <? b).
Proof.
  intros Ha Hb. unfold flt, SFltb, Z.ltb. rewrite SFcompare_grid by assumption.
  reflexivity.
Qed.

Lemma fle_grid a b :
  Z.abs a < 2 ^ 53 -> Z.abs b < 2 ^ 53 -> fle (grid a) (grid b) = (a <=? b).
Proof.
  intros Ha Hb. unfold fle, SFleb, Z.leb. rewrite SFcompare_grid by assumption.
  now destruct (a ?= b).
Qed.

Lemma flt_grid_one a : 0 <= a < 2 ^ 53 -> flt (grid a) one = true.
Proof.
  intros Ha. destruct (Z.eq_dec a 0) as [->|Ha0]; [reflexivity|].
  rewrite grid_small by lia.
  pose proof (Zdigits2_le_53 a ltac:(lia)) as Hd.
  destruct (canon_finite (-53) a ltac:(lia)) as (M & -> & _).
  replace (a <? 0) with false by (symmetry; apply Z.ltb_ge; lia).
  unfold flt, SFltb, one. cbn [SFcompare].
  replace (-53 - (53 - Zdigits2 a) ?= -52) with Lt; [reflexivity|].
  symmetry. apply Z.compare_lt_iff. lia.
Qed.

Lemma draw_in_unit x : is_draw x -> in_unit x.
Proof.
  intros (k & Hk & ->). split.
  - change zero with (grid 0). rewrite fle_grid by (cbn; lia).
    apply Z.leb_le. lia.
  - now apply flt_grid_one.
Qed.

Lemma insert_ascending x l :
  is_draw x -> Forall is_draw l -> ascending l -> ascending (insert x l).
Proof.
  intros (a & Ha & ->) Hl Hs. induction l as [|y l IH]; cbn [insert].
  - repeat constructor.
  - inversion Hl as [|? ? (b & Hb & ->) Hl']; subst.
    inversion Hs as [|? ? Hs' Hall]; subst.
    rewrite flt_grid by lia.
    destruct (Z.ltb_spec b a) as [Hlt|Hge].
    + constructor; [now apply IH|].
      eapply Permutation_Forall; [symmetry; apply insert_perm|].
      constructor; [|assumption].
      rewrite fle_grid by lia. apply Z.leb_le. lia.
    + constructor; [assumption|].
      constructor; [rewrite fle_grid by lia; apply Z.leb_le; lia|].
      rewrite Forall_forall in *. intros z Hz.
      destruct (Hl' z Hz) as (c & Hc & ->).
      specialize (Hall _ Hz). rewrite fle_grid in * by lia.
      apply Z.leb_le. apply Z.leb_le in Hall. lia.
Qed.

(** On values of the grid [<] is a total order and the insertion sort sorts. *)
Lemma list_sort_ascending l : Forall is_draw l -> ascending (list_sort l).
Proof.
  induction l as [|x l IH]; intros H; cbn [list_sort]; [constructor|].
  inversion H; subst. apply insert_ascending; auto.
  eapply Permutation_Forall; [symmetry; apply list_sort_perm|assumption].
Qed.

Lemma window_draws g pos n :
  (forall i, (pos <= i < pos + n)%nat -> is_draw (g i)) ->
  exists ks, window g pos n = map grid ks /\ Forall in_range ks /\ length ks = n.
Proof.
  revert pos. induction n as [|n IH]; intros pos H.
  - exists []. repeat split; constructor.
  - destruct (H pos ltac:(lia)) as (k & Hk & E).
    destruct (IH (S pos)) as (ks & Hw & Hr & Hlen); [intros; apply H; lia|].
    exists (k :: ks). unfold window in *. cbn [seq map]. rewrite Hw, E.
    repeat split; [now constructor | now cbn; rewrite Hlen].
Qed.

Lemma generate_ducks_grid g n pos :
  1 <= n ->
  (forall i, (pos <= i < pos + Z.to_nat n)%nat -> is_draw (g i)) ->
  exists a0 rest,
    g pos = grid a0 /\ Forall in_range (a0 :: rest) /\ length (a0 :: rest) = Z.to_nat n /\
    generate_ducks g n pos
    = Ok (list_sort (map grid (map (rotate a0) (a0 :: rest))), (pos + Z.to_nat n)%nat).
Proof.
  intros Hn Hg.
  destruct (window_draws g pos (Z.to_nat n) Hg) as (ks & Hw & Hr & Hlen).
  destruct ks as [|a0 rest]; [cbn in Hlen; lia|].
  exists a0, rest. rewrite generate_ducks_unfold, Hw, rotate_and_sort_grid by assumption.
  repeat split; auto.
  rewrite window_nonempty in Hw by lia. now inversion Hw.
Qed.

Lemma rotated_draws a0 ks :
  Forall in_range (a0 :: ks) -> Forall is_draw (map grid (map (rotate a0) ks)).
Proof.
  intros H. inversion H as [|? ? H0 Hks]; subst.
  rewrite map_map. apply Forall_map.
  eapply Forall_impl; [|exact Hks].
  intros a Ha. exists (rotate a0 a). split; [now apply rotate_range|reflexivity].
Qed.



(** ** The anchor *)

Lemma fsub_half_small m e j :
  1 <= j <= 1020 -> e = -54 - j -> Zpos m < 2 ^ 53 ->
  exists k' e',
    fsub half (S754_finite false m e) = S754_finite false k' e' /\
    e <= e' /\
    Zpos k' * 2 ^ (e' - e) = rne (2 ^ (53 + j) - Zpos m) j * 2 ^ j.
Proof.
  intros Hj He Hm.
  pose proof (Z.pow_pos_nonneg 2 j ltac:(lia) ltac:(lia)) as Hp.
  assert (E53 : 2 ^ (53 + j) = 2 ^ 53 * 2 ^ j) by (rewrite Z.pow_add_r by lia; reflexivity).
  assert (E52 : 2 ^ (52 + j) = 2 ^ 52 * 2 ^ j) by (rewrite Z.pow_add_r by lia; reflexivity).
  pow2_facts.
  set (M1 := 2 ^ (53 + j) - Zpos m).
  assert (H2j : 2 <= 2 ^ j)
    by (change 2 with (2 ^ 1) at 1; apply Z.pow_le_mono_r; lia).
  assert (HM1 : 2 ^ (52 + j) <= M1 < 2 ^ (53 + j))
    by (unfold M1; rewrite E52, E53, P52, P53; lia).
  assert (Hsub : fsub half (S754_finite false m e) = round M1 e).
  { unfold fsub, SFsub, half, round.
    replace (Z.min (-53) e) with e by lia.
    rewrite !shl_align_val by lia. cbn [cond_Zopp].
    rewrite Z.sub_diag, Z.pow_0_r, Z.mul_1_r.
    replace (-53 - e) with (1 + j) by lia.
    rewrite Z.pow_add_r by lia. change (2 ^ 1) with 2.
    unfold M1. rewrite E53, P53. f_equal. lia. }
  rewrite Hsub, (round_wide M1 j) by lia.
  pose proof (rne_range M1 j ltac:(lia) HM1) as Hr.
  destruct (Z.ltb_spec (rne M1 j) (2 ^ 53)) as [Hlt|Hge].
  - exists (Z.to_pos (rne M1 j)), (e + j). split; [reflexivity|]. split; [lia|].
    rewrite Z2Pos.id by lia. f_equal. f_equal. lia.
  - exists 4503599627370496%positive, (e + j + 1). split; [reflexivity|]. split; [lia|].
    replace (rne M1 j) with (2 ^ 53) by lia.
    replace (e + j + 1 - e) with (1 + j) by lia.
    rewrite Z.pow_add_r by lia. change (2 ^ 1) with 2. lia.
Qed.

Lemma anchor_small m e :
  -1074 <= e <= -55 -> Zpos m < 2 ^ 53 ->
  fadd (S754_finite false m e) (fsub half (S754_finite false m e)) = half.
Proof.
  intros He Hm. set (j := -54 - e).
  destruct (fsub_half_small m e j ltac:(unfold j; lia) ltac:(unfold j; lia) Hm)
    as (k' & e' & -> & Hle & HK).
  unfold fadd, SFadd. replace (Z.min e e') with e by lia.
  rewrite !shl_align_val by lia. cbn [cond_Zopp].
  rewrite Z.sub_diag, Z.pow_0_r, Z.mul_1_r, HK.
  assert (Hj : 1 <= j <= 1020) by (unfold j; lia).
  assert (E53 : 2 ^ (53 + j) = 2 ^ 53 * 2 ^ j)
    by (rewrite Z.pow_add_r by lia; reflexivity).
  pose proof (Z.pow_pos_nonneg 2 j ltac:(lia) ltac:(lia)) as Hp.
  pow2_facts.
  pose proof (rne_error (2 ^ (53 + j) - Zpos m) j ltac:(nia) ltac:(lia)) as Herr.
  pose proof (round_near_half (Zpos m + rne (2 ^ (53 + j) - Zpos m) j * 2 ^ j) j Hj
                ltac:(lia)) as H.
  replace (-54 - j) with e in H by (unfold j; lia). exact H.
Qed.

Lemma anchor_quarter m :
  Zpos (digits2_pos m) = 53 ->
  fadd (S754_finite false m (-54)) (fsub half (S754_finite false m (-54))) = half.
Proof.
  intros Hd. pose proof (digits2_bounds m) as [Hl Hu]. rewrite Hd in Hl, Hu.
  change (2 ^ (53 - 1)) with (2 ^ 52) in Hl. pow2_facts.
  assert (Ev : S754_finite false m (-54) = canon (-54) (Zpos m)).
  { unfold canon. cbn [Zdigits2 Z.abs]. rewrite Hd, Z.sub_diag, Z.pow_0_r, Z.mul_1_r.
    reflexivity. }
  rewrite Ev.
  replace (fsub half (canon (-54) (Zpos m)))
    with (fsub (canon (-53) (2 ^ 52)) (canon (-54) (Zpos m))) by reflexivity.
  rewrite fsub_canon by (cbn [Z.abs]; lia).
  cbn [Zdigits2]. rewrite Hd. change (Zdigits2 (2 ^ 52)) with 53.
  change (Z.min (-53 - (53 - 53)) (-54 - (53 - 53))) with (-54).
  change (2 ^ (-53 - -54)) with 2. change (2 ^ (-54 - -54)) with 1. rewrite Z.mul_1_r.
  set (d := 2 ^ 52 * 2 - Zpos m).
  assert (Hdr : 0 < d <= 2 ^ 52) by (unfold d; lia).
  pose proof (round_small (-54) d 0 ltac:(lia) ltac:(lia) ltac:(lia)) as Er.
  rewrite Z.pow_0_r, Z.mul_1_r, Z.sub_0_r in Er. rewrite Er.
  rewrite fadd_canon by (cbn [Z.abs]; lia).
  cbn [Zdigits2]. rewrite Hd.
  pose proof (Zdigits2_le_53 d ltac:(lia)) as Hdd.
  set (ez := Z.min _ _).
  assert (Hez : ez = -54 - (53 - Zdigits2 d)) by (unfold ez; lia).
  rewrite <- Z.mul_add_distr_r.
  replace (Zpos m + d) with (2 ^ 52 * 2 ^ 1) by (unfold d; change (2 ^ 1) with 2; lia).
  rewrite <- Z.mul_assoc, <- Z.pow_add_r by lia.
  replace ez with (-53 - (1 + (-54 - ez))) at 2 by lia.
  rewrite round_small by lia. reflexivity.
Qed.

(** For every double [v] of [[0, 1)], [v + (0.5 - v)] is [0.5]: the first
    rounding error, if any, is absorbed by the second rounding. *)
Lemma anchor_exact v :
  unit_float v -> fadd v (fsub half v) = half.
Proof.
  intros (Hv & Hge & Hlt).
  destruct v as [s|s| |s m e].
  - destruct s; reflexivity.
  - destruct s; discriminate.
  - discriminate.
  - destruct s; [discriminate|].
    cbn [valid_binary] in Hv. unfold bounded, canonical_mantissa in Hv.
    apply andb_true_iff in Hv. destruct Hv as [Hc He].
    apply Z.eqb_eq in Hc. unfold fexp, emin, prec, emax in Hc.
    pose proof (digits2_bounds m) as [Hl Hu].
    set (d := Zpos (digits2_pos m)) in *.
    assert (Hd : 1 <= d) by (unfold d; lia).
    unfold flt, SFltb, one in Hlt. cbn [SFcompare] in Hlt.
    assert (He53 : e <= -53).
    { destruct (Z.compare_spec e (-52)) as [E|E|E]; try lia; try discriminate.
      exfalso. subst e. assert (d = 53) by lia.
      rewrite compare_cont_Z in Hlt.
      replace (d - 1) with 52 in Hl by lia.
      destruct (Z.compare_spec (Zpos m) 4503599627370496) as [E'|E'|E'];
        try discriminate; change (2 ^ 52) with 4503599627370496 in Hl; lia. }
    assert (Hm : Zpos m < 2 ^ 53).
    { eapply Z.lt_le_trans; [exact Hu|]. apply Z.pow_le_mono_r; lia. }
    destruct (Z.eq_dec e (-53)) as [->|N53]; [|destruct (Z.eq_dec e (-54)) as [->|N54]].
    + assert (Hd53 : d = 53) by lia.
      replace (d - 1) with 52 in Hl by lia.
      assert (Eg : S754_finite false m (-53) = grid (Zpos m)).
      { rewrite grid_small by (cbn [Z.abs]; lia). unfold canon. cbn [Zdigits2 Z.abs].
        fold d. rewrite Hd53, Z.sub_diag, Z.pow_0_r, Z.mul_1_r. reflexivity. }
      rewrite Eg, rotation_delta_grid by lia. pow2_facts.
      rewrite fadd_grid by lia.
      replace (Zpos m + (2 ^ 52 - Zpos m)) with (2 ^ 52) by lia. reflexivity.
    + apply anchor_quarter. fold d. lia.
    + apply anchor_small; lia.
Qed.

Lemma draw_unit_float x : is_draw x -> unit_float x.
Proof.
  intros Hx. split; [|now apply draw_in_unit].
  destruct Hx as (k & Hk & ->).
  destruct (Z.eq_dec k 0) as [->|Hk0]; [reflexivity|].
  rewrite grid_small by lia.
  pose proof (Zdigits2_le_53 k ltac:(lia)) as Hd.
  destruct (canon_finite (-53) k ltac:(lia)) as (M & -> & _ & HdM).
  cbn [valid_binary]. unfold bounded, canonical_mantissa. rewrite HdM.
  rewrite fexp_normal by lia.
  apply andb_true_iff. split; [apply Z.eqb_eq; lia | apply Z.leb_le; unfold emax, prec; lia].
Qed.

(** ** The loop of [test] *)

Lemma body_spec {A} g n (k : float -> M A) pos :
  (ducks <- generate_ducks g n ;;
   distance <- lift (calculate_distance ducks) ;;
   k distance) pos
  = match span_of (window g pos (Z.to_nat n)) with
    | Ok distance => k distance (pos + Z.to_nat n)%nat
    | Raise e => Raise e
    end.
Proof.
  unfold bind. rewrite generate_ducks_unfold. unfold span_of.
  destruct (rotate_and_sort _) as [ducks|e]; cbn [rbind]; [|reflexivity].
  unfold lift. destruct (calculate_distance ducks); reflexivity.
Qed.

Lemma test_loop_unfold g n iters hits pos :
  test_loop g n (S iters) hits pos
  = match span_of (window g pos (Z.to_nat n)) with
    | Ok distance =>
        test_loop g n iters (if test_distance distance then hits + 1 else hits)
          (pos + Z.to_nat n)%nat
    | Raise e => Raise e
    end.
Proof. cbn [test_loop]. apply body_spec. Qed.

(** After [iters] trials from trial [j] on, the counter has grown by the
    number of hits among them and the cursor has moved by [iters * n]. *)
Lemma test_loop_spec g n iters pos : 1 <= n ->
  forall j hits,
  test_loop g n iters hits (pos + j * Z.to_nat n)%nat
  = Ok (hits + Z.of_nat (length (filter (trial_hit g pos (Z.to_nat n)) (seq j iters))),
        (pos + (j + iters) * Z.to_nat n)%nat).
Proof.
  intros Hn. induction iters as [|iters IH]; intros j hits.
  - cbn. unfold ret. now rewrite Z.add_0_r, Nat.add_0_r.
  - rewrite test_loop_unfold. cbn [seq filter]. unfold trial_hit at 1.
    assert (Hc : (0 < Z.to_nat n)%nat) by lia.
    destruct (span_of (window g (pos + j * Z.to_nat n) (Z.to_nat n))) as [d|e] eqn:Es.
    + replace (pos + j * Z.to_nat n + Z.to_nat n)%nat
        with (pos + S j * Z.to_nat n)%nat by lia.
      rewrite IH. unfold test_distance.
      replace (S j + iters)%nat with (j + S iters)%nat by lia.
      destruct (fle d half); cbn [length]; do 2 f_equal; lia.
    + exfalso. rewrite window_nonempty in Es by exact Hc.
      destruct (span_of_total (g (pos + j * Z.to_nat n)%nat)
                  (window g (S (pos + j * Z.to_nat n)) (Z.to_nat n - 1))) as [d Hd].
      congruence.
Qed.

Lemma test_loop_no_ducks g n iters hits pos :
  n <= 0 -> test_loop g n (S iters) hits pos = Raise IndexError.
Proof.
  intros Hn. rewrite test_loop_unfold.
  replace (Z.to_nat n) with 0%nat by lia. reflexivity.
Qed.

Lemma hit_count_le g pos count iters :
  0 <= hit_count g pos count iters <= Z.of_nat iters.
Proof.
  unfold hit_count.
  pose proof (filter_length_le (trial_hit g pos count) (seq 0 iters)) as H.
  rewrite length_seq in H. lia.
Qed.

(** The loop reads the stream only through the [iters * n] values from the
    cursor on. *)
Lemma test_loop_window g1 g2 n iters : 
  forall hits pos,
  (forall i, (pos <= i < pos + iters * Z.to_nat n)%nat -> g1 i = g2 i) ->
  test_loop g1 n iters hits pos = test_loop g2 n iters hits pos.
Proof.
  induction iters as [|iters IH]; intros hits pos H; [reflexivity|].
  rewrite !test_loop_unfold.
  assert (Hw : window g1 pos (Z.to_nat n) = window g2 pos (Z.to_nat n)).
  { unfold window. apply map_ext_in. intros i Hi. apply in_seq in Hi.
    apply H. cbn. lia. }
  rewrite Hw. destruct (span_of _); [|reflexivity].
  apply IH. intros i Hi. apply H. cbn. lia.
Qed.


Lemma spread_draws i : is_draw (spread i).
Proof.
  unfold spread. destruct (i mod 3)%nat as [|[|[|m]]]; cbn [nth];
    [exists 0 | exists 1 | exists (2 ^ 52) | exists 0];
    (split; [split; [discriminate | reflexivity] | try reflexivity]).
  destruct m; reflexivity.
Qed.

(** ** The run recorded in the notebook

    The output cells of the notebook print one run of the algorithm and the
    table of observed and expected percentages; the embedding computes the
    same floats. *)

(** The values drawn are multiples of [2^-53]. *)
Example recorded_ducks_are_draws : Forall is_draw recorded_ducks.
Proof.
  repeat constructor; eexists; (split; [|reflexivity]); split;
    solve [discriminate | reflexivity].
Qed.

(** The sorted sample printed is [[0.032563895140397925, 0.3548935282111235,
    0.5, 0.8892460602249802]]. *)
Example recorded_sample :
  rotate_and_sort recorded_ducks
  = Ok (map grid [293309492040056; 3196596722815633; 4503599627370496;
                  8009616450939805]).
Proof. vm_compute. reflexivity. Qed.

(** Its span is above one half: the cell [distance <= 0.5] prints [False]. *)
Example recorded_outcome : outcome recorded_ducks = Ok false.
Proof. vm_compute. reflexivity. Qed.

(** The expectations printed for 2, 3, 4, 5, 6, 8, 10, 15 and 20 ducks, as
    fractions: 1, 0.75, 0.5, 0.3125, 0.1875, 0.0625, 0.01953125,
    0.00091552734375 and 0.00003814697265625. *)
Example recorded_expectations :
  map expected_result [2; 3; 4; 5; 6; 8; 10; 15; 20]
  = map Ok [round 1 0; round 3 (-2); round 1 (-1); round 5 (-4); round 3 (-4);
            round 1 (-4); round 5 (-8); round 15 (-14); round 5 (-17)].
Proof. vm_compute. reflexivity. Qed.

(** For 4 ducks the notebook observed 25058 hits in 50000 trials and printed
    [50.11600000000001 %], the double [7053199966415619 * 2^-47]. *)
Example recorded_percentage :
  rbind (int_truediv 25058 50000) (fun propability =>
  rbind (int_to_float 100) (fun hundred => Ok (fmul propability hundred)))
  = Ok (S754_finite false 7053199966415619 (-47)).
Proof. vm_compute. reflexivity. Qed.

(** * The claims *)

(** ** Sample streams *)

Lemma half_is_draw : is_draw half.
Proof. exists (2 ^ 52). split; [split; [discriminate | reflexivity] | reflexivity]. Qed.

Lemma anchored_draws i : is_draw (anchored i).
Proof. exact half_is_draw. Qed.

Lemma half_on_even_grid : on_even_grid half.
Proof.
  exists (2 ^ 52). split; [split; [discriminate | reflexivity] | split; reflexivity].
Qed.

(** ** The trial runner *)

Lemma test_total g n k pos :
  1 <= n -> 1 <= k -> exists v pos', test g k n pos = Ok (v, pos').
Proof.
  intros Hn Hk. unfold test, bind.
  pose proof (test_loop_spec g n (Z.to_nat k) pos Hn 0%nat 0) as H.
  rewrite Nat.mul_0_l, Nat.add_0_r in H. rewrite H.
  pose proof (hit_count_le g pos (Z.to_nat n) (Z.to_nat k)) as Hle.
  unfold hit_count in Hle.
  unfold lift. rewrite int_truediv_le by lia.
  eexists. eexists. reflexivity.
Qed.

(** C1, as the code has it: for every point count [n >= 1] and iteration
    count [k >= 1] (the module-level [iterations]), [test] returns the triple
    [(distances, hits, hits / k)]: [distances] is the empty list, [hits] is
    the number of the [k] trials whose span was [<= 0.5], and the ratio is
    the quotient of the two integers rounded to a float.  The run reads
    [k * n] values of the stream. *)
Theorem test_returns_hits_and_ratio g n k pos :
  1 <= n -> 1 <= k ->
  test g k n pos
  = Ok ((PList [],
         PInt (hit_count g pos (Z.to_nat n) (Z.to_nat k)),
         PFloat (fdiv (Z2SF (hit_count g pos (Z.to_nat n) (Z.to_nat k))) (Z2SF k))),
        (pos + Z.to_nat k * Z.to_nat n)%nat).
Proof.
  intros Hn Hk. unfold test, bind.
  pose proof (test_loop_spec g n (Z.to_nat k) pos Hn 0%nat 0) as H.
  rewrite Nat.mul_0_l, Nat.add_0_r, Z.add_0_l, Nat.add_0_l in H. rewrite H.
  fold (hit_count g pos (Z.to_nat n) (Z.to_nat k)).
  pose proof (hit_count_le g pos (Z.to_nat n) (Z.to_nat k)) as Hle.
  unfold lift. rewrite int_truediv_le by lia. reflexivity.
Qed.

Lemma test_returns_hits_and_ratio_witness :
  1 <= 1 /\ 1 <= 2 /\
  test anchored 2 1 0%nat
  = Ok ((PList [],
         PInt (hit_count anchored 0 (Z.to_nat 1) (Z.to_nat 2)),
         PFloat (fdiv (Z2SF (hit_count anchored 0 (Z.to_nat 1) (Z.to_nat 2))) (Z2SF 2))),
        (0 + Z.to_nat 2 * Z.to_nat 1)%nat).
Proof.
  split; [lia|]. split; [lia|].
  apply (test_returns_hits_and_ratio anchored 1 2 0%nat); lia.
Defined.

(** C1, as the claim words it, fails: on three ducks at [0], [2^-53] and
    [0.5] and one iteration the only trial is a miss, and [test] returns
    [([], 0, 0.0)], which is not the triple [(hit_count, k, hit_count / k)]
    [= (0, 1, 0.0)]: the first component is the list [distances], the second
    is the hit count and [k] is not returned. *)
Lemma test_triple_counterexample :
  test spread 1 3 0%nat = Ok ((PList [], PInt 0, PFloat zero), 3%nat) /\
  hit_count spread 0 3 1 = 0 /\
  (PList [], PInt 0, PFloat zero) <> (PInt 0, PInt 1, PFloat zero).
Proof.
  split; [vm_compute; reflexivity|]. split; [vm_compute; reflexivity|].
  intros H. inversion H.
Qed.

(** C2, as the code has it: there is no argument check.  With [n <= 0] and
    [k >= 1] the first trial raises [IndexError] at [random_ducks[0]]; with
    [k = 0] no trial runs and the final division raises
    [ZeroDivisionError]; with [k < 0] no trial runs and nothing is raised,
    the result is [([], 0, -0.0)]; with [n >= 1] and [k >= 1] nothing is
    raised. *)
Theorem test_argument_errors g n k pos :
  (n <= 0 -> 1 <= k -> test g k n pos = Raise IndexError) /\
  (k = 0 -> test g k n pos = Raise ZeroDivisionError) /\
  (k < 0 -> test g k n pos = Ok ((PList [], PInt 0, PFloat (S754_zero true)), pos)) /\
  (1 <= n -> 1 <= k -> exists v pos', test g k n pos = Ok (v, pos')).
Proof.
  repeat split.
  - intros Hn Hk. unfold test, bind.
    destruct (Z.to_nat k) as [|iters] eqn:E; [lia|].
    now rewrite test_loop_no_ducks.
  - intros ->. reflexivity.
  - intros Hk. destruct k as [|p|p]; try lia. reflexivity.
  - intros Hn Hk. now apply test_total.
Qed.

Lemma test_argument_errors_witness :
  test anchored 1 0 0%nat = Raise IndexError /\
  test anchored 0 4 0%nat = Raise ZeroDivisionError /\
  test anchored (-2) 4 0%nat = Ok ((PList [], PInt 0, PFloat (S754_zero true)), 0%nat) /\
  exists v pos', test anchored 1 1 0%nat = Ok (v, pos').
Proof.
  split; [|split; [|split]].
  - apply (proj1 (test_argument_errors anchored 0 1 0%nat)); lia.
  - apply (proj1 (proj2 (test_argument_errors anchored 4 0 0%nat))); reflexivity.
  - apply (proj1 (proj2 (proj2 (test_argument_errors anchored 4 (-2) 0%nat)))); lia.
  - apply (proj2 (proj2 (proj2 (test_argument_errors anchored 1 1 0%nat)))); lia.
Defined.

(** C2, as the claim words it, fails: with [k = -1 <= 0] and four ducks
    [test] raises nothing, it returns [([], 0, -0.0)] without reading the
    stream. *)
Lemma test_negative_iterations_counterexample :
  -1 <= 0 /\
  test anchored (-1) 4 0%nat = Ok ((PList [], PInt 0, PFloat (S754_zero true)), 0%nat).
Proof. split; [lia | reflexivity]. Qed.

(** C6: two runs of [test] with the same [(n, k)] on random streams that
    agree on the [k * n] values the run reads (in particular on the stream
    of one seed) return the same result, hit count included. *)
Theorem test_deterministic g1 g2 n k pos :
  (forall i, (pos <= i < pos + Z.to_nat k * Z.to_nat n)%nat -> g1 i = g2 i) ->
  test g1 k n pos = test g2 k n pos.
Proof.
  intros H. unfold test, bind.
  now rewrite (test_loop_window g1 g2 n (Z.to_nat k) 0 pos H).
Qed.

Lemma test_deterministic_witness :
  (forall i, (0 <= i < 0 + Z.to_nat 2 * Z.to_nat 3)%nat -> spread i = spread (i + 3)%nat) /\
  test spread 2 3 0%nat = test (fun i => spread (i + 3)%nat) 2 3 0%nat.
Proof.
  assert (H : forall i, (0 <= i < 0 + Z.to_nat 2 * Z.to_nat 3)%nat ->
                        spread i = spread (i + 3)%nat).
  { intros i Hi. unfold spread.
    replace (i + 3)%nat with (i + 1 * 3)%nat by lia.
    now rewrite Nat.Div0.mod_add. }
  split; [exact H|].
  exact (test_deterministic spread (fun i => spread (i + 3)%nat) 3 2 0%nat H).
Defined.

(** C10: [generate_ducks n] with [n <= 0] raises [IndexError] (the index
    [random_ducks[0]] on the empty list) and so does [calculate_distance] on
    the empty list; with [n >= 1] [generate_ducks] returns a sample and
    [calculate_distance] returns its span, and [calculate_distance] returns
    on every list that is not empty. *)
Theorem partial_at_the_interface g n pos :
  (n <= 0 -> generate_ducks g n pos = Raise IndexError) /\
  calculate_distance [] = Raise IndexError /\
  (1 <= n ->
   exists ducks distance,
     generate_ducks g n pos = Ok (ducks, (pos + Z.to_nat n)%nat) /\
     calculate_distance ducks = Ok distance) /\
  (forall ducks, ducks <> [] -> exists distance, calculate_distance ducks = Ok distance).
Proof.
  repeat split.
  - intros Hn. rewrite generate_ducks_unfold.
    replace (Z.to_nat n) with 0%nat by lia. reflexivity.
  - intros Hn. rewrite generate_ducks_unfold, window_nonempty by lia.
    destruct (rotate_and_sort_total (g pos) (window g (S pos) (Z.to_nat n - 1)))
      as (ducks & -> & Hl).
    destruct (calculate_distance_total ducks) as [d Hd].
    + destruct ducks; [discriminate|congruence].
    + exists ducks, d. split; [reflexivity|assumption].
  - apply calculate_distance_total.
Qed.

Lemma partial_at_the_interface_witness :
  generate_ducks spread 0 0%nat = Raise IndexError /\
  (exists ducks distance,
     generate_ducks spread 3 0%nat = Ok (ducks, (0 + Z.to_nat 3)%nat) /\
     calculate_distance ducks = Ok distance) /\
  exists distance, calculate_distance [half; one] = Ok distance.
Proof.
  split; [|split].
  - apply (proj1 (partial_at_the_interface spread 0 0%nat)); lia.
  - apply (proj1 (proj2 (proj2 (partial_at_the_interface spread 3 0%nat)))); lia.
  - apply (proj2 (proj2 (proj2 (partial_at_the_interface spread 3 0%nat)))).
    discriminate.
Defined.

(** ** The sample generator *)

(** C3: for every [n >= 1] and every [n] values drawn by
    [random.random()], [generate_ducks n] returns a list of length [n],
    sorted ascending, whose elements all lie in [[0, 1)]; they are again
    multiples of [2^-53]. *)
Theorem generate_ducks_sorted_unit g n pos :
  1 <= n ->
  (forall i, (pos <= i < pos + Z.to_nat n)%nat -> is_draw (g i)) ->
  exists ducks,
    generate_ducks g n pos = Ok (ducks, (pos + Z.to_nat n)%nat) /\
    Z.of_nat (length ducks) = n /\ ascending ducks /\
    Forall in_unit ducks /\ Forall is_draw ducks.
Proof.
  intros Hn Hg.
  destruct (generate_ducks_grid g n pos Hn Hg) as (a0 & rest & _ & Hr & Hlen & ->).
  eexists. split; [reflexivity|].
  assert (Hd : Forall is_draw (map grid (map (rotate a0) (a0 :: rest)))).
  { apply rotated_draws. constructor; [now inversion Hr | assumption]. }
  assert (Hs : Forall is_draw (list_sort (map grid (map (rotate a0) (a0 :: rest))))).
  { eapply Permutation_Forall; [symmetry; apply list_sort_perm | exact Hd]. }
  repeat split.
  - rewrite list_sort_length, !length_map, Hlen. lia.
  - now apply list_sort_ascending.
  - eapply Forall_impl; [|exact Hs]. apply draw_in_unit.
  - exact Hs.
Qed.

Lemma generate_ducks_sorted_unit_witness :
  1 <= 2 /\
  (forall i, (0 <= i < 0 + Z.to_nat 2)%nat -> is_draw (anchored i)) /\
  exists ducks,
    generate_ducks anchored 2 0%nat = Ok (ducks, (0 + Z.to_nat 2)%nat) /\
    Z.of_nat (length ducks) = 2 /\ ascending ducks /\
    Forall in_unit ducks /\ Forall is_draw ducks.
Proof.
  split; [lia|]. split; [intros i _; apply anchored_draws|].
  apply (generate_ducks_sorted_unit anchored 2 0%nat); [lia|].
  intros i _. apply anchored_draws.
Defined.

(** Outside the values [random.random()] can return the range fails: the
    doubles [0.5 + 2^-53] and [2^-54] lie in [[0, 1)], and the sample built
    from them contains [1.0]. *)
Example off_grid_draw_reaches_one :
  rotate_and_sort [S754_finite false 4503599627370497 (-53);
                   S754_finite false 4503599627370496 (-106)]
  = Ok [half; one].
Proof. vm_compute. reflexivity. Qed.

(** The first draw comes out at [0.5], whatever the other draws are. *)
Lemma rotate_and_sort_anchor x l :
  unit_float x ->
  exists rest,
    rotate_and_sort (x :: l) = Ok (list_sort (half :: rest)) /\
    length rest = length l.
Proof.
  intros Hx. unfold rotate_and_sort. rewrite py_index_0. cbn [rbind map mapM].
  rewrite (anchor_exact x Hx).
  replace (float_rem half one) with (Ok half) by reflexivity. cbn [rbind].
  destruct (mapM_total (fun duck => float_rem duck one)
              (map (fun duck => fadd duck (fsub half x)) l)) as (ys & -> & Hl).
  - intros v _. apply float_rem_one_total.
  - exists ys. cbn [rbind]. split; [reflexivity|]. now rewrite Hl, length_map.
Qed.

(** C7: for every first draw [v[0]] in [[0, 1)], the rotation by
    [0.5 - v[0]] puts the first point at [0.5] exactly,
    [v[0] + (0.5 - v[0]) = 0.5] with no rounding error left, and [0.5] is
    an element of the sample [generate_ducks] returns. *)
Theorem anchor_at_half g n pos :
  1 <= n -> unit_float (g pos) ->
  fadd (g pos) (fsub half (g pos)) = half /\
  exists ducks,
    generate_ducks g n pos = Ok (ducks, (pos + Z.to_nat n)%nat) /\ In half ducks.
Proof.
  intros Hn Hx. split; [now apply anchor_exact|].
  rewrite generate_ducks_unfold, window_nonempty by lia.
  destruct (rotate_and_sort_anchor (g pos) (window g (S pos) (Z.to_nat n - 1)) Hx)
    as (rest & -> & _).
  eexists. split; [reflexivity|].
  eapply Permutation_in; [symmetry; apply list_sort_perm|]. now left.
Qed.

Lemma anchor_at_half_witness :
  1 <= 3 /\ unit_float (spread 1%nat) /\
  fadd (spread 1%nat) (fsub half (spread 1%nat)) = half /\
  exists ducks,
    generate_ducks spread 3 1%nat = Ok (ducks, (1 + Z.to_nat 3)%nat) /\ In half ducks.
Proof.
  split; [lia|]. split; [apply draw_unit_float, spread_draws|].
  apply (anchor_at_half spread 3 1%nat); [lia|].
  apply draw_unit_float, spread_draws.
Defined.

(** C8: with one duck every trial is a hit: for any value drawn in
    [[0, 1)] the sample is [[0.5]], its span is [0.0] and the hit test
    holds. *)
Theorem single_duck_always_hit g pos :
  unit_float (g pos) ->
  generate_ducks g 1 pos = Ok ([half], S pos) /\
  calculate_distance [half] = Ok zero /\
  test_distance zero = true.
Proof.
  intros Hx. split; [|split; reflexivity].
  rewrite generate_ducks_unfold.
  change (window g pos (Z.to_nat 1)) with [g pos].
  destruct (rotate_and_sort_anchor (g pos) [] Hx) as (rest & -> & Hl).
  destruct rest; [|discriminate].
  cbn [list_sort insert]. do 2 f_equal. cbn. lia.
Qed.

Lemma single_duck_always_hit_witness :
  unit_float (spread 1%nat) /\
  generate_ducks spread 1 1%nat = Ok ([half], 2%nat) /\
  calculate_distance [half] = Ok zero /\
  test_distance zero = true.
Proof.
  split; [apply draw_unit_float, spread_draws|].
  apply (single_duck_always_hit spread 1%nat).
  apply draw_unit_float, spread_draws.
Defined.

(** ** The hit test *)

Lemma Qpower_2_neg e :
  e < 0 -> (Qpower 2 e == 1 # Z.to_pos (2 ^ (- e)))%Q.
Proof.
  intros He. replace e with (- (- e)) at 1 by lia.
  rewrite Qpower_opp. rewrite <- (Zpower_Qpower 2 (- e)) by lia.
  pose proof (Z.pow_pos_nonneg 2 (- e) ltac:(lia) ltac:(lia)) as Hp.
  destruct (2 ^ (- e)) as [|p|p]; try lia. reflexivity.
Qed.

Lemma pos_times_pow_le_half m e :
  e < 0 -> ((inject_Z (Zpos m) * Qpower 2 e <= 1 # 2)%Q <-> 2 * Zpos m <= 2 ^ (- e)).
Proof.
  intros He. rewrite Qpower_2_neg by assumption.
  pose proof (Z.pow_pos_nonneg 2 (- e) ltac:(lia) ltac:(lia)) as Hp.
  unfold Qle, Qmult, inject_Z. cbn [Qnum Qden].
  rewrite Pos.mul_1_l, Z2Pos.id by assumption. lia.
Qed.

Lemma pos_times_pow_gt_half m e :
  0 <= e -> ~ (inject_Z (Zpos m) * Qpower 2 e <= 1 # 2)%Q.
Proof.
  intros He. rewrite <- (Zpower_Qpower 2 e) by assumption.
  pose proof (Z.pow_pos_nonneg 2 e ltac:(lia) ltac:(lia)) as Hp.
  unfold Qle, Qmult, inject_Z. cbn [Qnum Qden]. nia.
Qed.

Lemma neg_times_pow_le_half m e :
  (inject_Z (Zneg m) * Qpower 2 e <= 1 # 2)%Q.
Proof.
  apply Qle_trans with 0%Q; [|discriminate].
  assert (H : (0 <= Qpower 2 e)%Q) by (apply Qpower_pos; discriminate).
  setoid_replace 0%Q with (inject_Z (Zneg m) * 0)%Q by ring.
  setoid_rewrite Qmult_comm.
  rewrite <- (Qopp_involutive (Qpower 2 e * inject_Z (Z.neg m))),
          <- (Qopp_involutive (0 * inject_Z (Z.neg m))).
  apply Qopp_le_compat.
  setoid_replace (- (0 * inject_Z (Z.neg m)))%Q with 0%Q by ring.
  setoid_replace (- (Qpower 2 e * inject_Z (Z.neg m)))%Q
    with (Qpower 2 e * inject_Z (Zpos m))%Q by (change (Zneg m) with (- Zpos m); rewrite inject_Z_opp; ring).
  apply Qmult_le_0_compat; [assumption|]. unfold Qle; cbn; lia.
Qed.

Lemma pos_at_exponent_53 m :
  (inject_Z (Zpos m) * Qpower 2 (-53) <= 1 # 2)%Q <-> Zpos m <= 4503599627370496.
Proof.
  rewrite pos_times_pow_le_half by lia.
  replace (2 ^ (- -53)) with 9007199254740992 by reflexivity. lia.
Qed.

(** C9: the hit test is inclusive: on every float, [test_distance] answers
    [true] exactly when the value is at most one half (never on NaN, always
    on minus infinity); on [0.5] itself it answers [true]. *)
Theorem test_distance_inclusive d :
  valid_binary prec emax d = true ->
  (test_distance d = true <-> at_most_half d) /\ test_distance half = true.
Proof.
  intros Hv. split; [|reflexivity].
  destruct d as [s|s| |s m e]; cbn [at_most_half].
  - split; [trivial|reflexivity].
  - destruct s; cbn; split; congruence.
  - cbn; split; [discriminate|contradiction].
  - cbn [valid_binary] in Hv. unfold bounded, canonical_mantissa in Hv.
    apply andb_true_iff in Hv. destruct Hv as [Hc He].
    apply Z.eqb_eq in Hc. unfold fexp, emin, prec, emax in Hc.
    pose proof (digits2_bounds m) as [Hl Hu].
    set (dg := Zpos (digits2_pos m)) in *.
    unfold test_distance, fle, SFleb, half, F2Q.
    destruct s; cbn [SFcompare cond_Zopp Z.opp].
    + split; [intros _; apply neg_times_pow_le_half | reflexivity].
    + destruct (Z.compare_spec e (-53)) as [E|E|E].
      * subst e. rewrite pos_at_exponent_53, compare_cont_Z.
        destruct (Z.compare_spec (Zpos m) 4503599627370496);
          split; intros; try lia; try discriminate; reflexivity.
      * rewrite pos_times_pow_le_half by lia. split; [intros _|reflexivity].
        assert (dg <= 53) by lia.
        assert (2 ^ dg <= 2 ^ 53) by (apply Z.pow_le_mono_r; lia).
        assert (2 ^ 54 <= 2 ^ (- e)) by (apply Z.pow_le_mono_r; lia).
        assert (P53 : 2 ^ 53 = 9007199254740992) by reflexivity.
        assert (P54 : 2 ^ 54 = 18014398509481984) by reflexivity.
        lia.
      * split; [discriminate|]. intros H. exfalso.
        destruct (Z_lt_le_dec e 0) as [Hn|Hp].
        -- apply pos_times_pow_le_half in H; [|assumption].
           assert (dg = 53) by lia.
           assert (2 ^ (- e) <= 2 ^ 52) by (apply Z.pow_le_mono_r; lia).
           replace (dg - 1) with 52 in Hl by lia. lia.
        -- now apply pos_times_pow_gt_half in H.
Qed.

Lemma test_distance_inclusive_witness :
  valid_binary prec emax half = true /\
  (test_distance half = true <-> at_most_half half) /\ test_distance half = true.
Proof.
  split; [reflexivity|].
  apply (test_distance_inclusive half). reflexivity.
Defined.


(** ** The closed form and the rotation of the inputs *)

Lemma expected_exactb_sound n : expected_exactb n = true -> expected_exact n.
Proof.
  unfold expected_exactb, expected_exact. destruct (expected_result n) as [x|]; [|discriminate].
  intros H. apply andb_true_iff in H. destruct H as [Hf Hq].
  exists x. repeat split; auto. now apply Qeq_bool_iff.
Qed.

(** The closed form is exact on all of 1..1075, by evaluation. *)
Lemma expected_exactb_upto_1075 :
  forallb expected_exactb (map Z.of_nat (seq 1 1075)) = true.
Proof. vm_compute. reflexivity. Qed.

(** From 1076 ducks on, [1 / 2 ** (n - 1)] underflows to [0.0]. *)
Lemma div_eucl_small a b :
  0 <= a < b -> Z.div_eucl a b = (0, a).
Proof.
  intros H. pose proof (Z.div_small a b H) as Hq. pose proof (Z.mod_small a b H) as Hr.
  unfold Z.div, Z.modulo in *. destruct (Z.div_eucl a b) as [q r]. congruence.
Qed.

Lemma int_truediv_underflow e :
  1075 <= e -> int_truediv 1 (2 ^ e) = Ok zero.
Proof.
  intros He.
  pose proof (Z.pow_pos_nonneg 2 e ltac:(lia) ltac:(lia)) as Hp.
  assert (Hbig : 2 ^ 1075 <= 2 ^ e) by (apply Z.pow_le_mono_r; lia).
  assert (Hev : Z.even (2 ^ e) = true).
  { replace e with (Z.succ (e - 1)) by lia. rewrite Z.pow_succ_r by lia.
    rewrite Z.even_mul. reflexivity. }
  unfold int_truediv.
  replace (2 ^ e =? 0) with false by (symmetry; apply Z.eqb_neq; lia).
  destruct (2 ^ e) as [|p|p] eqn:Ep; try lia.
  assert (Hd : Zpos (digits2_pos p) = e + 1).
  { apply digits2_unique. rewrite <- Ep. replace (e + 1 - 1) with e by lia.
    split; [lia|]. apply Z.pow_lt_mono_r; lia. }
  unfold fdiv, SFdiv, Z2SF, SFdiv_core_binary. cbn [Zdigits2 digits2_pos]. rewrite Hd.
  replace (fexp prec emax (1 + 0 - (e + 1 + 0))) with (-1074)
    by (unfold fexp, emin, prec, emax; lia).
  change (Z.min (-1074) (0 - 0)) with (-1074).
  change (0 - 0 - -1074) with 1074. cbv iota.
  set (m := Z.shiftl 1 1074).
  assert (Hm : m = 2 ^ 1074) by reflexivity.
  rewrite div_eucl_small by (rewrite Hm; split; [apply Z.pow_nonneg; lia|];
    eapply Z.lt_le_trans; [|exact Hbig]; apply Z.pow_lt_mono_r; lia).
  unfold new_location. rewrite Hev. unfold new_location_even.
  replace (m =? 0) with false by (symmetry; apply Z.eqb_neq; rewrite Hm; apply Z.pow_nonzero; lia).
  assert (Hc : (2 * m ?= Zpos p) <> Gt).
  { apply Z.compare_le_iff. rewrite Hm.
    replace (2 * 2 ^ 1074) with (2 ^ 1075) by (now rewrite <- (Z.pow_succ_r 2 1074)).
    exact Hbig. }
  clearbody m. destruct (2 * m ?= Zpos p); try congruence; reflexivity.
Qed.

Lemma expected_result_from_1076 n x :
  1076 <= n -> expected_result n = Ok x -> x = S754_nan \/ (exists s, x = S754_zero s).
Proof.
  intros Hn. unfold expected_result, pow2.
  replace (0 <=? n - 1) with true by (symmetry; apply Z.leb_le; lia).
  cbn [rbind]. rewrite int_truediv_underflow by lia. cbn [rbind].
  unfold int_to_float.
  destruct (round n 0) as [s|s| |s m e]; cbn [rbind]; try discriminate;
    intros H; inversion H; subst; cbn; eauto.
Qed.

Lemma closed_form_nonzero n :
  1 <= n -> ~ (0 == inject_Z n / inject_Z (2 ^ (n - 1)))%Q.
Proof.
  intros Hn H.
  pose proof (Z.pow_pos_nonneg 2 (n - 1) ltac:(lia) ltac:(lia)) as Hp.
  destruct (2 ^ (n - 1)) as [|p|p]; try lia.
  unfold Qeq, Qdiv, Qmult, Qinv, inject_Z in H. cbn in H. lia.
Qed.

(** C4, as the code has it: for every [n >= 1], [expected_result n] is a
    float whose value is exactly [n / 2^(n-1)] if and only if [n <= 1075]
    (from 1076 on the factor [1 / 2 ** (n-1)] is [0.0]); in particular
    [expected_result 2 = 1.0] and [expected_result 4 = 0.5]. *)
Theorem expected_result_exact n :
  1 <= n ->
  (expected_exact n <-> n <= 1075) /\
  expected_result 2 = Ok one /\ expected_result 4 = Ok half.
Proof.
  intros Hn. split; [|split; reflexivity]. split.
  - intros (x & Hx & Hf & Hq).
    destruct (Z_le_gt_dec n 1075) as [|Hbig]; [assumption|exfalso].
    destruct (expected_result_from_1076 n x ltac:(lia) Hx) as [->|[s ->]].
    + discriminate.
    + now apply (closed_form_nonzero n Hn).
  - intros Hle. apply expected_exactb_sound.
    pose proof expected_exactb_upto_1075 as H. rewrite forallb_forall in H.
    apply H. apply in_map_iff. exists (Z.to_nat n).
    split; [apply Z2Nat.id; lia|].
    apply in_seq. clear H. lia.
Qed.

Lemma expected_result_exact_witness :
  1 <= 10 /\
  (expected_exact 10 <-> 10 <= 1075) /\
  expected_result 2 = Ok one /\ expected_result 4 = Ok half.
Proof.
  split; [lia|]. apply (expected_result_exact 10). lia.
Defined.

(** C4, as the claim words it, fails at [n = 1076]: [1 / 2 ** 1075]
    underflows to [0.0], so that [expected_result 1076] is [0.0], while
    [1076 / 2^1075] is not zero (and is itself a double). *)
Lemma expected_result_underflow :
  expected_result 1076 = Ok zero /\ ~ expected_exact 1076.
Proof.
  assert (E : expected_result 1076 = Ok zero) by (vm_compute; reflexivity).
  split; [exact E|]. intros (x & Hx & _ & Hq). rewrite E in Hx. inversion Hx; subst x.
  apply Qeq_bool_iff in Hq. vm_compute in Hq. discriminate.
Qed.

(** C5, as the claim words it, fails: the draws [0], [0.5 + 3 * 2^-53] and
    [4 * 2^-53] are a hit, because the generator rounds the rotated point
    [1 + 3 * 2^-53] to [1 + 4 * 2^-53] and the span is [0.5] exactly.
    Shifted by [c = - 4 * 2^-53] modulo 1 (an exact shift) they are
    [1 - 4 * 2^-53], [0.5 - 2^-53] and [0]; now no sum is rounded, the span
    is [0.5 + 2^-53] and the trial is a miss. *)
Lemma rotation_counterexample :
  Forall is_draw [grid 0; grid (2 ^ 52 + 3); grid 4] /\
  rotate_inputs (grid (-4)) [grid 0; grid (2 ^ 52 + 3); grid 4]
  = Ok (map grid [2 ^ 53 - 4; 2 ^ 52 - 1; 0]) /\
  outcome [grid 0; grid (2 ^ 52 + 3); grid 4] = Ok true /\
  outcome (map grid [2 ^ 53 - 4; 2 ^ 52 - 1; 0]) = Ok false.
Proof.
  split; [|repeat split; vm_compute; reflexivity].
  repeat constructor; eexists; (split; [|reflexivity]); split;
    solve [discriminate | reflexivity].
Qed.

Lemma wrap_even s :
  - 2 ^ 53 < s < 2 ^ 54 -> Z.even s = true -> wrap s = s mod 2 ^ 53.
Proof.
  intros Hs He. unfold wrap. destruct (Z.ltb_spec s (2 ^ 53)) as [H|H]; [reflexivity|].
  unfold rne2. rewrite He.
  assert (P53 : 2 ^ 53 = 9007199254740992) by reflexivity.
  assert (P54 : 2 ^ 54 = 18014398509481984) by reflexivity.
  apply Zeven_bool_iff, Zeven_div2 in He. rewrite Z.div2_div in He.
  apply Z.mod_unique with 1; lia.
Qed.

Lemma even_mod_2p53 s : Z.even s = true -> Z.even (s mod 2 ^ 53) = true.
Proof.
  intros He. rewrite Z.mod_eq by (change (2 ^ 53) with 9007199254740992; lia).
  rewrite Z.even_sub, He, Z.even_mul. reflexivity.
Qed.

Lemma rotate_even a0 a :
  0 <= a0 < 2 ^ 53 -> 0 <= a < 2 ^ 53 -> Z.even a0 = true -> Z.even a = true ->
  rotate a0 a = (a + 2 ^ 52 - a0) mod 2 ^ 53.
Proof.
  intros H0 Ha E0 Ea. unfold rotate.
  pow2_facts.
  rewrite wrap_even.
  - f_equal. lia.
  - lia.
  - rewrite Z.even_add, Z.even_sub, Ea, E0. reflexivity.
Qed.

(** On even integers nothing is rounded: the shift and the rotation are the
    additions modulo [2^53]. *)
Lemma shift_even a kc :
  0 <= a < 2 ^ 53 -> - 2 ^ 53 < kc < 2 ^ 53 -> Z.even a = true -> Z.even kc = true ->
  float_rem (fadd (grid a) (grid kc)) one = Ok (grid ((a + kc) mod 2 ^ 53)).
Proof.
  intros Ha Hc Ea Ec.
  assert (P53 : 2 ^ 53 = 9007199254740992) by reflexivity.
  assert (P54 : 2 ^ 54 = 18014398509481984) by reflexivity.
  assert (Es : Z.even (a + kc) = true) by (rewrite Z.even_add, Ea, Ec; reflexivity).
  rewrite fadd_grid, grid_wrap by lia.
  rewrite wrap_even by (exact Es || lia). reflexivity.
Qed.

(** On the even grid nothing rounds: when the input values are multiples of
    [2^-52] in [[0, 1)] and the offset [c] is a multiple of [2^-52] with
    [|c| < 1], shifting every input by [c] modulo 1 before the generation
    changes neither the sample nor the hit or miss outcome. *)
Lemma rotation_invariance_even_grid draws kc :
  draws <> [] -> Forall on_even_grid draws ->
  Z.even kc = true -> - 2 ^ 53 < kc < 2 ^ 53 ->
  exists shifted hit,
    rotate_inputs (grid kc) draws = Ok shifted /\
    rotate_and_sort shifted = rotate_and_sort draws /\
    outcome shifted = Ok hit /\ outcome draws = Ok hit.
Proof.
  intros Hne Hd Ec Hc.
  assert (Hks : exists ks, draws = map grid ks /\
                  Forall (fun k => in_range k /\ Z.even k = true) ks).
  { clear Hne. induction Hd as [|x l (k & Hk & Ek & ->) _ (ks & -> & Hks)].
    - exists []. split; [reflexivity|constructor].
    - exists (k :: ks). split; [reflexivity|]. constructor; [split; assumption|assumption]. }
  destruct Hks as (ks & -> & Hks).
  destruct ks as [|a0 rest]; [now contradiction Hne|].
  set (sh := fun a => (a + kc) mod 2 ^ 53).
  assert (Hsh : rotate_inputs (grid kc) (map grid (a0 :: rest))
                = Ok (map grid (map sh (a0 :: rest)))).
  { unfold rotate_inputs. rewrite (mapM_map _ _ (fun a => grid (sh a))).
    - now rewrite map_map.
    - intros a Hin. rewrite Forall_forall in Hks. destruct (Hks a Hin) as [Hr He].
      apply shift_even; assumption. }
  assert (Hrange : Forall in_range (a0 :: rest)).
  { eapply Forall_impl; [|exact Hks]. now intros a [? _]. }
  assert (Hrange' : Forall in_range (map sh (a0 :: rest))).
  { apply Forall_map. eapply Forall_impl; [|exact Hks]. intros a _.
    apply Z.mod_pos_bound. reflexivity. }
  assert (Hsame : map (rotate (sh a0)) (map sh (a0 :: rest)) = map (rotate a0) (a0 :: rest)).
  { rewrite map_map. apply map_ext_in. intros a Hin.
    rewrite Forall_forall in Hks.
    destruct (Hks a Hin) as [Hr He]. destruct (Hks a0 (or_introl eq_refl)) as [Hr0 He0].
    assert (P53 : 0 < 2 ^ 53) by reflexivity.
    rewrite !rotate_even; try assumption;
      try (apply Z.mod_pos_bound; assumption);
      try (apply even_mod_2p53; rewrite Z.even_add, ?He, ?He0, Ec; reflexivity).
    unfold sh.
    rewrite Zminus_mod, (Zplus_mod ((a + kc) mod 2 ^ 53)), !Zmod_mod.
    rewrite <- Zplus_mod, <- Zminus_mod. f_equal. lia. }
  assert (Hsample : rotate_and_sort (map grid (map sh (a0 :: rest)))
                    = rotate_and_sort (map grid (a0 :: rest))).
  { change (map sh (a0 :: rest)) with (sh a0 :: map sh rest) in *.
    rewrite (rotate_and_sort_grid (sh a0) (map sh rest)) by exact Hrange'.
    rewrite (rotate_and_sort_grid a0 rest) by exact Hrange.
    now rewrite Hsame. }
  assert (Hout : outcome (map grid (map sh (a0 :: rest))) = outcome (map grid (a0 :: rest))).
  { unfold outcome, span_of. now rewrite Hsample. }
  destruct (span_of_total (grid a0) (map grid rest)) as [d Hd'].
  exists (map grid (map sh (a0 :: rest))), (test_distance d).
  split; [exact Hsh|]. split; [exact Hsample|].
  rewrite Hout. unfold outcome. cbn [map]. rewrite Hd'.
  split; reflexivity.
Qed.

(** * Further properties of the notebook *)

(** ** The span of a sample *)

Lemma sorted_last {A} (R : A -> A -> Prop) l x :
  StronglySorted R (l ++ [x]) -> Forall (fun y => R y x) l.
Proof.
  induction l as [|y l IH]; intros H; [constructor|].
  cbn [app] in H. inversion H as [|? ? Hs Hall]; subst. constructor.
  - rewrite Forall_forall in Hall. apply Hall, in_or_app. right. now left.
  - now apply IH.
Qed.

Lemma fle_grid_refl a : Z.abs a < 2 ^ 53 -> fle (grid a) (grid a) = true.
Proof. intros H. rewrite fle_grid by assumption. apply Z.leb_refl. Qed.

(** The first and the last element of a sorted list of values of the grid
    are its least and its greatest one. *)
Lemma sample_extremes rs :
  rs <> [] -> Forall in_range rs ->
  exists lo hi,
    In lo rs /\ In hi rs /\ (forall r, In r rs -> lo <= r <= hi) /\
    py_index (list_sort (map grid rs)) 0 = Ok (grid lo) /\
    py_index (list_sort (map grid rs)) (-1) = Ok (grid hi).
Proof.
  intros Hne Hr.
  assert (Hd : Forall is_draw (map grid rs)).
  { apply Forall_map. eapply Forall_impl; [|exact Hr].
    intros a Ha. exists a. split; [exact Ha | reflexivity]. }
  pose proof (list_sort_perm (map grid rs)) as Hperm.
  pose proof (list_sort_ascending _ Hd) as Hasc.
  pose proof (list_sort_length (map grid rs)) as Hlen. rewrite length_map in Hlen.
  set (ducks := list_sort (map grid rs)) in *.
  assert (Hin : forall x, In x ducks -> exists r, In r rs /\ x = grid r).
  { intros x Hx. apply (Permutation_in _ Hperm), in_map_iff in Hx.
    destruct Hx as (r & E & Hin). now exists r. }
  assert (Hrange : forall r, In r rs -> Z.abs r < 2 ^ 53).
  { intros r Hin'. rewrite Forall_forall in Hr. specialize (Hr r Hin').
    unfold in_range in Hr. lia. }
  assert (Hducks : ducks <> []).
  { intros E. rewrite E in Hlen. destruct rs; [congruence|discriminate]. }
  destruct (py_index_last_total ducks Hducks) as (l & Hl & El).
  destruct ducks as [|f tl] eqn:Ed; [congruence|].
  destruct (Hin f (or_introl eq_refl)) as (lo & Hlo & Ef).
  destruct (Hin l) as (hi & Hhi & Eh).
  { rewrite El. apply in_or_app. right. now left. }
  exists lo, hi. repeat split; auto.
  - assert (Hg : In (grid r) (f :: tl)).
    { apply (Permutation_in _ (Permutation_sym Hperm)). now apply in_map. }
    assert (Hle : fle f (grid r) = true).
    { destruct Hg as [<-|Hg].
      - rewrite Ef. apply fle_grid_refl. auto.
      - inversion Hasc as [|? ? _ Hall]; subst. rewrite Forall_forall in Hall. auto. }
    rewrite Ef, fle_grid in Hle by auto. now apply Z.leb_le.
  - assert (Hg : In (grid r) (f :: tl)).
    { apply (Permutation_in _ (Permutation_sym Hperm)). now apply in_map. }
    assert (Hle : fle (grid r) l = true).
    { rewrite El in Hg, Hasc. apply in_app_or in Hg. destruct Hg as [Hg|[E|[]]].
      - apply sorted_last in Hasc. rewrite Forall_forall in Hasc. auto.
      - rewrite <- E, Eh. apply fle_grid_refl. auto. }
    rewrite Eh, fle_grid in Hle by auto. now apply Z.leb_le.
  - rewrite py_index_0. now rewrite Ef.
  - rewrite Hl. now rewrite Eh.
Qed.

Lemma rotated_in_range a0 ks :
  Forall in_range (a0 :: ks) -> Forall in_range (map (rotate a0) (a0 :: ks)).
Proof.
  intros H. apply Forall_map. inversion H as [|? ? H0 Hks]; subst.
  eapply Forall_impl; [|exact H]. intros a Ha. now apply rotate_range.
Qed.

(** One trial on values drawn, computed on the integers: the span is the
    difference between the greatest and the least rotated draw, with no
    rounding, and the verdict compares it with [2^52]. *)
Lemma span_grid a0 rest :
  Forall in_range (a0 :: rest) ->
  exists lo hi,
    In lo (map (rotate a0) (a0 :: rest)) /\ In hi (map (rotate a0) (a0 :: rest)) /\
    (forall r, In r (map (rotate a0) (a0 :: rest)) -> lo <= r <= hi) /\
    rbind (rotate_and_sort (map grid (a0 :: rest))) (fun ducks => py_index ducks 0)
      = Ok (grid lo) /\
    rbind (rotate_and_sort (map grid (a0 :: rest))) (fun ducks => py_index ducks (-1))
      = Ok (grid hi) /\
    span_of (map grid (a0 :: rest)) = Ok (grid (hi - lo)) /\
    outcome (map grid (a0 :: rest)) = Ok (hi - lo <=? 2 ^ 52).
Proof.
  intros H. pose proof (rotated_in_range a0 rest H) as Hr.
  destruct (sample_extremes (map (rotate a0) (a0 :: rest))) as (lo & hi & Hlo & Hhi & Hb & E0 & E1);
    [discriminate | exact Hr |].
  exists lo, hi.
  assert (Rlo : in_range lo) by (rewrite Forall_forall in Hr; auto).
  assert (Rhi : in_range hi) by (rewrite Forall_forall in Hr; auto).
  unfold in_range in Rlo, Rhi. pose proof (Hb lo Hlo) as Hlh.
  assert (Es : span_of (map grid (a0 :: rest)) = Ok (grid (hi - lo))).
  { unfold span_of. rewrite rotate_and_sort_grid by assumption. cbn [rbind].
    unfold calculate_distance. rewrite E1. cbn [rbind]. rewrite E0. cbn [rbind].
    pow2_facts. rewrite fsub_grid by lia. reflexivity. }
  split; [exact Hlo|]. split; [exact Hhi|]. split; [exact Hb|].
  split; [rewrite rotate_and_sort_grid by assumption; exact E0|].
  split; [rewrite rotate_and_sort_grid by assumption; exact E1|].
  split; [exact Es|].
  unfold outcome. rewrite Es. cbn [rbind]. unfold test_distance.
    pow2_facts. rewrite half_grid, fle_grid by lia. reflexivity.
Qed.

(** ** The rotation on the integers *)

Lemma rne2_near k : 2 * rne2 k - 1 <= k <= 2 * rne2 k + 1.
Proof.
  unfold rne2. pose proof (Z.div_mod k 2 ltac:(lia)) as H.
  rewrite Zmod_even in H.
  destruct (Z.even k); [lia|]. destruct (Z.even (k / 2)); lia.
Qed.

Lemma rotate_self a0 : 0 <= a0 < 2 ^ 53 -> rotate a0 a0 = 2 ^ 52.
Proof.
  intros H. unfold rotate, wrap. replace (a0 + (2 ^ 52 - a0)) with (2 ^ 52) by lia.
  reflexivity.
Qed.

(** The rotated draw against the exact rotation [(a + 2^52 - a0) mod 2^53]:
    equal from one half on, at most one unit away below. *)
Lemma rotate_near a0 a :
  0 <= a0 < 2 ^ 53 -> 0 <= a < 2 ^ 53 ->
  (2 ^ 52 <= (a + 2 ^ 52 - a0) mod 2 ^ 53 -> rotate a0 a = (a + 2 ^ 52 - a0) mod 2 ^ 53) /\
  ((a + 2 ^ 52 - a0) mod 2 ^ 53 - 1 <= rotate a0 a <= (a + 2 ^ 52 - a0) mod 2 ^ 53 + 1) /\
  ((a + 2 ^ 52 - a0) mod 2 ^ 53 < 2 ^ 52 -> rotate a0 a <= 2 ^ 52).
Proof.
  intros H0 Ha. unfold rotate, wrap.
  replace (a + (2 ^ 52 - a0)) with (a + 2 ^ 52 - a0) by lia.
  set (s := a + 2 ^ 52 - a0). pow2_facts.
  assert (Hs : - 2 ^ 52 < s < 3 * 2 ^ 52) by (unfold s; lia).
  destruct (Z.ltb_spec s (2 ^ 53)) as [Hlt|Hge].
  - split; [reflexivity|]. split; lia.
  - assert (Et : s mod 2 ^ 53 = s - 2 ^ 53).
    { symmetry. apply (Z.mod_unique s (2 ^ 53) 1); lia. }
    rewrite Et. pose proof (rne2_near s) as Hn. split; [lia|]. split; [lia|].
    intros _. pose proof (rne2_bounds s ltac:(lia)) as Hb.
    destruct (Z.eq_dec (2 * rne2 s - 2 ^ 53) (2 ^ 52 + 1)) as [E|E]; [|lia].
    exfalso. assert (Ev : Z.even (2 * rne2 s - 2 ^ 53) = true).
    { rewrite Z.even_sub, Z.even_mul. reflexivity. }
    rewrite E in Ev. discriminate.
Qed.

Lemma mod_shift x q : (x + q * 2 ^ 53) mod 2 ^ 53 = x mod 2 ^ 53.
Proof. apply Z_mod_plus_full. Qed.

(** Exact rotated positions between [L] and [L + len] put the draws on an
    arc of length [len]. *)
Lemma arc_from_bounds a0 ks L len :
  0 <= L ->
  (forall a, In a ks -> L <= (a + 2 ^ 52 - a0) mod 2 ^ 53 <= L + len) ->
  on_arc ((L - 2 ^ 52 + a0) mod 2 ^ 53) len ks.
Proof.
  intros HL H. unfold on_arc. apply Forall_forall. intros a Hin.
  specialize (H a Hin).
  pose proof (Z.mod_pos_bound (a + 2 ^ 52 - a0) (2 ^ 53) ltac:(reflexivity)) as Hb.
  rewrite Zminus_mod_idemp_r.
  replace (a - (L - 2 ^ 52 + a0)) with (a + 2 ^ 52 - a0 - L) by lia.
  rewrite <- Zminus_mod_idemp_l. rewrite Z.mod_small by lia. lia.
Qed.

Lemma in_rotated a0 ks a : In a ks -> In (rotate a0 a) (map (rotate a0) ks).
Proof. apply in_map. Qed.

(** ** The quotient of an integer by itself *)

Lemma div_eucl_self p : Z.div_eucl (Zpos p * 2 ^ 53) (Zpos p) = (2 ^ 53, 0).
Proof.
  pose proof (Z.div_mul (2 ^ 53) (Zpos p) ltac:(lia)) as Hq.
  pose proof (Z.mod_mul (2 ^ 53) (Zpos p) ltac:(lia)) as Hr.
  rewrite (Z.mul_comm (Zpos p)).
  unfold Z.div, Z.modulo in *. destruct (Z.div_eucl _ _) as [q r].
  now rewrite Hq, Hr.
Qed.

(** [k / k] is [1.0] for every integer [k >= 1], however large. *)
Lemma fdiv_self k : 1 <= k -> fdiv (Z2SF k) (Z2SF k) = one.
Proof.
  intros Hk. destruct k as [|p|p]; try lia.
  unfold fdiv, SFdiv, Z2SF, SFdiv_core_binary. cbn [Zdigits2].
  replace (Zpos (digits2_pos p) + 0 - (Zpos (digits2_pos p) + 0)) with 0 by lia.
  replace (fexp prec emax 0) with (-53) by reflexivity.
  change (Z.min (-53) (0 - 0)) with (-53).
  change (0 - 0 - -53) with 53. cbv iota.
  rewrite Z.shiftl_mul_pow2 by lia. rewrite div_eucl_self.
  unfold new_location, new_location_even, new_location_odd.
  change (0 =? 0) with true. destruct (Z.even (Zpos p)); reflexivity.
Qed.

(** The run of [test] on [n >= 1] ducks and [k >= 1] iterations. *)
Lemma test_run g n k pos :
  1 <= n -> 1 <= k ->
  test g k n pos
  = Ok ((PList [],
         PInt (hit_count g pos (Z.to_nat n) (Z.to_nat k)),
         PFloat (fdiv (Z2SF (hit_count g pos (Z.to_nat n) (Z.to_nat k))) (Z2SF k))),
        (pos + Z.to_nat k * Z.to_nat n)%nat).
Proof.
  intros Hn Hk. unfold test, bind.
  pose proof (test_loop_spec g n (Z.to_nat k) pos Hn 0%nat 0) as H.
  rewrite Nat.mul_0_l, Nat.add_0_r, Z.add_0_l, Nat.add_0_l in H. rewrite H.
  fold (hit_count g pos (Z.to_nat n) (Z.to_nat k)).
  pose proof (hit_count_le g pos (Z.to_nat n) (Z.to_nat k)) as Hle.
  unfold lift. rewrite int_truediv_le by lia. reflexivity.
Qed.

Lemma filter_all {A} (f : A -> bool) l :
  (forall x, In x l -> f x = true) -> filter f l = l.
Proof.
  induction l as [|x l IH]; intros H; [reflexivity|].
  cbn [filter]. rewrite (H x (or_introl eq_refl)), IH; [reflexivity|].
  intros y Hy. apply H. now right.
Qed.

(** A run whose trials are all hits counts them all. *)
Lemma hit_count_all g pos count iters :
  (forall i, (i < iters)%nat -> trial_hit g pos count i = true) ->
  hit_count g pos count iters = Z.of_nat iters.
Proof.
  intros H. unfold hit_count. rewrite filter_all, length_seq; [reflexivity|].
  intros i Hi. apply in_seq in Hi. apply H. lia.
Qed.

Lemma trial_hit_outcome g pos count i :
  outcome (window g (pos + i * count) count) = Ok true -> trial_hit g pos count i = true.
Proof.
  unfold outcome, trial_hit, test_distance.
  destruct (span_of _); cbn [rbind]; congruence.
Qed.

(** ** Values drawn as integers *)

Lemma grid_inj a b :
  Z.abs a < 2 ^ 53 -> Z.abs b < 2 ^ 53 -> grid a = grid b -> a = b.
Proof.
  intros Ha Hb E. pose proof (SFcompare_grid a b Ha Hb) as H.
  rewrite E, SFcompare_grid in H by assumption.
  rewrite Z.compare_refl in H. apply Z.compare_eq. congruence.
Qed.

Lemma draws_grid l :
  Forall is_draw l -> exists ks, l = map grid ks /\ Forall in_range ks.
Proof.
  induction 1 as [|x l (k & Hk & ->) _ (ks & -> & Hks)].
  - exists []. split; [reflexivity | constructor].
  - exists (k :: ks). split; [reflexivity | now constructor].
Qed.

Lemma in_range_abs k : in_range k -> Z.abs k < 2 ^ 53.
Proof. unfold in_range. lia. Qed.

(** The rotated draws of two samples that share the first draw and hold the
    same other draws, in any order, are the same values. *)
Lemma rotated_perm a0 ks ks' r :
  Forall in_range ks -> Forall in_range ks' ->
  Permutation (map grid ks) (map grid ks') ->
  In r (map (rotate a0) (a0 :: ks)) -> In r (map (rotate a0) (a0 :: ks')).
Proof.
  intros Hk Hk' Hp [E|Hin]; [now left|]. right.
  apply in_map_iff in Hin. destruct Hin as (a & <- & Ha).
  assert (Hg : In (grid a) (map grid ks')).
  { apply (Permutation_in _ Hp). now apply in_map. }
  apply in_map_iff in Hg. destruct Hg as (b & E & Hb).
  rewrite Forall_forall in Hk, Hk'.
  apply grid_inj in E; [|apply in_range_abs; auto ..]. subst b.
  now apply in_map.
Qed.

(** ** The sample and its span *)

Lemma mapM_compose {A B C} (f : B -> result C) (h : A -> B) l :
  mapM f (map h l) = mapM (fun x => f (h x)) l.
Proof.
  induction l as [|x l IH]; [reflexivity|]. cbn [map mapM]. now rewrite IH.
Qed.

(** X1: [generate_ducks] neither drops nor invents a duck: whatever floats the
    generator draws, the sample returned holds exactly the values
    [(v + (0.5 - v0)) % 1] of the draws [v], each as often as it occurs,
    in some order. *)
Theorem generate_ducks_permutes g n pos :
  1 <= n ->
  exists wrapped ducks,
    wrapped_draws (window g pos (Z.to_nat n)) = Ok wrapped /\
    generate_ducks g n pos = Ok (ducks, (pos + Z.to_nat n)%nat) /\
    Permutation ducks wrapped.
Proof.
  intros Hn. rewrite generate_ducks_unfold, window_nonempty by lia.
  set (x := g pos). set (l := window g (S pos) (Z.to_nat n - 1)).
  unfold wrapped_draws, rotate_and_sort. rewrite py_index_0. cbn [rbind].
  rewrite mapM_compose.
  destruct (mapM_total (fun v => float_rem (fadd v (fsub half x)) one) (x :: l))
    as (ys & E & _).
  - intros v _. apply float_rem_one_total.
  - rewrite E. cbn [rbind]. exists ys, (list_sort ys).
    split; [reflexivity|]. split; [reflexivity|]. apply list_sort_perm.
Qed.

Lemma generate_ducks_permutes_witness :
  1 <= 3 /\
  exists wrapped ducks,
    wrapped_draws (window spread 0 (Z.to_nat 3)) = Ok wrapped /\
    generate_ducks spread 3 0%nat = Ok (ducks, (0 + Z.to_nat 3)%nat) /\
    Permutation ducks wrapped.
Proof.
  split; [lia|]. apply (generate_ducks_permutes spread 3 0%nat). lia.
Defined.

(** X2: On values drawn the span [calculate_distance] returns is exact and is a
    distance: the sample has a least element [lo] and a greatest element
    [hi], the span is the float [hi - lo], its value is the difference of
    the two values with no rounding error, and it lies in [[0, 1)]. *)
Theorem span_exact g n pos :
  1 <= n ->
  (forall i, (pos <= i < pos + Z.to_nat n)%nat -> is_draw (g i)) ->
  exists ducks lo hi,
    generate_ducks g n pos = Ok (ducks, (pos + Z.to_nat n)%nat) /\
    In lo ducks /\ In hi ducks /\
    Forall (fun x => fle lo x = true /\ fle x hi = true) ducks /\
    calculate_distance ducks = Ok (fsub hi lo) /\
    (F2Q (fsub hi lo) == F2Q hi - F2Q lo)%Q /\
    in_unit (fsub hi lo).
Proof.
  intros Hn Hg.
  destruct (generate_ducks_grid g n pos Hn Hg) as (a0 & rest & _ & Hr & _ & ->).
  pose proof (rotated_in_range a0 rest Hr) as Hrs.
  set (rs := map (rotate a0) (a0 :: rest)) in *.
  destruct (sample_extremes rs) as (lo & hi & Hlo & Hhi & Hb & E0 & E1);
    [discriminate | exact Hrs |].
  pose proof (list_sort_perm (map grid rs)) as Hperm.
  assert (Rall : forall r, In r rs -> 0 <= r < 2 ^ 53)
    by (rewrite Forall_forall in Hrs; exact Hrs).
  pose proof (Rall lo Hlo) as Rlo. pose proof (Rall hi Hhi) as Rhi.
  pose proof (Hb lo Hlo) as Hlh. pow2_facts.
  exists (list_sort (map grid rs)), (grid lo), (grid hi).
  split; [reflexivity|].
  split; [apply (Permutation_in _ (Permutation_sym Hperm)); now apply in_map|].
  split; [apply (Permutation_in _ (Permutation_sym Hperm)); now apply in_map|].
  split.
  { apply Forall_forall. intros x Hx.
    apply (Permutation_in _ Hperm), in_map_iff in Hx. destruct Hx as (r & <- & Hin).
    pose proof (Rall r Hin). pose proof (Hb r Hin).
    rewrite !fle_grid by lia. split; apply Z.leb_le; lia. }
  split.
  { unfold calculate_distance. rewrite E1. cbn [rbind]. rewrite E0. reflexivity. }
  rewrite fsub_grid by lia. split.
  - rewrite !grid_value by lia.
    unfold Z.sub. rewrite inject_Z_plus, inject_Z_opp. field. discriminate.
  - apply draw_in_unit. exists (hi - lo). split; [lia | reflexivity].
Qed.

Lemma span_exact_witness :
  1 <= 3 /\
  (forall i, (0 <= i < 0 + Z.to_nat 3)%nat -> is_draw (spread i)) /\
  exists ducks lo hi,
    generate_ducks spread 3 0%nat = Ok (ducks, (0 + Z.to_nat 3)%nat) /\
    In lo ducks /\ In hi ducks /\
    Forall (fun x => fle lo x = true /\ fle x hi = true) ducks /\
    calculate_distance ducks = Ok (fsub hi lo) /\
    (F2Q (fsub hi lo) == F2Q hi - F2Q lo)%Q /\
    in_unit (fsub hi lo).
Proof.
  split; [lia|]. split; [intros i _; apply spread_draws|].
  apply (span_exact spread 3 0%nat); [lia|]. intros i _. apply spread_draws.
Defined.

(** X3: The verdict of a trial does not depend on the order in which the ducks
    after the first are drawn: on values drawn, two samples with the same
    first draw and the same other draws in any order have the same span and
    the same verdict. *)
Theorem outcome_order_of_others x rest rest' :
  Forall is_draw (x :: rest) -> Permutation rest rest' ->
  span_of (x :: rest) = span_of (x :: rest') /\
  outcome (x :: rest) = outcome (x :: rest').
Proof.
  intros Hd Hp.
  assert (Hd' : Forall is_draw (x :: rest')).
  { inversion Hd; subst. constructor; [assumption|].
    eapply Permutation_Forall; eassumption. }
  inversion Hd as [|? ? (a0 & H0 & ->) Hrest]; subst.
  inversion Hd' as [|? ? _ Hrest']; subst.
  destruct (draws_grid _ Hrest) as (ks & -> & Hks).
  destruct (draws_grid _ Hrest') as (ks' & -> & Hks').
  assert (R : Forall in_range (a0 :: ks)) by now constructor.
  assert (R' : Forall in_range (a0 :: ks')) by now constructor.
  destruct (span_grid a0 ks R) as (lo & hi & Hlo & Hhi & Hb & _ & _ & Es & Eo).
  destruct (span_grid a0 ks' R') as (lo' & hi' & Hlo' & Hhi' & Hb' & _ & _ & Es' & Eo').
  change (grid a0 :: map grid ks) with (map grid (a0 :: ks)).
  change (grid a0 :: map grid ks') with (map grid (a0 :: ks')).
  assert (Elo : lo = lo').
  { pose proof (Hb' lo (rotated_perm a0 ks ks' lo Hks Hks' Hp Hlo)).
    pose proof (Hb lo' (rotated_perm a0 ks' ks lo' Hks' Hks (Permutation_sym Hp) Hlo')).
    lia. }
  assert (Ehi : hi = hi').
  { pose proof (Hb' hi (rotated_perm a0 ks ks' hi Hks Hks' Hp Hhi)).
    pose proof (Hb hi' (rotated_perm a0 ks' ks hi' Hks' Hks (Permutation_sym Hp) Hhi')).
    lia. }
  rewrite Es, Es', Eo, Eo', Elo, Ehi. split; reflexivity.
Qed.

Lemma outcome_order_of_others_witness :
  Forall is_draw [grid 0; grid 1; grid (2 ^ 52)] /\
  Permutation [grid 1; grid (2 ^ 52)] [grid (2 ^ 52); grid 1] /\
  span_of [grid 0; grid 1; grid (2 ^ 52)] = span_of [grid 0; grid (2 ^ 52); grid 1] /\
  outcome [grid 0; grid 1; grid (2 ^ 52)] = outcome [grid 0; grid (2 ^ 52); grid 1].
Proof.
  assert (H : Forall is_draw [grid 0; grid 1; grid (2 ^ 52)]).
  { repeat constructor; eexists; (split; [|reflexivity]); split;
      solve [discriminate | reflexivity]. }
  split; [exact H|]. split; [apply perm_swap|].
  apply (outcome_order_of_others (grid 0) [grid 1; grid (2 ^ 52)] [grid (2 ^ 52); grid 1] H).
  apply perm_swap.
Defined.

(** ** The verdict and the geometry of the pond *)

(** X4: A hit is sound up to one unit of the grid: when the trial on the draws
    [a / 2^53] reports that the ducks are on one side of the pond, all the
    draws lie on one arc of length [0.5 + 2^-53] of the circle. *)
Theorem hit_sound a0 rest :
  Forall in_range (a0 :: rest) ->
  outcome (map grid (a0 :: rest)) = Ok true ->
  exists s, 0 <= s < 2 ^ 53 /\ on_arc s (2 ^ 52 + 1) (a0 :: rest).
Proof.
  intros R Ho.
  destruct (span_grid a0 rest R) as (lo & hi & Hlo & Hhi & Hb & _ & _ & _ & Eo).
  rewrite Eo in Ho. injection Ho as Ho. apply Z.leb_le in Ho.
  pose proof (rotated_in_range a0 rest R) as Hrs. rewrite Forall_forall in Hrs.
  pose proof (Hrs lo Hlo) as Rlo. unfold in_range in Rlo.
  assert (R0 : 0 <= a0 < 2 ^ 53) by (now inversion R).
  assert (Hanchor : 2 ^ 52 <= hi).
  { rewrite <- (rotate_self a0 R0). apply Hb. now left. }
  exists ((Z.max 0 (lo - 1) - 2 ^ 52 + a0) mod 2 ^ 53).
  split; [apply Z.mod_pos_bound; reflexivity|].
  apply arc_from_bounds; [lia|]. intros a Ha.
  assert (Ra : 0 <= a < 2 ^ 53) by (rewrite Forall_forall in R; now apply R).
  destruct (rotate_near a0 a R0 Ra) as (Hbig & Hnear & _).
  pose proof (Hb (rotate a0 a) (in_rotated a0 _ a Ha)) as Hr.
  pose proof (Z.mod_pos_bound (a + 2 ^ 52 - a0) (2 ^ 53) ltac:(reflexivity)) as Hm.
  destruct (Z_lt_le_dec ((a + 2 ^ 52 - a0) mod 2 ^ 53) (2 ^ 52)) as [Hlt|Hge].
  - lia.
  - specialize (Hbig Hge). lia.
Qed.

Lemma hit_sound_witness :
  Forall in_range [0; 2 ^ 52 + 3; 4] /\
  outcome (map grid [0; 2 ^ 52 + 3; 4]) = Ok true /\
  exists s, 0 <= s < 2 ^ 53 /\ on_arc s (2 ^ 52 + 1) [0; 2 ^ 52 + 3; 4].
Proof.
  assert (R : Forall in_range [0; 2 ^ 52 + 3; 4])
    by (repeat constructor; solve [discriminate | reflexivity]).
  assert (H : outcome (map grid [0; 2 ^ 52 + 3; 4]) = Ok true)
    by (vm_compute; reflexivity).
  split; [exact R|]. split; [exact H|].
  exact (hit_sound 0 [2 ^ 52 + 3; 4] R H).
Defined.

(** X5: On draws that are multiples of [2^-52] no rounding takes place and a
    hit is sound exactly: all the draws lie on one arc of length [0.5]. *)
Theorem hit_sound_even_grid a0 rest :
  Forall in_range (a0 :: rest) ->
  Forall (fun a => Z.even a = true) (a0 :: rest) ->
  outcome (map grid (a0 :: rest)) = Ok true ->
  exists s, 0 <= s < 2 ^ 53 /\ on_arc s (2 ^ 52) (a0 :: rest).
Proof.
  intros R Hev Ho.
  destruct (span_grid a0 rest R) as (lo & hi & Hlo & Hhi & Hb & _ & _ & _ & Eo).
  rewrite Eo in Ho. injection Ho as Ho. apply Z.leb_le in Ho.
  pose proof (rotated_in_range a0 rest R) as Hrs. rewrite Forall_forall in Hrs.
  pose proof (Hrs lo Hlo) as Rlo. unfold in_range in Rlo.
  assert (R0 : 0 <= a0 < 2 ^ 53) by (now inversion R).
  assert (E0 : Z.even a0 = true) by (now inversion Hev).
  exists ((lo - 2 ^ 52 + a0) mod 2 ^ 53).
  split; [apply Z.mod_pos_bound; reflexivity|].
  apply arc_from_bounds; [lia|]. intros a Ha.
  assert (Ra : 0 <= a < 2 ^ 53) by (rewrite Forall_forall in R; now apply R).
  assert (Ea : Z.even a = true) by (rewrite Forall_forall in Hev; now apply Hev).
  pose proof (Hb (rotate a0 a) (in_rotated a0 _ a Ha)) as Hr.
  rewrite rotate_even in Hr by assumption. lia.
Qed.

Lemma hit_sound_even_grid_witness :
  Forall in_range [0; 2 ^ 52 + 4; 4] /\
  Forall (fun a => Z.even a = true) [0; 2 ^ 52 + 4; 4] /\
  outcome (map grid [0; 2 ^ 52 + 4; 4]) = Ok true /\
  exists s, 0 <= s < 2 ^ 53 /\ on_arc s (2 ^ 52) [0; 2 ^ 52 + 4; 4].
Proof.
  assert (R : Forall in_range [0; 2 ^ 52 + 4; 4])
    by (repeat constructor; solve [discriminate | reflexivity]).
  assert (E : Forall (fun a => Z.even a = true) [0; 2 ^ 52 + 4; 4])
    by (repeat constructor).
  assert (H : outcome (map grid [0; 2 ^ 52 + 4; 4]) = Ok true)
    by (vm_compute; reflexivity).
  split; [exact R|]. split; [exact E|]. split; [exact H|].
  exact (hit_sound_even_grid 0 [2 ^ 52 + 4; 4] R E H).
Defined.

(** X6: Every configuration that fits an arc shorter than half the circle is
    reported: when all the draws [a / 2^53] lie on one arc of length
    [0.5 - 2^-53], the trial is a hit, whichever draw comes first. *)
Theorem hit_complete a0 rest s :
  Forall in_range (a0 :: rest) ->
  on_arc s (2 ^ 52 - 1) (a0 :: rest) ->
  outcome (map grid (a0 :: rest)) = Ok true.
Proof.
  intros R Harc.
  destruct (span_grid a0 rest R) as (lo & hi & Hlo & Hhi & Hb & _ & _ & _ & ->).
  f_equal. apply Z.leb_le.
  assert (R0 : 0 <= a0 < 2 ^ 53) by (now inversion R).
  unfold on_arc in Harc. rewrite Forall_forall in Harc.
  pose proof (Harc a0 (or_introl eq_refl)) as Hu0. cbv beta in Hu0.
  pose proof (Z.mod_pos_bound (a0 - s) (2 ^ 53) ltac:(reflexivity)) as Hm0.
  set (u0 := (a0 - s) mod 2 ^ 53) in *.
  assert (Hall : forall r, In r (map (rotate a0) (a0 :: rest)) ->
                           2 ^ 52 - u0 - 1 <= r <= 2 ^ 52 - u0 + 2 ^ 52 - 1).
  { intros r Hr. apply in_map_iff in Hr. destruct Hr as (a & <- & Ha).
    assert (Ra : 0 <= a < 2 ^ 53) by (rewrite Forall_forall in R; now apply R).
    pose proof (Harc a Ha) as Hu. cbv beta in Hu.
    pose proof (Z.mod_pos_bound (a - s) (2 ^ 53) ltac:(reflexivity)) as Hm.
    set (u := (a - s) mod 2 ^ 53) in *.
    assert (Et : (a + 2 ^ 52 - a0) mod 2 ^ 53 = u - u0 + 2 ^ 52).
    { pose proof (Z.div_mod (a - s) (2 ^ 53) ltac:(discriminate)) as D.
      pose proof (Z.div_mod (a0 - s) (2 ^ 53) ltac:(discriminate)) as D0.
      fold u in D. fold u0 in D0.
      replace (a + 2 ^ 52 - a0)
        with (u - u0 + 2 ^ 52 + ((a - s) / 2 ^ 53 - (a0 - s) / 2 ^ 53) * 2 ^ 53) by lia.
      rewrite mod_shift. apply Z.mod_small. pow2_facts. lia. }
    destruct (rotate_near a0 a R0 Ra) as (Hbig & Hnear & Hsmall).
    rewrite Et in Hbig, Hnear, Hsmall. pow2_facts.
    destruct (Z_lt_le_dec (u - u0 + 2 ^ 52) (2 ^ 52)) as [Hlt|Hge].
    - specialize (Hsmall Hlt). lia.
    - specialize (Hbig Hge). lia. }
  pose proof (Hall lo Hlo). pose proof (Hall hi Hhi). pow2_facts. lia.
Qed.

Lemma hit_complete_witness :
  Forall in_range [1; 2 ^ 52; 5] /\
  on_arc 1 (2 ^ 52 - 1) [1; 2 ^ 52; 5] /\
  outcome (map grid [1; 2 ^ 52; 5]) = Ok true.
Proof.
  assert (R : Forall in_range [1; 2 ^ 52; 5])
    by (repeat constructor; solve [discriminate | reflexivity]).
  assert (A : on_arc 1 (2 ^ 52 - 1) [1; 2 ^ 52; 5])
    by (repeat constructor; discriminate).
  split; [exact R|]. split; [exact A|].
  exact (hit_complete 1 [2 ^ 52; 5] 1 R A).
Defined.

(** ** One or two ducks *)

(** With one or two ducks the span cannot exceed one half: the first duck
    sits at [0.5] and the other one somewhere in [[0, 1)]. *)
Lemma few_ducks_outcome a0 rest :
  Forall in_range (a0 :: rest) -> (length rest <= 1)%nat ->
  outcome (map grid (a0 :: rest)) = Ok true.
Proof.
  intros R Hl.
  destruct (span_grid a0 rest R) as (lo & hi & Hlo & Hhi & _ & _ & _ & _ & ->).
  f_equal. apply Z.leb_le.
  assert (R0 : 0 <= a0 < 2 ^ 53) by (now inversion R).
  assert (Hin : forall r, In r (map (rotate a0) (a0 :: rest)) ->
                          r = 2 ^ 52 \/ 0 <= r < 2 ^ 53).
  { intros r [E|Hr]; [left; now rewrite <- E, rotate_self|right].
    pose proof (rotated_in_range a0 rest R) as Hrs. rewrite Forall_forall in Hrs.
    apply Hrs. now right. }
  destruct rest as [|a1 [|a2 rest]]; [| |cbn in Hl; lia].
  - destruct Hlo as [<-|[]]. destruct Hhi as [<-|[]]. rewrite rotate_self by assumption.
    pow2_facts. lia.
  - cbn [map] in Hlo, Hhi. rewrite rotate_self in Hlo, Hhi by assumption.
    assert (R1 : 0 <= rotate a0 a1 < 2 ^ 53).
    { apply rotate_range; [assumption|]. inversion R as [|? ? _ R']; subst. now inversion R'. }
    pow2_facts.
    destruct Hlo as [<-|[<-|[]]]; destruct Hhi as [<-|[<-|[]]]; lia.
Qed.

Lemma few_ducks_hits g n k pos :
  n = 1 \/ n = 2 ->
  (forall i, (pos <= i < pos + Z.to_nat k * Z.to_nat n)%nat -> is_draw (g i)) ->
  hit_count g pos (Z.to_nat n) (Z.to_nat k) = Z.of_nat (Z.to_nat k).
Proof.
  intros Hn Hg. apply hit_count_all. intros i Hi. apply trial_hit_outcome.
  destruct (window_draws g (pos + i * Z.to_nat n) (Z.to_nat n)) as (ks & -> & R & Hlen).
  { intros j Hj. apply Hg. nia. }
  destruct ks as [|a0 rest]; [cbn in Hlen; lia|].
  apply few_ducks_outcome; [assumption|]. cbn [length] in Hlen. lia.
Qed.

(** X7: With one duck or two every trial is a hit, as the closed form says: on
    values drawn, [test] returns [k] hits and the ratio [1.0], the value of
    [expected_result] for 1 and for 2 ducks. *)
Theorem few_ducks_always_hit g n k pos :
  n = 1 \/ n = 2 -> 1 <= k ->
  (forall i, (pos <= i < pos + Z.to_nat k * Z.to_nat n)%nat -> is_draw (g i)) ->
  test g k n pos
    = Ok ((PList [], PInt k, PFloat one), (pos + Z.to_nat k * Z.to_nat n)%nat) /\
  expected_result n = Ok one.
Proof.
  intros Hn Hk Hg. split.
  - rewrite test_run by lia. rewrite few_ducks_hits by assumption.
    rewrite Z2Nat.id by lia. now rewrite fdiv_self.
  - destruct Hn as [-> | ->]; reflexivity.
Qed.

Lemma few_ducks_always_hit_witness :
  (2 = 1 \/ 2 = 2) /\ 1 <= 3 /\
  (forall i, (1 <= i < 1 + Z.to_nat 3 * Z.to_nat 2)%nat -> is_draw (spread i)) /\
  test spread 3 2 1%nat
    = Ok ((PList [], PInt 3, PFloat one), (1 + Z.to_nat 3 * Z.to_nat 2)%nat) /\
  expected_result 2 = Ok one.
Proof.
  split; [now right|]. split; [lia|]. split; [intros i _; apply spread_draws|].
  apply (few_ducks_always_hit spread 2 3 1%nat); [now right | lia |].
  intros i _. apply spread_draws.
Defined.

(** ** The closed form outside the exact range *)

(** Below the least subnormal number [2 ** e] is [0.0]. *)
Lemma round_tiny e : e <= -1075 -> round 1 e = zero.
Proof.
  intros He. destruct (Z.eq_dec e (-1075)) as [->|Hne]; [reflexivity|].
  unfold round, binary_normalize, binary_round, shl_align.
  cbn [digits2_pos].
  replace (fexp prec emax (1 + e)) with (-1074) by (unfold fexp, emin, prec, emax; lia).
  destruct (-1074 - e) as [|n|n] eqn:En; try lia.
  unfold binary_round_aux, shr_fexp. cbn [Zdigits2 digits2_pos].
  replace (fexp prec emax (1 + e)) with (-1074) by (unfold fexp, emin, prec, emax; lia).
  rewrite En. change (shr_record_of_loc 1 loc_Exact) with (rec0 1).
  rewrite shr_shifted by lia. unfold shifted.
  assert (Hp : 2 < 2 ^ Zpos n).
  { change 2 with (2 ^ 1) at 1. apply Z.pow_lt_mono_r; lia. }
  assert (Hp' : 1 < 2 ^ (Zpos n - 1)).
  { change 1 with (2 ^ 0) at 1. apply Z.pow_lt_mono_r; lia. }
  rewrite Z.div_small, Z.mod_small by lia.
  replace (2 ^ (Zpos n - 1) <=? 1) with false by (symmetry; apply Z.leb_gt; lia).
  replace (1 =? 2 ^ (Zpos n - 1)) with false by (symmetry; apply Z.eqb_neq; lia).
  replace (e + Zpos n) with (-1074) by lia. reflexivity.
Qed.

Lemma expected_negativeb_from_m1073 :
  forallb expected_negativeb (map (fun i => - Z.of_nat i) (seq 1 1073)) = true.
Proof. vm_compute. reflexivity. Qed.

Lemma expected_stepb_upto_1075 :
  forallb expected_stepb (map Z.of_nat (seq 1 1075)) = true.
Proof. vm_compute. reflexivity. Qed.

Lemma int_to_float_small n :
  0 < n < 2 ^ 53 -> exists m e, int_to_float n = Ok (S754_finite false m e).
Proof.
  intros Hn. unfold int_to_float.
  pose proof (round_small 0 n 0 ltac:(lia) ltac:(lia) ltac:(lia)) as E.
  rewrite Z.pow_0_r, Z.mul_1_r, Z.sub_0_r in E. rewrite E.
  destruct (canon_finite 0 n ltac:(lia)) as (M & -> & _).
  replace (n <? 0) with false by (symmetry; apply Z.ltb_ge; lia).
  eexists. eexists. reflexivity.
Qed.

(** The product of a count and the quotient [0.0] is [0.0]. *)
Lemma count_times_zero n :
  0 < n < 2 ^ 53 -> rbind (int_to_float n) (fun c => Ok (fmul c zero)) = Ok zero.
Proof.
  intros Hn. destruct (int_to_float_small n Hn) as (m & e & ->). reflexivity.
Qed.

(** Rounding an integer of [53 + n] bits, whatever its size: from
    [2^1024 - 2^970] on the result is infinite. *)
Lemma bra_round_int s M n :
  1 <= n -> 2 ^ (52 + n) <= M < 2 ^ (53 + n) ->
  binary_round_aux prec emax s M 0 loc_Exact
  = if rne M n <? 2 ^ 53
    then (if n <=? 971 then S754_finite s (Z.to_pos (rne M n)) n else S754_infinity s)
    else (if n + 1 <=? 971 then S754_finite s 4503599627370496 (n + 1)
          else S754_infinity s).
Proof.
  intros Hn HM. unfold binary_round_aux. unfold shr_fexp at 1.
  assert (H0 : 0 < 2 ^ (52 + n)) by (apply Z.pow_pos_nonneg; lia).
  rewrite (Zdigits2_eq M (53 + n)) by (replace (53 + n - 1) with (52 + n) by lia; lia).
  rewrite fexp_normal by lia.
  replace (53 + n + 0 - 53 - 0) with n by lia.
  change (shr_record_of_loc M loc_Exact) with (rec0 M).
  rewrite shr_shifted, rne_shifted by lia.
  pose proof (rne_range M n Hn HM) as Hr.
  change (emax - prec) with 971. rewrite Z.add_0_l.
  destruct (Z.ltb_spec (rne M n) (2 ^ 53)) as [Hlt|Hge].
  - destruct (rne M n) as [|r|r] eqn:Er;
      try (change (2 ^ 52) with 4503599627370496 in Hr; lia).
    cbn [Z.to_pos]. unfold shr_fexp. cbn [Zdigits2].
    replace (Zpos (digits2_pos r)) with 53
      by (symmetry; apply digits2_unique; change (2 ^ (53 - 1)) with (2 ^ 52); lia).
    rewrite fexp_normal by lia.
    replace (53 + n - 53 - n) with 0 by lia.
    cbn [shr shr_record_of_loc shr_m]. reflexivity.
  - replace (rne M n) with (2 ^ 53) by lia.
    unfold shr_fexp. change (Zdigits2 (2 ^ 53)) with 54.
    rewrite fexp_normal by lia.
    replace (54 + n - 53 - n) with 1 by lia.
    cbn [shr shr_record_of_loc iter_pos]. change (2 ^ 53) with 9007199254740992.
    cbn [shr_1 orb shr_m]. reflexivity.
Qed.

Lemma round_int_neg p n :
  1 <= n -> 2 ^ (52 + n) <= Zpos p < 2 ^ (53 + n) ->
  round (Zneg p) 0 = binary_round_aux prec emax true (Zpos p) 0 loc_Exact.
Proof.
  intros Hn HM. unfold round, binary_normalize, binary_round.
  assert (Hd : Zpos (digits2_pos p) = 53 + n).
  { apply digits2_unique. replace (53 + n - 1) with (52 + n) by lia. lia. }
  rewrite Hd, fexp_normal by lia. unfold shl_align.
  destruct (53 + n + 0 - 53 - 0) as [|x|x] eqn:Ex; try lia; reflexivity.
Qed.

Lemma big_powers :
  2 ^ 1024 = 2 ^ 53 * 2 ^ 971 /\ 2 ^ 971 = 2 * 2 ^ 970 /\ 0 < 2 ^ 970 /\
  2 ^ 1023 = 2 ^ 52 * 2 ^ 971.
Proof. repeat split. Qed.

(** The quotient of the rounding at the top binade. *)
Lemma rne_top M :
  2 ^ 1023 <= M < 2 ^ 1024 ->
  (rne M 971 <? 2 ^ 53) = (M <? 2 ^ 1024 - 2 ^ 970).
Proof.
  intros HM. destruct big_powers as (E1 & E2 & Hp & E3).
  pose proof (Z.div_mod M (2 ^ 971) ltac:(lia)) as D.
  pose proof (Z.mod_pos_bound M (2 ^ 971) ltac:(lia)) as HR.
  unfold rne. replace (971 - 1) with 970 by lia.
  set (q := M / 2 ^ 971) in *. set (R := M mod 2 ^ 971) in *.
  pow2_facts.
  assert (Hq : 2 ^ 52 <= q <= 2 ^ 53 - 1) by nia.
  destruct (Z.ltb_spec M (2 ^ 1024 - 2 ^ 970)) as [Hlt|Hge].
  - apply Z.ltb_lt.
    destruct (Z.ltb_spec R (2 ^ 970)); [lia|].
    assert (q < 2 ^ 53 - 1) by nia.
    destruct (Z.eqb_spec R (2 ^ 970)); [destruct (Z.even q)|]; lia.
  - apply Z.ltb_ge.
    assert (Eq : q = 2 ^ 53 - 1) by nia.
    destruct (Z.ltb_spec R (2 ^ 970)); [nia|].
    destruct (Z.eqb_spec R (2 ^ 970)); [|lia].
    rewrite Eq. replace (Z.even (2 ^ 53 - 1)) with false by reflexivity. lia.
Qed.

(** [float(e)] for a negative integer: [OverflowError] from
    [-(2^1024 - 2^970)] down, a float above. *)
Lemma int_to_float_overflow e :
  e <= - (2 ^ 1024 - 2 ^ 970) -> int_to_float e = Raise OverflowError.
Proof.
  intros He. destruct big_powers as (E1 & E2 & Hp & E3). pow2_facts.
  destruct e as [|p|p]; try lia.
  pose proof (Zdigits2_bounds (Zpos p) ltac:(lia)) as Hd. cbn [Z.abs] in Hd.
  set (d := Zdigits2 (Zpos p)) in *.
  assert (H1023 : 2 ^ 1023 <= Zpos p) by nia.
  assert (Hd' : 1024 <= d).
  { destruct (Z_lt_le_dec d 1024) as [Hlt|]; [|assumption]. exfalso.
    assert (2 ^ d <= 2 ^ 1023) by (apply Z.pow_le_mono_r; lia). lia. }
  unfold int_to_float.
  rewrite (round_int_neg p (d - 53)), (bra_round_int true (Zpos p) (d - 53));
    try lia;
    try (replace (52 + (d - 53)) with (d - 1) by lia;
         replace (53 + (d - 53)) with d by lia; exact Hd).
  destruct (Z.eq_dec d 1024) as [Ed|Nd].
  - rewrite Ed. change (1024 - 53) with 971. rewrite rne_top by (rewrite <- Ed; lia).
    replace (Zpos p <? 2 ^ 1024 - 2 ^ 970) with false by (symmetry; apply Z.ltb_ge; lia).
    reflexivity.
  - replace (d - 53 <=? 971) with false by (symmetry; apply Z.leb_gt; lia).
    replace (d - 53 + 1 <=? 971) with false by (symmetry; apply Z.leb_gt; lia).
    destruct (_ <? _); reflexivity.
Qed.

Lemma int_to_float_negative e :
  - (2 ^ 1024 - 2 ^ 970) < e < 0 -> exists x, int_to_float e = Ok x.
Proof.
  intros He. destruct big_powers as (E1 & E2 & Hp & E3). pow2_facts.
  destruct (Z_lt_le_dec (- 2 ^ 53) e) as [Hs|Hb].
  - unfold int_to_float.
    pose proof (round_small 0 e 0 ltac:(lia) ltac:(lia) ltac:(lia)) as E.
    rewrite Z.pow_0_r, Z.mul_1_r, Z.sub_0_r in E. rewrite E.
    destruct (canon_finite 0 e ltac:(lia)) as (M & -> & _).
    eexists. reflexivity.
  - destruct e as [|p|p]; try lia.
    pose proof (Zdigits2_bounds (Zpos p) ltac:(lia)) as Hd. cbn [Z.abs] in Hd.
    set (d := Zdigits2 (Zpos p)) in *.
    assert (Hlo : 54 <= d).
    { destruct (Z_lt_le_dec d 54) as [Hlt|]; [|assumption]. exfalso.
      assert (2 ^ d <= 2 ^ 53) by (apply Z.pow_le_mono_r; lia). lia. }
    assert (Hhi : d <= 1024).
    { destruct (Z_lt_le_dec 1024 d) as [Hlt|]; [|assumption]. exfalso.
      assert (2 ^ 1024 <= 2 ^ (d - 1)) by (apply Z.pow_le_mono_r; lia). lia. }
    unfold int_to_float.
    rewrite (round_int_neg p (d - 53)), (bra_round_int true (Zpos p) (d - 53));
      try lia;
      try (replace (52 + (d - 53)) with (d - 1) by lia;
           replace (53 + (d - 53)) with d by lia; exact Hd).
    destruct (Z.eq_dec d 1024) as [Ed|Nd].
    + rewrite Ed in *. change (1024 - 53) with 971.
      rewrite rne_top by (change (1024 - 1) with 1023 in Hd; lia).
      replace (Zpos p <? 2 ^ 1024 - 2 ^ 970) with true by (symmetry; apply Z.ltb_lt; lia).
      eexists. reflexivity.
    + replace (d - 53 <=? 971) with true by (symmetry; apply Z.leb_le; lia).
      replace (d - 53 + 1 <=? 971) with true by (symmetry; apply Z.leb_le; lia).
      destruct (_ <? _); eexists; reflexivity.
Qed.

(** X8: [expected_result] checks nothing about its argument.  For a count
    [n] with [n - 1 <= -(2^1024 - 2^970)] the exponent does not fit a
    double and [2 ** (n-1)] raises [OverflowError]; above, up to
    [n = -1074], the power underflows to [0.0] and the division raises
    [ZeroDivisionError]; for [-1073 <= n <= -1] the function returns a
    number below zero, never a probability; for [n = 0] it returns [0.0]. *)
Theorem expected_result_no_ducks n :
  (n - 1 <= - (2 ^ 1024 - 2 ^ 970) -> expected_result n = Raise OverflowError) /\
  (- (2 ^ 1024 - 2 ^ 970) < n - 1 -> n <= -1074 ->
   expected_result n = Raise ZeroDivisionError) /\
  (-1073 <= n <= -1 -> exists x, expected_result n = Ok x /\ flt x zero = true) /\
  expected_result 0 = Ok zero.
Proof.
  split; [|split; [|split]].
  - intros Hn. unfold expected_result, pow2.
    assert (Hneg : n - 1 < 0).
    { destruct big_powers as (E1 & E2 & Hp & E3). pow2_facts. nia. }
    replace (0 <=? n - 1) with false by (symmetry; apply Z.leb_gt; lia).
    now rewrite int_to_float_overflow.
  - intros Hn Hz. unfold expected_result, pow2.
    replace (0 <=? n - 1) with false by (symmetry; apply Z.leb_gt; lia).
    destruct (int_to_float_negative (n - 1) ltac:(lia)) as (y & ->). cbn [rbind].
    rewrite round_tiny by lia. reflexivity.
  - intros Hn. pose proof expected_negativeb_from_m1073 as H.
    rewrite forallb_forall in H. specialize (H n).
    unfold expected_negativeb in H.
    destruct (expected_result n) as [x|ex].
    + exists x. split; [reflexivity|]. apply H.
      apply in_map_iff. exists (Z.to_nat (- n)). split; [lia|].
      apply in_seq. lia.
    + assert (false = true); [|discriminate]. apply H.
      apply in_map_iff. exists (Z.to_nat (- n)). split; [lia|].
      apply in_seq. lia.
  - reflexivity.
Qed.

Lemma expected_result_no_ducks_witness :
  expected_result (- 2 ^ 1024) = Raise OverflowError /\
  expected_result (-2000) = Raise ZeroDivisionError /\
  (exists x, expected_result (-3) = Ok x /\ flt x zero = true) /\
  expected_result 0 = Ok zero.
Proof.
  split; [|split; [|split]].
  - apply (proj1 (expected_result_no_ducks (- 2 ^ 1024))). vm_compute. discriminate.
  - apply (proj1 (proj2 (expected_result_no_ducks (-2000)))); vm_compute; congruence.
  - apply (proj1 (proj2 (proj2 (expected_result_no_ducks (-3))))). lia.
  - apply (proj2 (proj2 (proj2 (expected_result_no_ducks 0)))).
Defined.

(** X9: From 1076 ducks on the closed form is [0.0]: [1 / 2 ** (n-1)] underflows
    and the product with the count is zero, for every count below [2^53]. *)
Theorem expected_result_vanishes n :
  1076 <= n < 2 ^ 53 -> expected_result n = Ok zero.
Proof.
  intros Hn. unfold expected_result, pow2.
  replace (0 <=? n - 1) with true by (symmetry; apply Z.leb_le; lia).
  cbn [rbind]. rewrite int_truediv_underflow by lia. cbn [rbind].
  apply count_times_zero. lia.
Qed.

Lemma expected_result_vanishes_witness :
  1076 <= 5000 < 2 ^ 53 /\ expected_result 5000 = Ok zero.
Proof.
  assert (H : 1076 <= 5000 < 2 ^ 53) by (split; [discriminate | reflexivity]).
  split; [exact H|]. exact (expected_result_vanishes 5000 H).
Defined.

(** X10: The closed form behaves as a probability that shrinks with the number of
    ducks: for every count [1 <= n < 2^53 - 1] the results for [n] and for
    [n + 1] are floats between [0.0] and [1.0], and the result for [n + 1]
    is not above the result for [n]. *)
Theorem expected_result_decreasing n :
  1 <= n < 2 ^ 53 - 1 ->
  exists x y,
    expected_result n = Ok x /\ expected_result (n + 1) = Ok y /\
    fle zero y = true /\ fle y x = true /\ fle x one = true.
Proof.
  intros Hn. pow2_facts. destruct (Z_le_gt_dec n 1075) as [Hs|Hb].
  - pose proof expected_stepb_upto_1075 as H.
    rewrite forallb_forall in H. specialize (H n).
    unfold expected_stepb in H.
    assert (Hin : In n (map Z.of_nat (seq 1 1075))).
    { apply in_map_iff. exists (Z.to_nat n). split; [lia|]. apply in_seq. lia. }
    specialize (H Hin).
    destruct (expected_result n) as [x|]; [|discriminate].
    destruct (expected_result (n + 1)) as [y|]; [|discriminate].
    apply andb_true_iff in H. destruct H as [H H3].
    apply andb_true_iff in H. destruct H as [H1 H2].
    exists x, y. repeat split; assumption.
  - exists zero, zero. unfold expected_result, pow2.
    replace (0 <=? n - 1) with true by (symmetry; apply Z.leb_le; lia).
    replace (0 <=? n + 1 - 1) with true by (symmetry; apply Z.leb_le; lia).
    cbn [rbind]. rewrite !int_truediv_underflow by lia. cbn [rbind].
    rewrite !count_times_zero by lia. repeat split; reflexivity.
Qed.

Lemma expected_result_decreasing_witness :
  1 <= 3 < 2 ^ 53 - 1 /\
  exists x y,
    expected_result 3 = Ok x /\ expected_result (3 + 1) = Ok y /\
    fle zero y = true /\ fle y x = true /\ fle x one = true.
Proof.
  assert (H : 1 <= 3 < 2 ^ 53 - 1) by (split; [discriminate | reflexivity]).
  split; [exact H|]. exact (expected_result_decreasing 3 H).
Defined.

(** ** Runs one after the other *)

Lemma filter_seq_shift (f : nat -> bool) a b :
  length (filter f (seq a b)) = length (filter (fun i => f (a + i)%nat) (seq 0 b)).
Proof.
  revert f a. induction b as [|b IH]; intros f a; [reflexivity|].
  cbn [seq filter]. rewrite Nat.add_0_r.
  assert (E : length (filter f (seq (S a) b))
              = length (filter (fun i => f (a + i)%nat) (seq 1 b))).
  { rewrite (IH f (S a)), (IH (fun i => f (a + i)%nat) 1%nat). f_equal.
    apply filter_ext. intros i. f_equal. lia. }
  destruct (f a); cbn [length]; now rewrite E.
Qed.

(** The hits of a run are the hits of its first trials and the hits of the
    run that starts where they stop. *)
Lemma hit_count_split g pos count a b :
  hit_count g pos count (a + b)
  = hit_count g pos count a + hit_count g (pos + a * count) count b.
Proof.
  unfold hit_count. rewrite seq_app, filter_app, length_app, Nat2Z.inj_add.
  f_equal. cbn [Nat.add]. rewrite filter_seq_shift. do 2 f_equal.
  apply filter_ext. intros i. unfold trial_hit.
  replace (pos + (a + i) * count)%nat with (pos + a * count + i * count)%nat by lia.
  reflexivity.
Qed.

(** X11: Runs of [test] compose: for [n >= 1] ducks, when a run of
    [k1 >= 1] iterations returns [h1] hits and a run of [k2 >= 1] iterations
    that goes on where it stopped returns [h2] hits, one run of [k1 + k2]
    iterations from the first cursor returns [h1 + h2] hits and the
    quotient of the sums, and stops at the cursor of the second run. *)
Theorem test_splits g n k1 k2 pos d1 h1 r1 pos1 d2 h2 r2 pos2 :
  1 <= n -> 1 <= k1 -> 1 <= k2 ->
  test g k1 n pos = Ok ((d1, PInt h1, r1), pos1) ->
  test g k2 n pos1 = Ok ((d2, PInt h2, r2), pos2) ->
  test g (k1 + k2) n pos
  = Ok ((PList [], PInt (h1 + h2), PFloat (fdiv (Z2SF (h1 + h2)) (Z2SF (k1 + k2)))), pos2).
Proof.
  intros Hn H1 H2 T1 T2.
  rewrite test_run in T1 by assumption. injection T1 as _ Eh1 _ Ep1.
  rewrite test_run in T2 by assumption. injection T2 as _ Eh2 _ Ep2.
  rewrite test_run by lia.
  rewrite Z2Nat.inj_add, hit_count_split by lia.
  rewrite Eh1. rewrite <- Ep1 in Eh2 at 1. rewrite Eh2.
  rewrite <- Ep2, <- Ep1. do 2 f_equal. lia.
Qed.

Lemma test_splits_witness :
  1 <= 3 /\ 1 <= 1 /\ 1 <= 2 /\
  test spread 1 3 0%nat = Ok ((PList [], PInt 0, PFloat zero), 3%nat) /\
  test spread 2 3 3%nat = Ok ((PList [], PInt 0, PFloat zero), 9%nat) /\
  test spread (1 + 2) 3 0%nat
  = Ok ((PList [], PInt (0 + 0), PFloat (fdiv (Z2SF (0 + 0)) (Z2SF (1 + 2)))), 9%nat).
Proof.
  assert (T1 : test spread 1 3 0%nat = Ok ((PList [], PInt 0, PFloat zero), 3%nat))
    by (vm_compute; reflexivity).
  assert (T2 : test spread 2 3 3%nat = Ok ((PList [], PInt 0, PFloat zero), 9%nat))
    by (vm_compute; reflexivity).
  split; [lia|]. split; [lia|]. split; [lia|]. split; [exact T1|]. split; [exact T2|].
  apply (test_splits spread 3 1 2 0%nat (PList []) 0 (PFloat zero) 3%nat
           (PList []) 0 (PFloat zero) 9%nat); [lia | lia | lia | exact T1 | exact T2].
Defined.

(** ** The table of the last cell *)

Lemma percent_of_float q :
  py_mul_int (PFloat q) 100 = Ok (PFloat (fmul q (round 100 0))).
Proof. reflexivity. Qed.

(** One turn of the loop of the last cell, for a count [n >= 1]. *)
Lemma report_step g k n counts pos e p :
  1 <= n -> 1 <= k ->
  expected_result n = Ok e -> float_mul_int e 100 = Ok p ->
  report_loop g k (n :: counts) pos
  = (Line n (PInt (hit_count g pos (Z.to_nat n) (Z.to_nat k)))
       (PFloat (fmul (fdiv (Z2SF (hit_count g pos (Z.to_nat n) (Z.to_nat k))) (Z2SF k))
                  (round 100 0))) p
       :: fst (report_loop g k counts (pos + Z.to_nat k * Z.to_nat n)%nat),
     snd (report_loop g k counts (pos + Z.to_nat k * Z.to_nat n)%nat)).
Proof.
  intros Hn Hk He Hp. cbn [report_loop]. rewrite test_run by assumption.
  rewrite He, percent_of_float, Hp.
  destruct (report_loop g k counts _). reflexivity.
Qed.

(** The loop on any list of counts [>= 1] whose closed form can be
    computed: one line for each count, in order, and [k * n] draws for each
    count [n]. *)
Lemma report_loop_runs g k counts :
  1 <= k ->
  Forall (fun n => 1 <= n /\
            exists p, rbind (expected_result n) (fun e => float_mul_int e 100) = Ok p)
         counts ->
  forall pos,
  exists lines,
    report_loop g k counts pos
    = (lines, Ok (pos + Z.to_nat k * list_sum (map Z.to_nat counts))%nat) /\
    map line_ducks lines = counts /\
    map (fun l => Ok (line_expected l)) lines
    = map (fun n => rbind (expected_result n) (fun e => float_mul_int e 100)) counts /\
    Forall (fun l => exists h, line_hits l = PInt h /\ 0 <= h <= k /\
              line_observed l = PFloat (fmul (fdiv (Z2SF h) (Z2SF k)) (round 100 0)))
           lines.
Proof.
  intros Hk Hc. induction Hc as [|n counts (Hn & p & Hp) _ IH]; intros pos.
  - exists []. cbn. rewrite Nat.mul_0_r, Nat.add_0_r. repeat split; constructor.
  - destruct (expected_result n) as [e|] eqn:He; [|discriminate]. cbn [rbind] in Hp.
    rewrite (report_step g k n counts pos e p Hn Hk He Hp).
    destruct (IH (pos + Z.to_nat k * Z.to_nat n)%nat) as (lines & -> & Hd & He' & Hh).
    eexists. cbn [fst snd map line_ducks line_expected].
    change (list_sum (Z.to_nat n :: map Z.to_nat counts))
      with (Z.to_nat n + list_sum (map Z.to_nat counts))%nat.
    rewrite Nat.mul_add_distr_l, Nat.add_assoc.
    split; [reflexivity|]. split; [cbn [map line_ducks]; now rewrite Hd|].
    split; [cbn [map line_expected]; rewrite He', He; cbn [rbind]; now rewrite Hp|].
    constructor; [|exact Hh].
    exists (hit_count g pos (Z.to_nat n) (Z.to_nat k)). cbn [line_hits line_observed].
    split; [reflexivity|]. split; [|reflexivity].
    pose proof (hit_count_le g pos (Z.to_nat n) (Z.to_nat k)). lia.
Qed.

(** The percentages of the closed form the table shows, [100.0], [75.0],
    [50.0], [31.25], [18.75], [6.25], [1.953125], [0.091552734375] and
    [0.003814697265625]. *)
Lemma expected_percentages :
  map (fun n => rbind (expected_result n) (fun e => float_mul_int e 100)) duck_counts
  = map Ok [round 100 0; round 75 0; round 50 0; round 125 (-2); round 75 (-2);
            round 25 (-2); round 125 (-6); round 375 (-12); round 125 (-15)].
Proof. vm_compute. reflexivity. Qed.

Lemma map_Ok_inj {A} (l1 l2 : list A) : map Ok l1 = map Ok l2 -> l1 = l2.
Proof.
  revert l2. induction l1 as [|x l1 IH]; intros [|y l2] H; try discriminate;
    [reflexivity|].
  cbn [map] in H. injection H as -> H. f_equal. now apply IH.
Qed.

(** X12: For every number of iterations [k >= 1] and on any stream the last cell
    raises nothing and prints nine lines, one for each of 2, 3, 4, 5, 6, 8,
    10, 15 and 20 ducks in this order; it reads [73 * k] values; each line
    shows a number of hits between 0 and [k], the quotient of the hits by
    [k] times 100, and the percentage of the closed form, which is 100, 75,
    50, 31.25, 18.75, 6.25, 1.953125, 0.091552734375 and 0.003814697265625
    whatever was drawn. *)
Theorem report_prints_the_table g k pos :
  1 <= k ->
  exists lines,
    report g k pos = (lines, Ok (pos + 73 * Z.to_nat k)%nat) /\
    map line_ducks lines = duck_counts /\
    map line_expected lines
    = [round 100 0; round 75 0; round 50 0; round 125 (-2); round 75 (-2);
       round 25 (-2); round 125 (-6); round 375 (-12); round 125 (-15)] /\
    Forall (fun l => exists h, line_hits l = PInt h /\ 0 <= h <= k /\
              line_observed l = PFloat (fmul (fdiv (Z2SF h) (Z2SF k)) (round 100 0)))
           lines.
Proof.
  intros Hk.
  destruct (report_loop_runs g k duck_counts Hk) with (pos := pos)
    as (lines & E & Hd & He & Hh).
  - unfold duck_counts.
    repeat constructor; try lia; eexists; vm_compute; reflexivity.
  - exists lines. split; [rewrite <- (Nat.mul_comm (Z.to_nat k)); exact E|].
    split; [exact Hd|]. split; [|exact Hh].
    rewrite expected_percentages, <- (map_map line_expected Ok) in He.
    now apply map_Ok_inj.
Qed.

Lemma report_prints_the_table_witness :
  1 <= 2 /\
  exists lines,
    report spread 2 0%nat = (lines, Ok (0 + 73 * Z.to_nat 2)%nat) /\
    map line_ducks lines = duck_counts /\
    map line_expected lines
    = [round 100 0; round 75 0; round 50 0; round 125 (-2); round 75 (-2);
       round 25 (-2); round 125 (-6); round 375 (-12); round 125 (-15)] /\
    Forall (fun l => exists h, line_hits l = PInt h /\ 0 <= h <= 2 /\
              line_observed l = PFloat (fmul (fdiv (Z2SF h) (Z2SF 2)) (round 100 0)))
           lines.
Proof.
  split; [lia|]. apply (report_prints_the_table spread 2 0%nat). lia.
Defined.

(** X13: The first line of the table is the same in every run: with values drawn
    and [k >= 1] iterations it shows 2 ducks, [k] hits, [100.0] percent
    observed and [100.0] percent expected. *)
Theorem report_two_ducks_line g k pos :
  1 <= k ->
  (forall i, (pos <= i < pos + Z.to_nat k * 2)%nat -> is_draw (g i)) ->
  exists lines r,
    report g k pos
    = (Line 2 (PInt k) (PFloat (round 100 0)) (round 100 0) :: lines, r).
Proof.
  intros Hk Hg. unfold report, duck_counts.
  rewrite (report_step g k 2 _ pos one (round 100 0)) by (lia || reflexivity).
  rewrite few_ducks_hits by (auto; exact Hg).
  rewrite Z2Nat.id, fdiv_self by lia.
  eexists. eexists. reflexivity.
Qed.

Lemma report_two_ducks_line_witness :
  1 <= 2 /\
  (forall i, (0 <= i < 0 + Z.to_nat 2 * 2)%nat -> is_draw (spread i)) /\
  exists lines r,
    report spread 2 0%nat
    = (Line 2 (PInt 2) (PFloat (round 100 0)) (round 100 0) :: lines, r).
Proof.
  split; [lia|]. split; [intros i _; apply spread_draws|].
  apply (report_two_ducks_line spread 2 0%nat); [lia|].
  intros i _. apply spread_draws.
Defined.

(** X14: The last cell without iterations: with
    [iterations = 0] the first run of [test] raises [ZeroDivisionError]
    before any line is printed; with a negative number of iterations
    nothing is raised and no value is drawn, and all nine lines show 0 hits
    and [-0.0] percent. *)
Theorem report_without_iterations g k pos :
  (k = 0 -> report g k pos = ([], Raise ZeroDivisionError)) /\
  (k < 0 ->
   exists lines,
     report g k pos = (lines, Ok pos) /\ map line_ducks lines = duck_counts /\
     Forall (fun l => line_hits l = PInt 0 /\ line_observed l = PFloat (S754_zero true))
            lines).
Proof.
  split.
  - intros ->. reflexivity.
  - intros Hk. destruct k as [|p|p]; try lia.
    eexists. split; [vm_compute; reflexivity|].
    split; [reflexivity|]. repeat constructor.
Qed.

Lemma report_without_iterations_witness :
  report spread 0 0%nat = ([], Raise ZeroDivisionError) /\
  exists lines,
    report spread (-5) 0%nat = (lines, Ok 0%nat) /\ map line_ducks lines = duck_counts /\
    Forall (fun l => line_hits l = PInt 0 /\ line_observed l = PFloat (S754_zero true))
           lines.
Proof.
  split.
  - apply (proj1 (report_without_iterations spread 0 0%nat)). reflexivity.
  - apply (proj2 (report_without_iterations spread (-5) 0%nat)). lia.
Defined.

(** ** The experiment on four ducks *)

Lemma experiment_loop_test_loop g iters :
  forall hits pos, experiment_loop g iters hits pos = test_loop g 4 iters hits pos.
Proof.
  induction iters as [|iters IH]; intros hits pos; [reflexivity|].
  cbn [experiment_loop test_loop]. rewrite !body_spec.
  destruct (span_of _); [apply IH | reflexivity].
Qed.

Lemma float_percent q : float_mul_int q 100 = Ok (fmul q (round 100 0)).
Proof. reflexivity. Qed.

(** The body of the cell, for any number of iterations [k >= 1]. *)
Lemma experiment_body g k pos :
  1 <= k ->
  (hits <- experiment_loop g (Z.to_nat k) 0 ;;
   ratio <- lift (int_truediv hits k) ;;
   percent <- lift (float_mul_int ratio 100) ;;
   ret (hits, k, percent)) pos
  = Ok ((hit_count g pos (Z.to_nat 4) (Z.to_nat k), k,
         fmul (fdiv (Z2SF (hit_count g pos (Z.to_nat 4) (Z.to_nat k))) (Z2SF k))
              (round 100 0)),
        (pos + Z.to_nat k * Z.to_nat 4)%nat).
Proof.
  intros Hk. unfold bind. rewrite experiment_loop_test_loop.
  pose proof (test_loop_spec g 4 (Z.to_nat k) pos ltac:(lia) 0%nat 0) as H.
  rewrite Nat.mul_0_l, Nat.add_0_r, Z.add_0_l, Nat.add_0_l in H. rewrite H.
  fold (hit_count g pos (Z.to_nat 4) (Z.to_nat k)).
  pose proof (hit_count_le g pos (Z.to_nat 4) (Z.to_nat k)) as Hle.
  unfold lift. rewrite int_truediv_le by lia. rewrite float_percent. reflexivity.
Qed.

(** X15: The cell of the experiment and [test] agree: on any stream the cell
    raises nothing, reads [4 * 100000] values and prints a number of hits
    between 0 and 100000 with the quotient by 100000 times 100, and [test]
    on four ducks, run with [iterations = 100000] from the same cursor,
    returns this number of hits and this quotient. *)
Theorem experiment_agrees_with_test g pos :
  exists h,
    0 <= h <= 100000 /\
    experiment g pos
    = Ok ((h, 100000, fmul (fdiv (Z2SF h) (Z2SF 100000)) (round 100 0)),
          (pos + Z.to_nat 100000 * Z.to_nat 4)%nat) /\
    test g 100000 4 pos
    = Ok ((PList [], PInt h, PFloat (fdiv (Z2SF h) (Z2SF 100000))),
          (pos + Z.to_nat 100000 * Z.to_nat 4)%nat).
Proof.
  assert (Hk : 1 <= 100000) by discriminate.
  generalize (experiment_body g 100000 pos Hk).
  generalize (test_run g 4 100000 pos ltac:(discriminate) Hk).
  generalize (hit_count_le g pos (Z.to_nat 4) (Z.to_nat 100000)).
  rewrite (Z2Nat.id 100000) by discriminate.
  generalize (hit_count g pos (Z.to_nat 4) (Z.to_nat 100000)).
  intros h Hle Ht He. exists h. split; [exact Hle|]. split; [exact He | exact Ht].
Qed.

(** ** Fewer ducks *)

Lemma rotated_incl a0 ks ks' r :
  Forall in_range ks -> Forall in_range ks' ->
  incl (map grid ks) (map grid ks') ->
  In r (map (rotate a0) (a0 :: ks)) -> In r (map (rotate a0) (a0 :: ks')).
Proof.
  intros Hk Hk' Hi [E|Hin]; [now left|]. right.
  apply in_map_iff in Hin. destruct Hin as (a & <- & Ha).
  assert (Hg : In (grid a) (map grid ks')) by (apply Hi; now apply in_map).
  apply in_map_iff in Hg. destruct Hg as (b & E & Hb).
  rewrite Forall_forall in Hk, Hk'.
  apply grid_inj in E; [|apply in_range_abs; auto ..]. subst b.
  now apply in_map.
Qed.

(** X16: More ducks never help: on values drawn, when a sample is a hit, every
    sample with the same first draw and only some of the other draws is a
    hit as well, and its span is not larger. *)
Theorem hit_survives_removal x rest rest' :
  Forall is_draw (x :: rest) -> incl rest' rest ->
  outcome (x :: rest) = Ok true ->
  outcome (x :: rest') = Ok true /\
  exists d d', span_of (x :: rest) = Ok d /\ span_of (x :: rest') = Ok d' /\
               fle d' d = true.
Proof.
  intros Hd Hi Ho.
  inversion Hd as [|? ? (a0 & H0 & ->) Hrest]; subst.
  assert (Hrest' : Forall is_draw rest').
  { rewrite Forall_forall in *. intros y Hy. apply Hrest, Hi, Hy. }
  destruct (draws_grid _ Hrest) as (ks & -> & Hks).
  destruct (draws_grid _ Hrest') as (ks' & -> & Hks').
  assert (R : Forall in_range (a0 :: ks)) by now constructor.
  assert (R' : Forall in_range (a0 :: ks')) by now constructor.
  change (grid a0 :: map grid ks) with (map grid (a0 :: ks)) in *.
  change (grid a0 :: map grid ks') with (map grid (a0 :: ks')).
  destruct (span_grid a0 ks R) as (lo & hi & Hlo & Hhi & Hb & _ & _ & Es & Eo).
  destruct (span_grid a0 ks' R') as (lo' & hi' & Hlo' & Hhi' & Hb' & _ & _ & Es' & Eo').
  rewrite Eo in Ho. injection Ho as Ho. apply Z.leb_le in Ho.
  pose proof (Hb lo' (rotated_incl a0 ks' ks lo' Hks' Hks Hi Hlo')) as B1.
  pose proof (Hb hi' (rotated_incl a0 ks' ks hi' Hks' Hks Hi Hhi')) as B2.
  pose proof (Hb' lo' Hlo') as B3.
  pose proof (rotated_in_range a0 ks R) as Rr. rewrite Forall_forall in Rr.
  pose proof (Rr lo Hlo) as Rlo. pose proof (Rr hi Hhi) as Rhi.
  unfold in_range in Rlo, Rhi. pow2_facts.
  split.
  - rewrite Eo'. f_equal. apply Z.leb_le. lia.
  - exists (grid (hi - lo)), (grid (hi' - lo')).
    split; [exact Es|]. split; [exact Es'|].
    rewrite fle_grid by lia. apply Z.leb_le. lia.
Qed.

Lemma hit_survives_removal_witness :
  Forall is_draw [grid 0; grid 1; grid 5] /\ incl [grid 5] [grid 1; grid 5] /\
  outcome [grid 0; grid 1; grid 5] = Ok true /\
  outcome [grid 0; grid 5] = Ok true /\
  exists d d', span_of [grid 0; grid 1; grid 5] = Ok d /\
               span_of [grid 0; grid 5] = Ok d' /\ fle d' d = true.
Proof.
  assert (H : Forall is_draw [grid 0; grid 1; grid 5]).
  { repeat constructor; eexists; (split; [|reflexivity]); split;
      solve [discriminate | reflexivity]. }
  assert (I : incl [grid 5] [grid 1; grid 5]).
  { intros y [<-|[]]. right. now left. }
  assert (O : outcome [grid 0; grid 1; grid 5] = Ok true) by (vm_compute; reflexivity).
  split; [exact H|]. split; [exact I|]. split; [exact O|].
  exact (hit_survives_removal (grid 0) [grid 1; grid 5] [grid 5] H I O).
Defined.

(** * The rotation of the inputs *)

(** ** The smallest arc that holds the draws *)

Lemma arc_from_bound a ks b : In b ks -> (b - a) mod 2 ^ 53 <= arc_from a ks.
Proof.
  induction ks as [|c ks IH]; [intros []|]; intros [E|Hin]; cbn [arc_from fold_right].
  - subst. apply Z.le_max_l.
  - etransitivity; [apply IH, Hin|]. apply Z.le_max_r.
Qed.

Lemma arc_from_le a ks len :
  0 <= len -> (forall b, In b ks -> (b - a) mod 2 ^ 53 <= len) -> arc_from a ks <= len.
Proof.
  intros Hl. induction ks as [|c ks IH]; intros H; cbn [arc_from fold_right]; [exact Hl|].
  apply Z.max_lub; [apply H; now left|]. apply IH. intros b Hb. apply H. now right.
Qed.

Lemma on_arc_from a ks : on_arc a (arc_from a ks) ks.
Proof. apply Forall_forall. intros b Hb. now apply arc_from_bound. Qed.

Lemma fold_min_le (f : Z -> Z) top l a :
  In a l -> fold_right (fun a m => Z.min (f a) m) top l <= f a.
Proof.
  induction l as [|c l IH]; [intros []|]; intros [E|Hin]; cbn [fold_right].
  - subst. apply Z.le_min_l.
  - etransitivity; [apply Z.le_min_r|]. now apply IH.
Qed.

Lemma fold_min_attained (f : Z -> Z) top l :
  l <> [] -> (forall a, In a l -> f a <= top) ->
  exists a, In a l /\ fold_right (fun a m => Z.min (f a) m) top l = f a.
Proof.
  induction l as [|c l IH]; intros Hne Htop; [congruence|].
  cbn [fold_right]. destruct l as [|c' l'].
  - exists c. split; [now left|]. cbn [fold_right]. apply Z.min_l. apply Htop. now left.
  - destruct IH as (a & Hin & E); [discriminate | intros; apply Htop; now right|].
    rewrite E. destruct (Z_le_gt_dec (f c) (f a)) as [Hle|Hgt].
    + exists c. split; [now left|]. now apply Z.min_l.
    + exists a. split; [now right|]. apply Z.min_r. lia.
Qed.

Lemma arc_from_range a ks : 0 <= arc_from a ks < 2 ^ 53.
Proof.
  induction ks as [|c ks IH]; cbn [arc_from fold_right]; [split; [lia | reflexivity]|].
  pose proof (Z.mod_pos_bound (c - a) (2 ^ 53) ltac:(reflexivity)). fold (arc_from a ks). lia.
Qed.

(** The smallest arc starts at one of the draws. *)
Lemma covering_arc_attained ks :
  ks <> [] -> exists a, In a ks /\ on_arc a (covering_arc ks) ks.
Proof.
  intros Hne. unfold covering_arc.
  destruct (fold_min_attained (fun a => arc_from a ks) (2 ^ 53) ks Hne) as (a & Hin & ->).
  - intros a _. pose proof (arc_from_range a ks). lia.
  - exists a. split; [exact Hin | apply on_arc_from].
Qed.

Lemma least_offset (f : Z -> Z) l :
  l <> [] -> exists a, In a l /\ forall b, In b l -> f a <= f b.
Proof.
  induction l as [|c l IH]; intros Hne; [congruence|].
  destruct l as [|c' l'].
  - exists c. split; [now left|]. intros b [<-|[]]. lia.
  - destruct IH as (a & Hin & Hmin); [discriminate|].
    destruct (Z_le_gt_dec (f c) (f a)) as [Hle|Hgt].
    + exists c. split; [now left|]. intros b [<-|Hb]; [lia|].
      specialize (Hmin b Hb). lia.
    + exists a. split; [now right|]. intros b [<-|Hb]; [lia | now apply Hmin].
Qed.

(** No arc that holds the draws is shorter than the smallest one. *)
Lemma on_arc_covering s len ks :
  ks <> [] -> on_arc s len ks -> covering_arc ks <= len.
Proof.
  intros Hne Harc. unfold on_arc in Harc. rewrite Forall_forall in Harc.
  destruct (least_offset (fun a => (a - s) mod 2 ^ 53) ks Hne) as (a & Hin & Hmin).
  cbv beta in Hmin.
  etransitivity; [unfold covering_arc; apply (fold_min_le (fun a => arc_from a ks)), Hin|].
  cbv beta.
  pose proof (Z.mod_pos_bound (a - s) (2 ^ 53) ltac:(reflexivity)) as Ha.
  apply arc_from_le; [specialize (Harc a Hin); cbv beta in Harc; lia|].
  intros b Hb. specialize (Hmin b Hb). specialize (Harc b Hb). cbv beta in Harc.
  pose proof (Z.mod_pos_bound (b - s) (2 ^ 53) ltac:(reflexivity)) as Hbm.
  pose proof (Z.div_mod (a - s) (2 ^ 53) ltac:(discriminate)) as Da.
  pose proof (Z.div_mod (b - s) (2 ^ 53) ltac:(discriminate)) as Db.
  replace (b - a)
    with ((b - s) mod 2 ^ 53 - (a - s) mod 2 ^ 53
          + ((b - s) / 2 ^ 53 - (a - s) / 2 ^ 53) * 2 ^ 53) by lia.
  rewrite mod_shift, Z.mod_small by lia. lia.
Qed.

(** ** The rotation of the inputs on the integers *)

(** [wrap] against the exact remainder: equal below one, and at most one
    unit away, on an even value, from one on. *)
Lemma wrap_near s :
  - 2 ^ 53 < s < 2 ^ 54 - 1 ->
  exists q d,
    wrap s = s - 2 ^ 53 * q + d /\ 0 <= s - 2 ^ 53 * q < 2 ^ 53 /\ -1 <= d <= 1 /\
    (d = 0 \/ (2 ^ 53 <= s /\ exists h, wrap s = 2 * h)).
Proof.
  intros Hs. unfold wrap. pow2_facts.
  destruct (Z.ltb_spec s (2 ^ 53)) as [Hlt|Hge].
  - exists (s / 2 ^ 53), 0.
    pose proof (Z.mod_pos_bound s (2 ^ 53) ltac:(lia)) as Hm.
    rewrite Z.mod_eq in * by lia. repeat split; lia.
  - pose proof (rne2_near s) as Hn.
    exists 1, (2 * rne2 s - s). repeat split; try lia.
    destruct (Z.eq_dec (2 * rne2 s - s) 0) as [E|E]; [now left|right].
    split; [assumption|]. exists (rne2 s - 2 ^ 52). lia.
Qed.

Lemma shift_range kc a :
  0 <= a < 2 ^ 53 -> - 2 ^ 53 < kc < 2 ^ 53 -> 0 <= shift kc a < 2 ^ 53.
Proof. intros Ha Hc. unfold shift. apply wrap_range. pow2_facts. lia. Qed.

Lemma shift_float a kc :
  0 <= a < 2 ^ 53 -> - 2 ^ 53 < kc < 2 ^ 53 ->
  float_rem (fadd (grid a) (grid kc)) one = Ok (grid (shift kc a)).
Proof.
  intros Ha Hc. pow2_facts. rewrite fadd_grid, grid_wrap by lia. reflexivity.
Qed.

Lemma shift_0 a : 0 <= a < 2 ^ 53 -> shift 0 a = a.
Proof.
  intros Ha. unfold shift, wrap. rewrite Z.add_0_r.
  replace (a <? 2 ^ 53) with true by (symmetry; apply Z.ltb_lt; lia).
  apply Z.mod_small. assumption.
Qed.

Lemma rotate_inputs_grid ks kc :
  Forall in_range ks -> - 2 ^ 53 < kc < 2 ^ 53 ->
  rotate_inputs (grid kc) (map grid ks) = Ok (map grid (map (shift kc) ks)).
Proof.
  intros R Hc. unfold rotate_inputs.
  rewrite (mapM_map _ _ (fun a => grid (shift kc a))).
  - now rewrite map_map.
  - intros a Hin. rewrite Forall_forall in R. apply shift_float; [apply R, Hin | exact Hc].
Qed.

Lemma shifted_in_range ks kc :
  Forall in_range ks -> - 2 ^ 53 < kc < 2 ^ 53 -> Forall in_range (map (shift kc) ks).
Proof.
  intros R Hc. apply Forall_map. eapply Forall_impl; [|exact R].
  intros a Ha. now apply shift_range.
Qed.

(** Where the generator puts a rotated input: [t] is the exact position of
    the rotated value in the sample, [t - d] the position of the exact
    rotation of the input; each rounding moves by one unit at most, and
    onto an even value. *)
Lemma shifted_position b0 a kc :
  0 <= b0 < 2 ^ 53 -> 0 <= a < 2 ^ 53 -> - 2 ^ 53 < kc < 2 ^ 53 ->
  exists t d g q q',
    0 <= t < 2 ^ 53 /\ -1 <= d <= 1 /\ -1 <= g <= 1 /\
    t - d = a + kc + 2 ^ 52 - b0 + q * 2 ^ 53 /\
    t = shift kc a + 2 ^ 52 - b0 + q' * 2 ^ 53 /\
    rotate b0 (shift kc a) = t + g /\
    (d = 0 \/ exists h, shift kc a = 2 * h) /\
    (g = 0 \/ (t < 2 ^ 52 /\ exists h, rotate b0 (shift kc a) = 2 * h)).
Proof.
  intros H0 Ha Hc. pose proof (shift_range kc a Ha Hc) as Hb. pow2_facts.
  destruct (wrap_near (a + kc) ltac:(lia)) as (q1 & d & E1 & R1 & Hd & P1).
  fold (shift kc a) in E1, P1.
  destruct (wrap_near (shift kc a + (2 ^ 52 - b0)) ltac:(lia)) as (q2 & g & E2 & R2 & Hg & P2).
  fold (rotate b0 (shift kc a)) in E2, P2.
  exists (shift kc a + (2 ^ 52 - b0) - 2 ^ 53 * q2), d, g, (- (q1 + q2)), (- q2).
  split; [lia|]. split; [lia|]. split; [lia|]. split; [lia|]. split; [lia|].
  split; [lia|]. split.
  - destruct P1 as [P1|(_ & P1)]; [now left | now right].
  - destruct P2 as [P2|(Hge & P2)]; [now left | right]. split; [lia | exact P2].
Qed.

(** An arc that holds the draws, made two units longer, holds the rotated
    inputs. *)
Lemma shifted_on_arc ks kc s len :
  Forall in_range ks -> - 2 ^ 53 < kc < 2 ^ 53 -> len + 2 < 2 ^ 53 ->
  on_arc s len ks -> on_arc (s + kc - 1) (len + 2) (map (shift kc) ks).
Proof.
  intros R Hc Hlen Harc. unfold on_arc in *. apply Forall_map.
  rewrite Forall_forall in *. intros a Hin. specialize (Harc a Hin). cbv beta in Harc.
  pose proof (R a Hin) as Ha. unfold in_range in Ha. pow2_facts.
  destruct (wrap_near (a + kc) ltac:(lia)) as (q1 & d & E1 & R1 & Hd & _).
  fold (shift kc a) in E1.
  pose proof (Z.mod_pos_bound (a - s) (2 ^ 53) ltac:(lia)) as Hm.
  pose proof (Z.div_mod (a - s) (2 ^ 53) ltac:(lia)) as D.
  replace (shift kc a - (s + kc - 1))
    with ((a - s) mod 2 ^ 53 + d + 1 + ((a - s) / 2 ^ 53 - q1) * 2 ^ 53) by lia.
  rewrite mod_shift, Z.mod_small by lia. lia.
Qed.

(** Draws on an arc shorter than half the circle are a hit. *)
Lemma on_arc_outcome a0 rest s len :
  Forall in_range (a0 :: rest) -> len <= 2 ^ 52 - 1 ->
  on_arc s len (a0 :: rest) -> outcome (map grid (a0 :: rest)) = Ok true.
Proof.
  intros R Hlen Harc.
  destruct (span_grid a0 rest R) as (lo & hi & Hlo & Hhi & Hb & _ & _ & _ & ->).
  f_equal. apply Z.leb_le.
  assert (R0 : 0 <= a0 < 2 ^ 53) by (now inversion R).
  unfold on_arc in Harc. rewrite Forall_forall in Harc.
  pose proof (Harc a0 (or_introl eq_refl)) as Hu0. cbv beta in Hu0.
  pose proof (Z.mod_pos_bound (a0 - s) (2 ^ 53) ltac:(reflexivity)) as Hm0.
  set (u0 := (a0 - s) mod 2 ^ 53) in *.
  assert (Hall : forall r, In r (map (rotate a0) (a0 :: rest)) ->
                           2 ^ 52 - u0 - 1 <= r <= 2 ^ 52 - u0 + 2 ^ 52 - 1).
  { intros r Hr. apply in_map_iff in Hr. destruct Hr as (a & <- & Ha).
    assert (Ra : 0 <= a < 2 ^ 53) by (rewrite Forall_forall in R; now apply R).
    pose proof (Harc a Ha) as Hu. cbv beta in Hu.
    pose proof (Z.mod_pos_bound (a - s) (2 ^ 53) ltac:(reflexivity)) as Hm.
    set (u := (a - s) mod 2 ^ 53) in *.
    assert (Et : (a + 2 ^ 52 - a0) mod 2 ^ 53 = u - u0 + 2 ^ 52).
    { pose proof (Z.div_mod (a - s) (2 ^ 53) ltac:(discriminate)) as D.
      pose proof (Z.div_mod (a0 - s) (2 ^ 53) ltac:(discriminate)) as D0.
      fold u in D. fold u0 in D0.
      replace (a + 2 ^ 52 - a0)
        with (u - u0 + 2 ^ 52 + ((a - s) / 2 ^ 53 - (a0 - s) / 2 ^ 53) * 2 ^ 53) by lia.
      rewrite mod_shift. apply Z.mod_small. pow2_facts. lia. }
    destruct (rotate_near a0 a R0 Ra) as (Hbig & Hnear & Hsmall).
    rewrite Et in Hbig, Hnear, Hsmall. pow2_facts.
    destruct (Z_lt_le_dec (u - u0 + 2 ^ 52) (2 ^ 52)) as [Hlt|Hge].
    - specialize (Hsmall Hlt). lia.
    - specialize (Hbig Hge). lia. }
  pose proof (Hall lo Hlo). pose proof (Hall hi Hhi). pow2_facts. lia.
Qed.

(** When the rotated inputs are a hit, the draws lie on an arc of half the
    circle and two units: of the two roundings that could add a third unit
    one needs the first rotated input to be odd and the other needs it to be
    even. *)
Lemma shifted_hit_on_arc a0 rest kc :
  Forall in_range (a0 :: rest) -> - 2 ^ 53 < kc < 2 ^ 53 ->
  outcome (map grid (map (shift kc) (a0 :: rest))) = Ok true ->
  exists s, on_arc s (2 ^ 52 + 2) (a0 :: rest).
Proof.
  intros R Hc Ho.
  pose proof (shifted_in_range _ kc R Hc) as Rb.
  change (map (shift kc) (a0 :: rest)) with (shift kc a0 :: map (shift kc) rest) in Ho, Rb.
  destruct (span_grid _ _ Rb) as (lo & hi & Hlo & Hhi & Hb & _ & _ & _ & Eo).
  rewrite Eo in Ho. injection Ho as Ho. apply Z.leb_le in Ho.
  assert (R0 : 0 <= a0 < 2 ^ 53) by (now inversion R).
  pose proof (shift_range kc a0 R0 Hc) as Rb0.
  set (b0 := shift kc a0) in *.
  assert (Hanchor : lo <= 2 ^ 52 <= hi).
  { rewrite <- (rotate_self b0 Rb0). apply Hb. now left. }
  assert (Hr : forall a, In a (a0 :: rest) -> lo <= rotate b0 (shift kc a) <= hi).
  { intros a Ha. apply Hb.
    change (b0 :: map (shift kc) rest) with (map (shift kc) (a0 :: rest)).
    rewrite map_map. now apply (in_map (fun x => rotate b0 (shift kc x))). }
  assert (Elo : exists a, In a (a0 :: rest) /\ lo = rotate b0 (shift kc a)).
  { change (b0 :: map (shift kc) rest) with (map (shift kc) (a0 :: rest)) in Hlo.
    rewrite map_map in Hlo. apply in_map_iff in Hlo. destruct Hlo as (a & E & Hin).
    exists a. split; [exact Hin | now symmetry]. }
  pose proof (Z.div_mod b0 2 ltac:(lia)) as Pb. pose proof (Z.mod_pos_bound b0 2 ltac:(lia)) as Pb'.
  pose proof (Z.div_mod lo 2 ltac:(lia)) as Pl. pose proof (Z.mod_pos_bound lo 2 ltac:(lia)) as Pl'.
  pose proof (Z.div_mod hi 2 ltac:(lia)) as Ph. pose proof (Z.mod_pos_bound hi 2 ltac:(lia)) as Ph'.
  set (L := if (b0 mod 2 =? 0) || (lo mod 2 =? 1) then lo - 1 else lo - 2).
  exists ((L - 2 ^ 52 + b0 - kc) mod 2 ^ 53).
  unfold on_arc. apply Forall_forall. intros a Ha.
  assert (Ra : 0 <= a < 2 ^ 53) by (rewrite Forall_forall in R; now apply R).
  specialize (Hr a Ha).
  destruct (shifted_position b0 a kc Rb0 Ra Hc)
    as (t & d & g & q & q' & Ht & Hd & Hg & Ete & Et & Er & Pd & Pg).
  rewrite Er in Hr. pow2_facts.
  assert (Hte : L <= t - d <= L + 2 ^ 52 + 2).
  { unfold L.
    destruct (Z.eqb_spec (b0 mod 2) 0) as [Eb|Eb]; cbn [orb];
      [|destruct (Z.eqb_spec (lo mod 2) 1) as [El|El]].
    - destruct Pd as [Pd|(h & Pd)], Pg as [Pg|(Hlt & h' & Pg)]; try lia.
    - destruct Pd as [Pd|(h & Pd)], Pg as [Pg|(Hlt & h' & Pg)]; try lia.
    - destruct Pd as [Pd|(h & Pd)], Pg as [Pg|(Hlt & h' & Pg)]; try lia. }
  rewrite Zminus_mod_idemp_r.
  replace (a - (L - 2 ^ 52 + b0 - kc)) with (t - d - L + (- q) * 2 ^ 53) by lia.
  rewrite mod_shift, Z.mod_small by lia. lia.
Qed.

Lemma outcome_total a0 rest :
  Forall in_range (a0 :: rest) -> exists hit, outcome (map grid (a0 :: rest)) = Ok hit.
Proof.
  intros R. destruct (span_grid a0 rest R) as (lo & hi & _ & _ & _ & _ & _ & _ & ->).
  eexists. reflexivity.
Qed.

(** C5, as the code has it: for values drawn, [a / 2^53], and an offset
    [c = kc / 2^53] with [|c| < 1], rotating every input by [c] modulo 1
    before the generation leaves the hit or miss outcome as it is whenever
    the smallest arc that holds the inputs is at least three units [2^-53]
    shorter or at least three units longer than half the circle; and
    whatever that arc is when the inputs and the offset are multiples of
    [2^-52], where no operation rounds. *)
Theorem rotation_invariance ks kc :
  ks <> [] -> Forall in_range ks -> - 2 ^ 53 < kc < 2 ^ 53 ->
  covering_arc ks <= 2 ^ 52 - 3 \/ 2 ^ 52 + 3 <= covering_arc ks \/
  (Forall (fun a => Z.even a = true) ks /\ Z.even kc = true) ->
  exists shifted hit,
    rotate_inputs (grid kc) (map grid ks) = Ok shifted /\
    outcome shifted = Ok hit /\ outcome (map grid ks) = Ok hit.
Proof.
  intros Hne R Hc Hside.
  destruct ks as [|a0 rest]; [congruence|].
  pose proof (shifted_in_range _ kc R Hc) as Rb.
  pose proof (rotate_inputs_grid _ kc R Hc) as Hrot.
  destruct Hside as [Hshort|[Hlong|(Hev & Ec)]].
  - exists (map grid (map (shift kc) (a0 :: rest))), true.
    destruct (covering_arc_attained (a0 :: rest) Hne) as (s & _ & Harc).
    assert (Harc' : on_arc s (2 ^ 52 - 3) (a0 :: rest)).
    { unfold on_arc in *. eapply Forall_impl; [|exact Harc]. cbv beta. intros a Ha. lia. }
    split; [exact Hrot|]. split.
    + change (map (shift kc) (a0 :: rest)) with (shift kc a0 :: map (shift kc) rest) in *.
      apply (on_arc_outcome _ _ (s + kc - 1) (2 ^ 52 - 3 + 2)); [exact Rb | lia |].
      apply (shifted_on_arc (a0 :: rest)); [exact R | exact Hc | reflexivity | exact Harc'].
    + apply (on_arc_outcome _ _ s (2 ^ 52 - 3)); [exact R | lia | exact Harc'].
  - exists (map grid (map (shift kc) (a0 :: rest))), false.
    split; [exact Hrot|]. split.
    + change (map (shift kc) (a0 :: rest)) with (shift kc a0 :: map (shift kc) rest) in *.
      destruct (outcome_total _ _ Rb) as ([|] & Eo); [exfalso | exact Eo].
      destruct (shifted_hit_on_arc a0 rest kc R Hc Eo) as (s & Harc).
      pose proof (on_arc_covering s _ _ Hne Harc). lia.
    + destruct (outcome_total _ _ R) as ([|] & Eo); [exfalso | exact Eo].
      assert (E0 : map (shift 0) (a0 :: rest) = a0 :: rest).
      { rewrite <- (map_id (a0 :: rest)) at 2. apply map_ext_in. intros a Ha.
        apply shift_0. rewrite Forall_forall in R. now apply R. }
      rewrite <- E0 in Eo.
      destruct (shifted_hit_on_arc a0 rest 0 R ltac:(split; reflexivity) Eo) as (s & Harc).
      pose proof (on_arc_covering s _ _ Hne Harc). lia.
  - assert (Hd : Forall on_even_grid (map grid (a0 :: rest))).
    { apply Forall_map. rewrite Forall_forall in *. intros a Ha.
      exists a. split; [apply R, Ha|]. split; [apply Hev, Ha | reflexivity]. }
    destruct (rotation_invariance_even_grid (map grid (a0 :: rest)) kc
                ltac:(discriminate) Hd Ec Hc) as (shifted & hit & E1 & _ & E2 & E3).
    exists shifted, hit. split; [exact E1|]. split; [exact E2 | exact E3].
Qed.

(** The draws recorded in the notebook, rotated by the odd offset
    [3 * 2^-53]. *)
Lemma rotation_invariance_witness :
  [2245844311791996; 5751861135361305; 938841407237133; 7042753431202547] <> [] /\
  Forall in_range
    [2245844311791996; 5751861135361305; 938841407237133; 7042753431202547] /\
  - 2 ^ 53 < 3 < 2 ^ 53 /\
  2 ^ 52 + 3
  <= covering_arc
       [2245844311791996; 5751861135361305; 938841407237133; 7042753431202547] /\
  exists shifted hit,
    rotate_inputs (grid 3) recorded_ducks = Ok shifted /\
    outcome shifted = Ok hit /\ outcome recorded_ducks = Ok hit.
Proof.
  assert (R : Forall in_range
                [2245844311791996; 5751861135361305; 938841407237133; 7042753431202547])
    by (repeat constructor; solve [discriminate | reflexivity]).
  assert (Hc : - 2 ^ 53 < 3 < 2 ^ 53) by (split; reflexivity).
  assert (Ha : 2 ^ 52 + 3
               <= covering_arc
                    [2245844311791996; 5751861135361305; 938841407237133;
                     7042753431202547]) by (vm_compute; discriminate).
  split; [discriminate|]. split; [exact R|]. split; [exact Hc|]. split; [exact Ha|].
  apply (rotation_invariance
           [2245844311791996; 5751861135361305; 938841407237133; 7042753431202547] 3
           ltac:(discriminate) R Hc).
  right. left. exact Ha.
Defined.
